(** * Favicon generator: rasterizer, PNG encoder and ICO wrapper

    A shallow embedding of [scripts/generate_favicon.py].

    - Python [float]s are Rocq's primitive binary64 floats, so that every
      sum, product, quotient and comparison rounds as it does in CPython.
      The integer coordinates of the glyph tables are written as the floats
      they are converted to at their first use.
    - Python [int]s are [Z]; a [bytes] or [bytearray] value is a
      [list byte]; a colour is the list of bytes [bytes(color)] builds.
    - An exception is an explicit outcome.  The canvas is mutated in place,
      so an operation on it returns the canvas it leaves behind together
      with the outcome of the call.
    - The C library's cosine and sine behind [math.cos] and [math.sin],
      [math.radians] and the [zlib] functions are an interface the
      development is parametric in.
    - Memory is limited by CPython's own bound on the size of an object,
      [sys.maxsize] items, and by nothing else. *)

From Stdlib Require Import ZArith List Bool Lia Floats Permutation.
From Stdlib.Strings Require Import Byte.
From Stdlib Require String DecimalString.
Import String.StringSyntax.
Import ListNotations.
Delimit Scope string_scope with string.
Open Scope Z_scope.

(** ** Python values and exceptions *)

Inductive exn : Type :=
| ValueError
| OverflowError
| ZeroDivisionError
| StructError
| TypeError
| MemoryError.

Inductive res (A : Type) : Type :=
| Ok (a : A)
| Raise (e : exn).

Arguments Ok {A} a.
Arguments Raise {A} e.

Definition bind {A B : Type} (r : res A) (k : A -> res B) : res B :=
  match r with
  | Ok a => k a
  | Raise e => Raise e
  end.

Notation "x <- r ;; k" := (bind r (fun x => k))
  (at level 61, r at next level, right associativity).

(** [None]: the call ran to its end; [Some e]: it raised [e]. *)
Definition outcome : Type := option exn.

Definition buffer : Type := list byte.
Definition point : Type := (float * float)%type.
Definition rect : Type := (float * float * float * float)%type.

(** A statement that first evaluates an expression which may raise. *)
Definition try {A : Type} (r : res A) (buf : buffer)
    (k : A -> buffer * outcome) : buffer * outcome :=
  match r with
  | Ok a => k a
  | Raise e => (buf, Some e)
  end.

(** [for x in xs: body], leaving the loop at the first exception. *)
Fixpoint for_each {X : Type} (xs : list X)
    (body : X -> buffer -> buffer * outcome) (buf : buffer)
    : buffer * outcome :=
  match xs with
  | [] => (buf, None)
  | x :: rest =>
      match body x buf with
      | (buf', None) => for_each rest body buf'
      | (buf', Some e) => (buf', Some e)
      end
  end.

(** The same for a loop that only computes a value. *)
Fixpoint foldM {S X : Type} (body : X -> S -> res S) (xs : list X) (s : S)
    : res S :=
  match xs with
  | [] => Ok s
  | x :: rest => s' <- body x s ;; foldM body rest s'
  end.

(** [range(a, b)]. *)
Fixpoint zseq (a : Z) (n : nat) : list Z :=
  match n with
  | O => []
  | S n' => a :: zseq (a + 1) n'
  end.

Definition range (a b : Z) : list Z := zseq a (Z.to_nat (b - a)).

(** ** Numbers *)

(** [float(z)]: the nearest binary64 value, ties to even. *)
Definition float_of_int (z : Z) : float :=
  SF2Prim (binary_normalize prec emax z 0 false).

(** An [int] operand of a float operation is converted first; CPython
    raises [OverflowError] when the nearest float is not finite. *)
Definition int_to_float (z : Z) : res float :=
  let f := float_of_int z in
  if PrimFloat.is_infinity f then Raise OverflowError else Ok f.

(** The wrapper CPython puts around a function of the C library such as
    [cos] and [sin]: a NaN from an argument that is none, or an infinity
    from a finite argument, becomes a [ValueError]. *)
Definition math_1 (func : float -> float) (x : float) : res float :=
  let r := func x in
  if PrimFloat.is_nan r && negb (PrimFloat.is_nan x) then Raise ValueError
  else if PrimFloat.is_infinity r && PrimFloat.is_finite x
       then Raise ValueError
  else Ok r.

(** [math.floor(x)] and [math.ceil(x)] of a float: the exact integer, a
    [ValueError] on a NaN and an [OverflowError] on an infinity. *)
Definition math_floor (x : float) : res Z :=
  match Prim2SF x with
  | S754_zero _ => Ok 0
  | S754_finite s m e =>
      let v := if s then Z.neg m else Z.pos m in
      Ok (if 0 <=? e then v * 2 ^ e else v / 2 ^ (- e))
  | S754_infinity _ => Raise OverflowError
  | S754_nan => Raise ValueError
  end.

Definition math_ceil (x : float) : res Z :=
  match Prim2SF x with
  | S754_zero _ => Ok 0
  | S754_finite s m e =>
      let v := if s then Z.neg m else Z.pos m in
      Ok (if 0 <=? e then v * 2 ^ e else - ((- v) / 2 ^ (- e)))
  | S754_infinity _ => Raise OverflowError
  | S754_nan => Raise ValueError
  end.

(** [a / b] on floats: CPython raises on a zero divisor of either sign. *)
Definition float_div (a b : float) : res float :=
  if (b =? 0)%float then Raise ZeroDivisionError else Ok (a / b)%float.

(** [min(xs)] and [max(xs)]: the first item is kept until a later one
    compares strictly below (above) it. *)
Fixpoint min_from (m : float) (xs : list float) : float :=
  match xs with
  | [] => m
  | x :: rest => min_from (if (x <? m)%float then x else m) rest
  end.

Definition py_min (xs : list float) : res float :=
  match xs with
  | [] => Raise ValueError
  | x :: rest => Ok (min_from x rest)
  end.

Fixpoint max_from (m : float) (xs : list float) : float :=
  match xs with
  | [] => m
  | x :: rest => max_from (if (m <? x)%float then x else m) rest
  end.

Definition py_max (xs : list float) : res float :=
  match xs with
  | [] => Raise ValueError
  | x :: rest => Ok (max_from x rest)
  end.

(** ** Geometry helpers *)

Definition clamp (value lower upper : Z) : Z :=
  Z.max lower (Z.min upper value).

Definition scale_points (points : list point) (scale : float) : list point :=
  map (fun '(x, y) => (x * scale, y * scale)%float) points.

Definition scale_rect (r : rect) (scale : float) : rect :=
  let '(x1, y1, x2, y2) := r in
  (x1 * scale, y1 * scale, x2 * scale, y2 * scale)%float.

(** The literal [1e-12]: the binary64 value nearest to it. *)
Definition eps : float := 0x1.19799812dea11p-40%float.

(** One turn of the loop of [point_in_polygon]: edge [i] runs from
    [polygon[i]] to [polygon[(i + 1) % n]]. *)
Definition edge_step (x y : float) (polygon : list point) (i : nat)
    (inside : bool) : res bool :=
  let n := length polygon in
  let '(x1, y1) := nth i polygon (0, 0)%float in
  let '(x2, y2) := nth ((i + 1) mod n) polygon (0, 0)%float in
  if xorb (y <? y1)%float (y <? y2)%float then
    q <- float_div ((x2 - x1) * (y - y1))%float (y2 - y1 + eps)%float ;;
    let x_intersect := (q + x1)%float in
    Ok (if (x <? x_intersect)%float then negb inside else inside)
  else Ok inside.

Definition point_in_polygon (x y : float) (polygon : list point) : res bool :=
  foldM (edge_step x y polygon) (seq 0 (length polygon)) false.

(** ** The canvas *)

(** [buf[start:stop] = row] on a bytearray, with Python's adjustment of the
    slice bounds to the length of [buf]. *)
Definition adjust_index (i len : Z) : Z :=
  if i <? 0 then Z.max 0 (i + len) else Z.min i len.

Definition slice_assign (buf : buffer) (start stop : Z) (row : list byte)
    : buffer :=
  let len := Z.of_nat (length buf) in
  let lo := adjust_index start len in
  let hi := Z.max lo (adjust_index stop len) in
  firstn (Z.to_nat lo) buf ++ row ++ skipn (Z.to_nat hi) buf.

(** [buf[start:stop]] read. *)
Definition slice (buf : buffer) (start stop : Z) : list byte :=
  let len := Z.of_nat (length buf) in
  let lo := adjust_index start len in
  let hi := Z.max lo (adjust_index stop len) in
  firstn (Z.to_nat (hi - lo)) (skipn (Z.to_nat lo) buf).

Definition set_pixel (buf : buffer) (size x y : Z) (color : list byte)
    : buffer :=
  if negb ((0 <=? x) && (x <? size) && (0 <=? y) && (y <? size)) then buf
  else
    let idx := (y * size + x) * 4 in
    slice_assign buf idx (idx + 4) color.

(** The inner loop of [fill_rect] carries the running [offset]. *)
Definition fill_rect_row (size x_start x_end : Z) (row : list byte) (y : Z)
    (buf : buffer) : buffer :=
  let offset := (y * size + x_start) * 4 in
  fst (fold_left
         (fun (st : buffer * Z) (_ : Z) =>
            let '(b, off) := st in (slice_assign b off (off + 4) row, off + 4))
         (range x_start x_end) (buf, offset)).

Definition fill_rect (buf : buffer) (size : Z) (r : rect) (color : list byte)
    : buffer * outcome :=
  let '(x1, y1, x2, y2) := r in
  try (math_floor x1) buf (fun fx1 =>
  let x_start := clamp fx1 0 size in
  try (math_ceil x2) buf (fun cx2 =>
  let x_end := clamp cx2 0 size in
  try (math_floor y1) buf (fun fy1 =>
  let y_start := clamp fy1 0 size in
  try (math_ceil y2) buf (fun cy2 =>
  let y_end := clamp cy2 0 size in
  let x_end := if x_end <=? x_start then clamp (x_start + 1) 0 size else x_end in
  let y_end := if y_end <=? y_start then clamp (y_start + 1) 0 size else y_end in
  let row := color in
  (fold_left (fun b y => fill_rect_row size x_start x_end row y b)
             (range y_start y_end) buf, None))))).

(** The body of the inner loop of [fill_polygon]. *)
Definition fill_polygon_pixel (size : Z) (polygon : list point)
    (color : list byte) (y x : Z) (buf : buffer) : buffer * outcome :=
  let yy := (float_of_int y + 0.5)%float in
  let xx := (float_of_int x + 0.5)%float in
  try (point_in_polygon xx yy polygon) buf (fun inside =>
  if inside then (set_pixel buf size x y color, None) else (buf, None)).

Definition fill_polygon (buf : buffer) (size : Z) (polygon : list point)
    (color : list byte) : buffer * outcome :=
  let xs := map fst polygon in
  let ys := map snd polygon in
  try (m <- py_min xs ;; math_floor m) buf (fun fx =>
  let x_start := clamp fx 0 size in
  try (m <- py_max xs ;; math_ceil m) buf (fun cx =>
  let x_end := clamp cx 0 size in
  try (m <- py_min ys ;; math_floor m) buf (fun fy =>
  let y_start := clamp fy 0 size in
  try (m <- py_max ys ;; math_ceil m) buf (fun cy =>
  let y_end := clamp cy 0 size in
  if (x_end <=? x_start) || (y_end <=? y_start) then (buf, None)
  else
    for_each (range y_start y_end)
      (fun y => for_each (range x_start x_end)
                  (fill_polygon_pixel size polygon color y))
      buf)))).

(** The four bytes of pixel [(x, y)] of a [size]-wide canvas. *)
Definition pixel (buf : buffer) (size x y : Z) : list byte :=
  slice buf ((y * size + x) * 4) ((y * size + x) * 4 + 4).

Definition BG : list byte := [x2e; x4e; x8a; xff].
Definition FG : list byte := [xff; xff; xff; xff].

(** ** [struct.pack] for the formats the script uses *)

Definition byte_of_Z (z : Z) : byte :=
  match Byte.of_N (Z.to_N (z mod 256)) with
  | Some b => b
  | None => x00
  end.

Definition Z_of_byte (b : byte) : Z := Z.of_N (Byte.to_N b).

(** The [n] low bytes of [v], least significant first. *)
Fixpoint le_bytes (n : nat) (v : Z) : list byte :=
  match n with
  | O => []
  | S n' => byte_of_Z v :: le_bytes n' (Z.shiftr v 8)
  end.

(** Format characters: [B] one byte, [H] two, [I] four, all unsigned. *)
Inductive fmt : Type := fB | fH | fI.

Definition fmt_size (f : fmt) : nat :=
  match f with fB => 1 | fH => 2 | fI => 4 end%nat.

Inductive byte_order : Type := Big | Little.

Definition pack_field (o : byte_order) (f : fmt) (v : Z) : res (list byte) :=
  if (0 <=? v) && (v <? 2 ^ (8 * Z.of_nat (fmt_size f))) then
    Ok (match o with
        | Little => le_bytes (fmt_size f) v
        | Big => rev (le_bytes (fmt_size f) v)
        end)
  else Raise StructError.

Fixpoint struct_pack (o : byte_order) (fields : list (fmt * Z))
    : res (list byte) :=
  match fields with
  | [] => Ok []
  | (f, v) :: rest =>
      b <- pack_field o f v ;;
      bs <- struct_pack o rest ;;
      Ok (b ++ bs)
  end.

(** Reading an unsigned integer back. *)
Definition unpack_be (bs : list byte) : Z :=
  fold_left (fun acc b => acc * 256 + Z_of_byte b) bs 0.

Definition unpack_le (bs : list byte) : Z := unpack_be (rev bs).

(** ** The glyphs *)

Definition A_OUTER : list point :=
  [ (130, 404); (210, 100); (226, 100); (306, 404);
    (258, 404); (232, 302); (182, 302); (156, 404) ]%float.

Definition A_HOLE : list point := [ (214, 180); (242, 288); (190, 288) ]%float.

Definition A_BAR : rect := (180, 250, 252, 292)%float.

(** The items of [t * n] on tuples. *)
Definition tuple_mul {A : Type} (t : list A) (n : Z) : list A :=
  concat (repeat t (Z.to_nat n)).

(** [sys.maxsize] of a 64-bit build. *)
Definition maxsize : Z := 2 ^ 63 - 1.

(** [t * n] with the checks CPython makes before it builds the tuple: a
    count that does not fit the index type raises [OverflowError], and a
    product of more than [sys.maxsize] items [MemoryError]. *)
Definition tuple_repeat {A : Type} (t : list A) (n : Z) : res (list A) :=
  if (n <? - 2 ^ 63) || (maxsize <? n) then Raise OverflowError
  else if (n <=? 0) || (Z.of_nat (length t) =? 0) then Ok []
  else if maxsize / n <? Z.of_nat (length t) then Raise MemoryError
  else Ok (tuple_mul t n).

(** ** The legacy icon container *)

(** The bytes [write_ico] hands to [path.write_bytes]. *)
Definition write_ico (png_data : list byte) (size : Z) : res (list byte) :=
  let reserved := 0 in
  let icon_type := 1 in
  let count := 1 in
  header <- struct_pack Little [(fH, reserved); (fH, icon_type); (fH, count)] ;;
  let width := if size <? 256 then size else 0 in
  let height := if size <? 256 then size else 0 in
  let color_count := 0 in
  let reserved_byte := 0 in
  let planes := 0 in
  let bitcount := 0 in
  let image_size := Z.of_nat (length png_data) in
  let offset := 6 + 16 in
  entry <- struct_pack Little
             [ (fB, width); (fB, height); (fB, color_count);
               (fB, reserved_byte); (fH, planes); (fH, bitcount);
               (fI, image_size); (fI, offset) ] ;;
  Ok (header ++ entry ++ png_data).

(** ** What the script takes from [math] and [zlib] *)

(** The cosine and the sine of the C library, which [math.cos] and
    [math.sin] call; [math.radians] on floats;
    [zlib.compress(data, level)], [zlib.crc32(data)] and, for reading an
    image back, [zlib.decompress(data)] ([None]: it raised). *)
Class PyLibs : Type := {
  libm_cos : float -> float;
  libm_sin : float -> float;
  math_radians : float -> float;
  zlib_compress : list byte -> Z -> list byte;
  zlib_crc32 : list byte -> Z;
  zlib_decompress : list byte -> option (list byte)
}.

Section Generator.

Context {L : PyLibs}.

(** [math.cos] and [math.sin]. *)
Definition math_cos (x : float) : res float := math_1 libm_cos x.
Definition math_sin (x : float) : res float := math_1 libm_sin x.

(** One turn of the loop of [arc_points]: the point for index [i]. *)
Definition arc_point (cx cy rx ry start end_ : float) (steps i : Z)
    : res point :=
  fi <- int_to_float i ;;
  fsteps <- int_to_float steps ;;
  let t := (start + (end_ - start) * fi / fsteps)%float in
  c <- math_cos t ;;
  s <- math_sin t ;;
  Ok (cx + c * rx, cy + s * ry)%float.

(** The generator object [arc_points] returns: its frame before the first
    [next], at the [yield] (with the indices [range] has still to give),
    and after it has returned or raised. *)
Inductive arc_frame : Type :=
| Created (cx cy rx ry start_deg end_deg : float) (steps : Z)
| Suspended (cx cy rx ry start end_ : float) (steps : Z) (rest : list Z)
| Exhausted.

(** What [next(g)] gives: a value, [StopIteration], or an exception of the
    body. *)
Inductive step : Type :=
| Yield (p : point)
| StopIteration
| Throw (e : exn).

(** The body from the head of the loop to the next [yield]. *)
Definition arc_resume (cx cy rx ry start end_ : float) (steps : Z)
    (rest : list Z) : arc_frame * step :=
  match rest with
  | [] => (Exhausted, StopIteration)
  | i :: rest' =>
      match arc_point cx cy rx ry start end_ steps i with
      | Ok p => (Suspended cx cy rx ry start end_ steps rest', Yield p)
      | Raise e => (Exhausted, Throw e)
      end
  end.

(** [next(g)]. *)
Definition next (g : arc_frame) : arc_frame * step :=
  match g with
  | Created cx cy rx ry start_deg end_deg steps =>
      let start := math_radians start_deg in
      let end_ := math_radians end_deg in
      let steps := if steps <? 2 then 2 else steps in
      arc_resume cx cy rx ry start end_ steps (range 0 (steps + 1))
  | Suspended cx cy rx ry start end_ steps rest =>
      arc_resume cx cy rx ry start end_ steps rest
  | Exhausted => (Exhausted, StopIteration)
  end.

(** The call [arc_points(...)] runs none of the body. *)
Definition arc_points (cx cy rx ry start_deg end_deg : float) (steps : Z)
    : arc_frame :=
  Created cx cy rx ry start_deg end_deg steps.

(** The number of calls of [next] after which the generator has stopped. *)
Definition pending (g : arc_frame) : nat :=
  match g with
  | Created _ _ _ _ _ _ steps =>
      S (Z.to_nat ((if steps <? 2 then 2 else steps) + 1))
  | Suspended _ _ _ _ _ _ _ rest => S (length rest)
  | Exhausted => 1
  end.

(** A traversal ([for p in g], [list(g)]): [next] until it stops or
    raises; the generator it leaves, the points it gave and how it ended. *)
Fixpoint traverse (calls : nat) (g : arc_frame)
    : arc_frame * (list point * outcome) :=
  match calls with
  | O => (g, ([], None))
  | S calls' =>
      match next g with
      | (g', Yield p) =>
          let '(g'', (ps, o)) := traverse calls' g' in (g'', (p :: ps, o))
      | (g', StopIteration) => (g', ([], None))
      | (g', Throw e) => (g', ([], Some e))
      end
  end.

(** [list(g)]. *)
Definition py_list (g : arc_frame) : arc_frame * res (list point) :=
  let '(g', (ps, o)) := traverse (pending g) g in
  (g', match o with None => Ok ps | Some e => Raise e end).

(** The points [list(g)] collects.  The module's lists exist when the
    module has been loaded, that is when neither of its two arcs raised;
    the items of an arc are then the points its generator gave. *)
Definition items (g : arc_frame) : list point :=
  fst (snd (traverse (pending g) g)).

Definition P_OUTER : list point :=
  [ (316, 404); (316, 116); (372, 116) ]%float
  ++ items (arc_points 390 196 96 88 (-90) 90 48)
  ++ [ (362, 284); (362, 404); (316, 404) ]%float.

Definition P_HOLE : list point :=
  ([ (336, 164); (372, 164) ]%float
   ++ items (arc_points 384 194 70 62 (-90) 90 40)
   ++ [ (372, 226)%float ])
  ++ [ (336, 226)%float ].

(** Sequencing of the statements that paint the canvas. *)
Definition then_ (c : buffer * outcome) (k : buffer -> buffer * outcome)
    : buffer * outcome :=
  match c with
  | (buf, None) => k buf
  | (buf, Some e) => (buf, Some e)
  end.

(** [bytearray(BG * size * size)]. *)
Definition new_canvas (size : Z) : res buffer :=
  row <- tuple_repeat BG size ;;
  tuple_repeat row size.

(** The first half of [make_png]: the canvas and the five shapes.  When
    the canvas cannot be made there is no buffer to leave behind. *)
Definition render_canvas (size : Z) : buffer * outcome :=
  try (new_canvas size) [] (fun buf =>
  let scale := (float_of_int size / 512.0)%float in
  then_ (fill_polygon buf size (scale_points A_OUTER scale) FG)
  (fun buf =>
  then_ (fill_polygon buf size (scale_points A_HOLE scale) BG)
  (fun buf =>
  then_ (fill_rect buf size (scale_rect A_BAR scale) FG)
  (fun buf =>
  then_ (fill_polygon buf size (scale_points P_OUTER scale) FG)
  (fun buf =>
  fill_polygon buf size (scale_points P_HOLE scale) BG))))).

(** The scanlines, each behind its filter-type byte. *)
Definition scanlines (buf : buffer) (size : Z) : list byte :=
  let stride := size * 4 in
  fold_left
    (fun raw y =>
       let row_start := y * stride in
       (raw ++ [x00]) ++ slice buf row_start (row_start + stride))
    (range 0 size) [].

Definition chunk (chunk_type data : list byte) : res (list byte) :=
  len <- struct_pack Big [(fI, Z.of_nat (length data))] ;;
  crc <- struct_pack Big
           [(fI, Z.land (zlib_crc32 (chunk_type ++ data)) 0xFFFFFFFF)] ;;
  Ok (len ++ chunk_type ++ data ++ crc).

Definition IHDR : list byte := [x49; x48; x44; x52].
Definition IDAT : list byte := [x49; x44; x41; x54].
Definition IEND : list byte := [x49; x45; x4e; x44].

Definition png_signature : list byte :=
  [x89; x50; x4e; x47; x0d; x0a; x1a; x0a].

(** The second half of [make_png]. *)
Definition encode_png (buf : buffer) (size : Z) : res (list byte) :=
  let raw := scanlines buf size in
  let compressed := zlib_compress raw 9 in
  ihdr <- struct_pack Big
            [(fI, size); (fI, size); (fB, 8); (fB, 6); (fB, 0); (fB, 0); (fB, 0)] ;;
  let png := png_signature in
  c1 <- chunk IHDR ihdr ;;
  let png := png ++ c1 in
  c2 <- chunk IDAT compressed ;;
  let png := png ++ c2 in
  c3 <- chunk IEND [] ;;
  let png := png ++ c3 in
  Ok png.

Definition make_png (size : Z) : res (list byte) :=
  match render_canvas size with
  | (buf, None) => encode_png buf size
  | (_, Some e) => Raise e
  end.

End Generator.

(** ** The same with the interpreter's store

    In CPython the four glyph lists and the canvas are mutable objects that
    names and arguments refer to.  Here an object's identity is its position
    in the store; [scale_points] allocates the list it returns,
    [fill_polygon] and [fill_rect] overwrite the bytearray they are handed,
    and [make_png] allocates its canvas.  The tuples [BG], [FG] and [A_BAR]
    cannot be mutated and stay values. *)

Inductive object : Type :=
| PointList (points : list point)
| Bytearray (bytes : list byte).

Definition store : Type := list object.

(** A computation on the store that returns a value or raises. *)
Definition stM (A : Type) : Type := store -> res A * store.

Definition ret {A : Type} (a : A) : stM A := fun s => (Ok a, s).

Definition bindS {A B : Type} (c : stM A) (k : A -> stM B) : stM B :=
  fun s =>
    match c s with
    | (Ok a, s') => k a s'
    | (Raise e, s') => (Raise e, s')
    end.

Notation "x <~ c ;; k" := (bindS c (fun x => k))
  (at level 61, c at next level, right associativity).

(** A new object; its identity is returned. *)
Definition alloc (o : object) : stM nat :=
  fun s => (Ok (length s), s ++ [o]).

(** Overwriting the object [id] in place. *)
Definition update (id : nat) (o : object) (s : store) : store :=
  if (id <? length s)%nat then firstn id s ++ o :: skipn (S id) s else s.

Definition read_points (id : nat) : stM (list point) :=
  fun s =>
    match nth_error s id with
    | Some (PointList points) => (Ok points, s)
    | _ => (Raise TypeError, s)
    end.

Definition read_bytes (id : nat) : stM (list byte) :=
  fun s =>
    match nth_error s id with
    | Some (Bytearray bytes) => (Ok bytes, s)
    | _ => (Raise TypeError, s)
    end.

(** The outcome of a call as the result of a statement. *)
Definition raised (o : outcome) : res unit :=
  match o with None => Ok tt | Some e => Raise e end.

(** What a call that mutates the bytearray [buf] leaves in the store. *)
Definition mutate (buf : nat) (r : buffer * outcome) : stM unit :=
  fun s => (raised (snd r), update buf (Bytearray (fst r)) s).

Definition scale_points_st (points : nat) (scale : float) : stM nat :=
  pts <~ read_points points ;;
  alloc (PointList (scale_points pts scale)).

Definition fill_polygon_st (buf : nat) (size : Z) (polygon : nat)
    (color : list byte) : stM unit :=
  b <~ read_bytes buf ;;
  p <~ read_points polygon ;;
  mutate buf (fill_polygon b size p color).

Definition fill_rect_st (buf : nat) (size : Z) (r : rect) (color : list byte)
    : stM unit :=
  b <~ read_bytes buf ;;
  mutate buf (fill_rect b size r color).

(** The objects the module's names for its lists are bound to. *)
Record bindings : Type := {
  id_A_OUTER : nat;
  id_A_HOLE : nat;
  id_P_OUTER : nat;
  id_P_HOLE : nat
}.

Section Invocations.

Context {L : PyLibs}.

(** The store holds the lists the module built when it was loaded. *)
Definition module_loaded (names : bindings) (s : store) : Prop :=
  nth_error s (id_A_OUTER names) = Some (PointList A_OUTER)
  /\ nth_error s (id_A_HOLE names) = Some (PointList A_HOLE)
  /\ nth_error s (id_P_OUTER names) = Some (PointList P_OUTER)
  /\ nth_error s (id_P_HOLE names) = Some (PointList P_HOLE).

Definition make_png_st (names : bindings) (size : Z) : stM (list byte) :=
  canvas <~ (fun s => (new_canvas size, s)) ;;
  buf <~ alloc (Bytearray canvas) ;;
  let scale := (float_of_int size / 512.0)%float in
  p <~ scale_points_st (id_A_OUTER names) scale ;;
  _ <~ fill_polygon_st buf size p FG ;;
  p <~ scale_points_st (id_A_HOLE names) scale ;;
  _ <~ fill_polygon_st buf size p BG ;;
  _ <~ fill_rect_st buf size (scale_rect A_BAR scale) FG ;;
  p <~ scale_points_st (id_P_OUTER names) scale ;;
  _ <~ fill_polygon_st buf size p FG ;;
  p <~ scale_points_st (id_P_HOLE names) scale ;;
  _ <~ fill_polygon_st buf size p BG ;;
  b <~ read_bytes buf ;;
  fun s => (encode_png b size, s).

(** The invocations for [sizes], one after the other: their results and
    the store they leave. *)
Fixpoint invoke_all (names : bindings) (sizes : list Z) (s : store)
    : list (res (list byte)) * store :=
  match sizes with
  | [] => ([], s)
  | size :: rest =>
      let '(r, s1) := make_png_st names size s in
      let '(rs, s2) := invoke_all names rest s1 in
      (r :: rs, s2)
  end.

End Invocations.

(** ** Reading a raster container back

    A decoder for the part of the format [make_png] writes: the signature,
    then chunks up to the end chunk, each checked against its checksum; the
    header chunk first; the data chunks concatenated and decompressed; every
    scanline behind a filter-type byte 0 (the other filter types are not
    decoded). *)

Fixpoint bytes_eqb (a b : list byte) : bool :=
  match a, b with
  | [], [] => true
  | x :: a', y :: b' => Byte.eqb x y && bytes_eqb a' b'
  | _, _ => false
  end.

Record image : Type := {
  width : Z;
  height : Z;
  bit_depth : Z;
  color_type : Z;
  pixels : list byte
}.

(** [rows] scanlines of [stride] bytes, each behind a zero byte. *)
Fixpoint unfilter (stride rows : nat) (raw : list byte) : option (list byte) :=
  match rows with
  | O => match raw with [] => Some [] | _ => None end
  | S rows' =>
      match raw with
      | x00 :: rest =>
          if (stride <=? length rest)%nat then
            option_map (app (firstn stride rest))
                       (unfilter stride rows' (skipn stride rest))
          else None
      | _ => None
      end
  end.

Section Decoder.

Context {L : PyLibs}.

(** One chunk off the front: its type, its payload and what follows. *)
Definition read_chunk (bs : list byte)
    : option (list byte * list byte * list byte) :=
  let len := Z.to_nat (unpack_be (firstn 4 bs)) in
  let ty := firstn 4 (skipn 4 bs) in
  let data := firstn len (skipn 8 bs) in
  let crc := firstn 4 (skipn (8 + len) bs) in
  if (12 + len <=? length bs)%nat
     && (unpack_be crc =? Z.land (zlib_crc32 (ty ++ data)) 0xFFFFFFFF)
  then Some (ty, data, skipn (12 + len) bs)
  else None.

(** The chunks up to and including the end chunk. *)
Fixpoint read_chunks (fuel : nat) (bs : list byte)
    : option (list (list byte * list byte)) :=
  match fuel with
  | O => None
  | S fuel' =>
      match read_chunk bs with
      | None => None
      | Some (ty, data, rest) =>
          if bytes_eqb ty IEND then Some [(ty, data)]
          else option_map (cons (ty, data)) (read_chunks fuel' rest)
      end
  end.

Definition idat_payload (chunks : list (list byte * list byte)) : list byte :=
  concat (map snd (filter (fun c => bytes_eqb (fst c) IDAT) chunks)).

Definition decode_png (png : list byte) : option image :=
  if bytes_eqb (firstn 8 png) png_signature then
    match read_chunks (length png) (skipn 8 png) with
    | Some ((ty, hdr) :: chunks) =>
        let w := unpack_be (firstn 4 hdr) in
        let h := unpack_be (firstn 4 (skipn 4 hdr)) in
        if bytes_eqb ty IHDR
           && bytes_eqb (skipn 8 hdr) [x08; x06; x00; x00; x00]
        then
          match zlib_decompress (idat_payload chunks) with
          | Some raw =>
              option_map
                (fun px => {| width := w; height := h; bit_depth := 8;
                              color_type := 6; pixels := px |})
                (unfilter (Z.to_nat (4 * w)) (Z.to_nat h) raw)
          | None => None
          end
        else None
    | _ => None
    end
  else None.

End Decoder.

(** ** The exact even-odd rule

    The rule as the specification words it, on the exact values of the
    coordinates: a ray from the point toward larger [x] crosses the edge
    from [(x1, y1)] to [(x2, y2)] when the edge is not horizontal, the
    point's [y] lies in the half-open span of the edge, and the point is
    strictly left of the edge at that height. *)

(** A finite float as the fraction [fst / 2 ^ snd]. *)
Definition dyadic (x : float) : Z * Z :=
  match Prim2SF x with
  | S754_finite s m e =>
      let v := if s then Z.neg m else Z.pos m in
      if 0 <=? e then (v * 2 ^ e, 0) else (v, - e)
  | _ => (0, 0)
  end.

(** Exact fractions with a power of two below: sums, products, order. *)
Definition dy_sub (a b : Z * Z) : Z * Z :=
  let k := Z.max (snd a) (snd b) in
  (fst a * 2 ^ (k - snd a) - fst b * 2 ^ (k - snd b), k).

Definition dy_mul (a b : Z * Z) : Z * Z := (fst a * fst b, snd a + snd b).

Definition dy_ltb (a b : Z * Z) : bool :=
  let k := Z.max (snd a) (snd b) in
  fst a * 2 ^ (k - snd a) <? fst b * 2 ^ (k - snd b).

(** [x < x1 + (x2 - x1) * (y - y1) / (y2 - y1)], cleared of the division. *)
Definition crosses (x y : float) (p1 p2 : point) : bool :=
  let '(x1, y1) := p1 in
  let '(x2, y2) := p2 in
  let above1 := dy_ltb (dyadic y) (dyadic y1) in
  let above2 := dy_ltb (dyadic y) (dyadic y2) in
  xorb above1 above2
  && (let lhs := dy_mul (dy_sub (dyadic x) (dyadic x1))
                        (dy_sub (dyadic y2) (dyadic y1)) in
      let rhs := dy_mul (dy_sub (dyadic x2) (dyadic x1))
                        (dy_sub (dyadic y) (dyadic y1)) in
      if above2 then dy_ltb lhs rhs else dy_ltb rhs lhs).

Definition crossings (x y : float) (polygon : list point) : nat :=
  let n := length polygon in
  length (filter (fun i => crosses x y (nth i polygon (0, 0)%float)
                                       (nth ((i + 1) mod n) polygon (0, 0)%float))
                 (seq 0 n)).

Definition inside_even_odd (x y : float) (polygon : list point) : bool :=
  Nat.odd (crossings x y polygon).

(** ** A concrete runtime

    Stand-ins for the library functions, for evaluating the script on
    concrete inputs: truncated Taylor series for the cosine and the sine
    of a finite angle (they are NaN at an infinity and at a NaN, as in the
    C library), the bitwise CRC-32 of the PNG specification, and a
    compressor that stores its input unchanged. *)

Definition pi : float := 0x1.921fb54442d18p+1%float.

Definition cos_series (t : float) : float :=
  let u := (t * t)%float in
  (1 - u / 2 * (1 - u / 12 * (1 - u / 30 * (1 - u / 56 * (1 - u / 90 *
   (1 - u / 132 * (1 - u / 182 * (1 - u / 240))))))))%float.

Definition sin_series (t : float) : float :=
  let u := (t * t)%float in
  (t * (1 - u / 6 * (1 - u / 20 * (1 - u / 42 * (1 - u / 72 * (1 - u / 110 *
   (1 - u / 156 * (1 - u / 210 * (1 - u / 272)))))))))%float.

Fixpoint crc_bits (n : nat) (c : Z) : Z :=
  match n with
  | O => c
  | S n' =>
      crc_bits n' (if Z.testbit c 0
                   then Z.lxor (Z.shiftr c 1) 0xEDB88320
                   else Z.shiftr c 1)
  end.

Definition crc32_bitwise (data : list byte) : Z :=
  Z.lxor
    (fold_left (fun c b => crc_bits 8 (Z.lxor c (Z_of_byte b))) data 0xFFFFFFFF)
    0xFFFFFFFF.

Definition reference_libs : PyLibs :=
  {| libm_cos := fun t => if PrimFloat.is_finite t then cos_series t else nan;
     libm_sin := fun t => if PrimFloat.is_finite t then sin_series t else nan;
     math_radians := fun x => (x * (pi / 180))%float;
     zlib_compress := fun data _ => data;
     zlib_crc32 := crc32_bitwise;
     zlib_decompress := fun data => Some data |}.

(** The store the module leaves when it is loaded with the reference
    runtime, and the names of its lists. *)
Definition reference_names : bindings :=
  {| id_A_OUTER := 0; id_A_HOLE := 1; id_P_OUTER := 2; id_P_HOLE := 3 |}.

Definition reference_store : store :=
  [ PointList A_OUTER; PointList A_HOLE;
    PointList (@P_OUTER reference_libs); PointList (@P_HOLE reference_libs) ].

(** ** Vocabulary of the properties *)

(** [(x, y)] is a pixel of a [size]-wide canvas. *)
Definition in_canvas (size x y : Z) : Prop :=
  0 <= x < size /\ 0 <= y < size.

(** [z] is in [range(a, b)]. *)
Definition between (a b z : Z) : bool := (a <=? z) && (z <? b).

(** The buffer holds [size * size] pixels of four bytes. *)
Definition canvas_ok (size : Z) (buf : buffer) : Prop :=
  Z.of_nat (length buf) = size * size * 4.

(** [paints size color hit b b']: from [b] to [b'] the pixels selected by
    [hit] took the colour and the others kept theirs. *)
Definition paints (size : Z) (color : list byte) (hit : Z -> Z -> bool)
    (b b' : buffer) : Prop :=
  canvas_ok size b'
  /\ forall x y, in_canvas size x y ->
       pixel b' size x y = if hit x y then color else pixel b size x y.

(** Neither a NaN nor an infinity. *)
Definition is_finite (x : float) : bool :=
  match Prim2SF x with
  | S754_zero _ | S754_finite _ _ _ => true
  | _ => false
  end.

(** Every coordinate of the polygon is finite. *)
Definition finite_points (polygon : list point) : bool :=
  forallb (fun p => is_finite (fst p) && is_finite (snd p)) polygon.

(** No edge has [y2 - y1 + 1e-12] equal to zero. *)
Definition slopes_ok (polygon : list point) : bool :=
  let n := length polygon in
  forallb (fun i =>
             negb (snd (nth ((i + 1) mod n) polygon (0, 0)%float)
                   - snd (nth i polygon (0, 0)%float) + eps =? 0)%float)
          (seq 0 n).

(** The bounds [fill_polygon] scans: the bounding box of the polygon,
    rounded outward to integers and clamped to the canvas. *)
Definition bounding_box (polygon : list point) (size : Z)
    : res (Z * Z * Z * Z) :=
  let xs := map fst polygon in
  let ys := map snd polygon in
  fx <- (m <- py_min xs ;; math_floor m) ;;
  cx <- (m <- py_max xs ;; math_ceil m) ;;
  fy <- (m <- py_min ys ;; math_floor m) ;;
  cy <- (m <- py_max ys ;; math_ceil m) ;;
  Ok (clamp fx 0 size, clamp cx 0 size, clamp fy 0 size, clamp cy 0 size).

(** The centre of pixel column (or row) [z]. *)
Definition center (z : Z) : float := (float_of_int z + 0.5)%float.

(** The test of [fill_polygon] at pixel [(x, y)] returned [True]. *)
Definition covers (polygon : list point) (x y : Z) : bool :=
  match point_in_polygon (center x) (center y) polygon with
  | Ok true => true
  | _ => false
  end.

(** A triangle 2^41 + 2 units wide and one unit high. *)
Definition wide_triangle : list point :=
  [ (-1099511627776, 0); (1099511627778, 1); (-1099511627776, 1) ]%float.

(** The span [fill_rect] paints: the rounded, clamped rectangle, an empty
    side widened to one past its start and clamped again. *)
Definition rect_box (r : rect) (size : Z) : res (Z * Z * Z * Z) :=
  let '(x1, y1, x2, y2) := r in
  fx1 <- math_floor x1 ;;
  cx2 <- math_ceil x2 ;;
  fy1 <- math_floor y1 ;;
  cy2 <- math_ceil y2 ;;
  let x_start := clamp fx1 0 size in
  let x_end := clamp cx2 0 size in
  let y_start := clamp fy1 0 size in
  let y_end := clamp cy2 0 size in
  Ok (x_start,
      (if x_end <=? x_start then clamp (x_start + 1) 0 size else x_end),
      y_start,
      (if y_end <=? y_start then clamp (y_start + 1) 0 size else y_end)).

(** The four low bytes of [v], most significant first. *)
Definition be32 (v : Z) : list byte :=
  [byte_of_Z (v / 2 ^ 24); byte_of_Z (v / 2 ^ 16); byte_of_Z (v / 2 ^ 8);
   byte_of_Z v].

(** The same, least significant first, and two bytes likewise. *)
Definition le32 (v : Z) : list byte :=
  [byte_of_Z v; byte_of_Z (v / 2 ^ 8); byte_of_Z (v / 2 ^ 16);
   byte_of_Z (v / 2 ^ 24)].

Definition le16 (v : Z) : list byte := [byte_of_Z v; byte_of_Z (v / 2 ^ 8)].

(** The header of an icon file: three 16-bit little-endian fields. *)
Definition ico_header (reserved icon_type count : Z) : list byte :=
  le16 reserved ++ le16 icon_type ++ le16 count.

(** A directory entry: four bytes, two 16-bit and two 32-bit fields. *)
Definition ico_entry
    (width height color_count reserved planes bitcount image_size offset : Z)
    : list byte :=
  [byte_of_Z width; byte_of_Z height; byte_of_Z color_count;
   byte_of_Z reserved]
  ++ le16 planes ++ le16 bitcount ++ le32 image_size ++ le32 offset.

(** The bytes of row [y]: its pixels from left to right. *)
Definition row_pixels (buf : buffer) (size y : Z) : list byte :=
  flat_map (fun x => pixel buf size x y) (range 0 size).

(** The stream that is compressed: every row behind a zero byte. *)
Definition filtered_rows (buf : buffer) (size : Z) : list byte :=
  flat_map (fun y => x00 :: row_pixels buf size y) (range 0 size).

(** A chunk as the container format lays it out: the length of the payload
    in four bytes, big-endian; the type tag; the payload; the CRC of tag
    and payload, in four bytes, big-endian. *)
Definition serialized {L : PyLibs} (tag payload : list byte) : list byte :=
  be32 (Z.of_nat (length payload)) ++ tag ++ payload
  ++ be32 (Z.land (zlib_crc32 (tag ++ payload)) 0xFFFFFFFF).

(** The payload of the header chunk: width, height, bit depth 8, colour
    type 6, and compression, filter and interlace methods 0. *)
Definition header_payload (w h : Z) : list byte :=
  be32 w ++ be32 h ++ [x08; x06; x00; x00; x00].

(** ** Vocabulary for the arcs *)

(** The call returned a value. *)
Definition defined {A : Type} (r : res A) : bool :=
  match r with
  | Ok _ => true
  | Raise _ => false
  end.

Section ArcVocabulary.

Context {L : PyLibs}.

(** Nothing raises at index [i] of an arc of [steps] steps: the index and
    the step count convert to floats, and [math.cos] and [math.sin] are
    defined at the angle. *)
Definition arc_defined (start end_ : float) (steps i : Z) : bool :=
  let t := (start + (end_ - start) * float_of_int i
                    / float_of_int steps)%float in
  defined (int_to_float i) && defined (int_to_float steps)
  && defined (math_cos t) && defined (math_sin t).

End ArcVocabulary.

(** ** Vocabulary for the edges of a polygon *)

(** The vertex list started one vertex later. *)
Definition rot1 {A : Type} (l : list A) : list A := tl l ++ firstn 1 l.

(** The edges [point_in_polygon] walks: each vertex with its successor,
    the last with the first. *)
Definition edges (polygon : list point) : list (point * point) :=
  combine polygon (rot1 polygon).

(** The test [(y1 > y) != (y2 > y)] of an edge. *)
Definition straddles (y : float) (e : point * point) : bool :=
  xorb (y <? snd (fst e))%float (y <? snd (snd e))%float.

(** The edge is tested and its divisor [y2 - y1 + 1e-12] is zero. *)
Definition degenerate (y : float) (e : point * point) : bool :=
  straddles y e && (snd (snd e) - snd (fst e) + eps =? 0)%float.

(** The edge is tested and the point is left of the crossing the code
    computes. *)
Definition counted (x y : float) (e : point * point) : bool :=
  let '((x1, y1), (x2, y2)) := e in
  straddles y e
  && (x <? (x2 - x1) * (y - y1) / (y2 - y1 + eps) + x1)%float.

(** One turn of the loop, on the edge itself. *)
Definition edge_turn (x y : float) (e : point * point) (inside : bool)
    : res bool :=
  if degenerate y e then Raise ZeroDivisionError
  else Ok (xorb inside (counted x y e)).

(** ** Vocabulary for the layers of the image *)

(** [fill_polygon] paints pixel [(x, y)]: it is in the scanned box and the
    test at its centre returns [True]. *)
Definition polygon_hits (polygon : list point) (size x y : Z) : bool :=
  match bounding_box polygon size with
  | Ok (x_start, x_end, y_start, y_end) =>
      between x_start x_end x && between y_start y_end y && covers polygon x y
  | Raise _ => false
  end.

(** [fill_rect] paints pixel [(x, y)]: it is in the span. *)
Definition rect_hits (r : rect) (size x y : Z) : bool :=
  match rect_box r size with
  | Ok (x_start, x_end, y_start, y_end) =>
      between x_start x_end x && between y_start y_end y
  | Raise _ => false
  end.

(** * The script's files and output

    [write_png], [write_ico] and [main] act on the file system and on
    standard output.  A path is the list of the components of an absolute,
    resolved path; the world maps paths to directories and files and keeps
    the lines printed so far.  Every directory is taken to be writable and
    no device to fill up, so [mkdir] and [write_bytes] raise only for a
    file in the place of a directory or a directory in the place of a
    file, and [print] never raises. *)

Definition path : Type := list String.string.

Inductive node : Type :=
  | Directory
  | File (data : list byte).

Record world : Type := World {
  nodes : path -> option node;
  stdout : list String.string
}.

(** What the script can raise: an error of the computation, [IndexError]
    from [parents[1]], and [OSError] (with its subclasses) from the file
    system. *)
Inductive script_exn : Type :=
  | Computed (e : exn)
  | IndexError
  | OSError.

Definition io (A : Type) : Type := world -> world * (A + script_exn).

Definition io_ret {A : Type} (a : A) : io A := fun w => (w, inl a).

Definition io_raise {A : Type} (e : script_exn) : io A := fun w => (w, inr e).

Definition io_bind {A B : Type} (c : io A) (k : A -> io B) : io B :=
  fun w =>
    match c w with
    | (w', inl a) => k a w'
    | (w', inr e) => (w', inr e)
    end.

Notation "x <== c ;; k" := (io_bind c (fun x => k))
  (at level 61, c at next level, right associativity).

Definition computed {A : Type} (r : res A) : io A :=
  match r with
  | Ok a => io_ret a
  | Raise e => io_raise (Computed e)
  end.

Definition path_eqb (p q : path) : bool :=
  if list_eq_dec String.string_dec p q then true else false.

Definition put (w : world) (p : path) (n : node) : world :=
  {| nodes := fun q => if path_eqb q p then Some n else nodes w q;
     stdout := stdout w |}.

(** The root is a directory. *)
Definition node_at (w : world) (p : path) : option node :=
  match p with
  | [] => Some Directory
  | _ => nodes w p
  end.

(** [path / name]. *)
Definition join (p : path) (name : String.string) : path := p ++ [name].

(** [path.parents[i]]. *)
Definition parents (p : path) (i : nat) : io path :=
  if (i <? length p)%nat then io_ret (firstn (length p - S i) p)
  else io_raise IndexError.

(** [path.mkdir(parents=True, exist_ok=True)]: from the root down, a
    component that is a directory is kept, one that is missing is made,
    and one that is a file raises. *)
Fixpoint mkdir_from (done todo : path) (w : world)
    : world * (unit + script_exn) :=
  match todo with
  | [] => (w, inl tt)
  | name :: rest =>
      let p := done ++ [name] in
      match nodes w p with
      | Some Directory => mkdir_from p rest w
      | Some (File _) => (w, inr OSError)
      | None => mkdir_from p rest (put w p Directory)
      end
  end.

Definition mkdir (p : path) : io unit := mkdir_from [] p.

(** [path.write_bytes(data)]: the parent has to be a directory and the
    path must not be one; the file is made or replaced, and the number of
    bytes is returned. *)
Definition write_bytes (p : path) (data : list byte) : io nat :=
  fun w =>
    match p with
    | [] => (w, inr OSError)
    | _ =>
        match node_at w (removelast p), nodes w p with
        | Some Directory, Some Directory => (w, inr OSError)
        | Some Directory, _ => (put w p (File data), inl (length data))
        | _, _ => (w, inr OSError)
        end
    end.

Definition print (line : String.string) : io unit :=
  fun w => ({| nodes := nodes w; stdout := stdout w ++ [line] |}, inl tt).

(** [str] of an integer, as an f-string formats it. *)
Definition str (z : Z) : String.string :=
  DecimalString.NilZero.string_of_int (Z.to_int z).

Fixpoint for_io {A : Type} (xs : list A) (body : A -> io unit) : io unit :=
  match xs with
  | [] => io_ret tt
  | x :: rest => _ <== body x ;; for_io rest body
  end.

(** [write_ico] with the write of its bytes. *)
Definition write_ico_at (p : path) (png_data : list byte) (size : Z)
    : io nat :=
  file <== computed (write_ico png_data size) ;;
  write_bytes p file.

Section Script.

Context {L : PyLibs}.

Definition write_png (p : path) (size : Z) : io (list byte) :=
  data <== computed (make_png size) ;;
  _ <== write_bytes p data ;;
  io_ret data.

(** [main]; [file] is [Path(__file__).resolve()]. *)
Definition main (file : path) : io unit :=
  root <== parents file 1 ;;
  let out_dir := join root "images"%string in
  _ <== mkdir out_dir ;;
  png32 <== write_png (join out_dir "favicon-32x32.png"%string) 32 ;;
  png192 <== write_png (join out_dir "favicon-192x192.png"%string) 192 ;;
  png512 <== write_png (join out_dir "favicon-512x512.png"%string) 512 ;;
  _ <== write_ico_at (join out_dir "favicon.ico"%string) png32 32 ;;
  _ <== print "Generated favicon assets:"%string ;;
  for_io [(32, png32); (192, png192); (512, png512)]
    (fun '(size, data) =>
       print (String.concat String.EmptyString
                [ "  "; str size; "x"; str size; " -> ";
                  str (Z.of_nat (length data)); " bytes" ]%string)).

End Script.

(** ** Vocabulary for the script *)

Definition finite_rect (r : rect) : bool :=
  let '(x1, y1, x2, y2) := r in
  is_finite x1 && is_finite x2 && is_finite y1 && is_finite y2.

(** The directory [main] writes into, and the four files it writes. *)
Definition out_dir (file : path) : path :=
  firstn (length file - 2) file ++ ["images"%string].

Definition outputs (file : path) : list path :=
  map (fun name => out_dir file ++ [name])
      [ "favicon-32x32.png"; "favicon-192x192.png"; "favicon-512x512.png";
        "favicon.ico" ]%string.

Definition is_file (w : world) (p : path) : bool :=
  match nodes w p with
  | Some (File _) => true
  | _ => false
  end.

Definition is_dir (w : world) (p : path) : bool :=
  match nodes w p with
  | Some Directory => true
  | _ => false
  end.

(** The path or one of the directories above it is a file. *)
Definition blocked (w : world) (p : path) : bool :=
  existsb (fun k => is_file w (firstn (S k) p)) (seq 0 (length p)).

Section ScriptVocabulary.

Context {L : PyLibs}.

(** What [main] needs to run to its end: a script at least two levels
    below the root, no file in the place of the output directory or of a
    directory above it, no directory in the place of an output file, three
    images that [make_png] returns, and a 32-pixel image whose length fits
    the 32-bit field of the icon's entry. *)
Definition main_can_return (file : path) (w : world) : Prop :=
  (2 <= length file)%nat
  /\ blocked w (out_dir file) = false
  /\ forallb (fun p => negb (is_dir w p)) (outputs file) = true
  /\ (exists png32,
        make_png 32 = Ok png32 /\ Z.of_nat (length png32) < 2 ^ 32)
  /\ (exists png192, make_png 192 = Ok png192)
  /\ (exists png512, make_png 512 = Ok png512).

End ScriptVocabulary.

(** A place for the script, and two worlds: one with nothing in it, and
    one where a file is in the place of the output directory. *)
Definition reference_file : path :=
  [ "repo"; "scripts"; "generate_favicon.py" ]%string.

Definition empty_world : world := {| nodes := fun _ => None; stdout := [] |}.

Definition blocked_world : world :=
  put (put empty_world ["repo"%string] Directory)
      [ "repo"; "images" ]%string (File []).

(** * Properties *)

Example fill_rect_square :
  fill_rect (BG ++ BG ++ BG ++ BG) 2 (0, 0, 1, 2)%float FG
  = (FG ++ BG ++ FG ++ BG, None).
Proof. reflexivity. Qed.

Example fill_polygon_square :
  fill_polygon (BG ++ BG ++ BG ++ BG) 2 [(0, 0); (1, 0); (1, 2); (0, 2)]%float FG
  = (FG ++ BG ++ FG ++ BG, None).
Proof. vm_compute. reflexivity. Qed.

Example crc32_of_IEND : crc32_bitwise IEND = 0xAE426082.
Proof. reflexivity. Qed.

(** ** Slices of a buffer *)

Lemma adjust_index_inside (i len : Z) :
  0 <= i <= len -> adjust_index i len = i.
Proof.
  intros H. unfold adjust_index.
  destruct (Z.ltb_spec i 0); lia.
Qed.

Lemma slice_inside (buf : buffer) (lo hi : Z) :
  0 <= lo <= hi -> hi <= Z.of_nat (length buf) ->
  slice buf lo hi = firstn (Z.to_nat (hi - lo)) (skipn (Z.to_nat lo) buf).
Proof.
  intros H1 H2. unfold slice.
  rewrite !adjust_index_inside by lia.
  now rewrite Z.max_r by lia.
Qed.

Lemma slice_assign_inside (buf : buffer) (lo hi : Z) (row : list byte) :
  0 <= lo <= hi -> hi <= Z.of_nat (length buf) ->
  slice_assign buf lo hi row
  = firstn (Z.to_nat lo) buf ++ row ++ skipn (Z.to_nat hi) buf.
Proof.
  intros H1 H2. unfold slice_assign.
  rewrite !adjust_index_inside by lia.
  now rewrite Z.max_r by lia.
Qed.

Lemma length_slice_assign (buf : buffer) (lo : Z) (row : list byte) :
  0 <= lo -> lo + 4 <= Z.of_nat (length buf) -> length row = 4%nat ->
  length (slice_assign buf lo (lo + 4) row) = length buf.
Proof.
  intros H1 H2 H3.
  rewrite slice_assign_inside by lia.
  rewrite !length_app, length_firstn, length_skipn. lia.
Qed.

Lemma nth_error_splice (buf row : list byte) (lo k : nat) :
  (lo + length row <= length buf)%nat ->
  nth_error (firstn lo buf ++ row ++ skipn (lo + length row) buf) k
  = if (k <? lo)%nat then nth_error buf k
    else if (k <? lo + length row)%nat then nth_error row (k - lo)
    else nth_error buf k.
Proof.
  intros H.
  rewrite nth_error_app, length_firstn, Nat.min_l by lia.
  destruct (Nat.ltb_spec k lo) as [Hk | Hk].
  - rewrite nth_error_firstn.
    destruct (Nat.ltb_spec k lo); [reflexivity | lia].
  - rewrite nth_error_app.
    destruct (Nat.ltb_spec (k - lo) (length row)) as [Hr | Hr];
      destruct (Nat.ltb_spec k (lo + length row)); try lia.
    + reflexivity.
    + rewrite nth_error_skipn. f_equal. lia.
Qed.

(** Writing four bytes at pixel [i] changes pixel [i] and no other. *)
Lemma slice_after_assign (buf : buffer) (n i j : Z) (row : list byte) :
  Z.of_nat (length buf) = n * 4 -> length row = 4%nat ->
  0 <= i < n -> 0 <= j < n ->
  slice (slice_assign buf (i * 4) (i * 4 + 4) row) (j * 4) (j * 4 + 4)
  = if j =? i then row else slice buf (j * 4) (j * 4 + 4).
Proof.
  intros Hlen Hrow Hi Hj.
  assert (Hl : length (slice_assign buf (i * 4) (i * 4 + 4) row) = length buf)
    by (apply length_slice_assign; lia).
  rewrite !slice_inside by lia.
  rewrite slice_assign_inside by lia.
  replace (Z.to_nat (i * 4 + 4)) with (Z.to_nat (i * 4) + length row)%nat by lia.
  replace (Z.to_nat (j * 4 + 4 - j * 4)) with 4%nat by lia.
  apply nth_error_ext; intros k.
  rewrite nth_error_firstn, nth_error_skipn, nth_error_splice by lia.
  destruct (Z.eqb_spec j i) as [-> | Hne].
  - destruct (Nat.ltb_spec k 4).
    + destruct (Nat.ltb_spec (Z.to_nat (i * 4) + k) (Z.to_nat (i * 4))); [lia |].
      destruct (Nat.ltb_spec (Z.to_nat (i * 4) + k)
                             (Z.to_nat (i * 4) + length row)); [| lia].
      f_equal. lia.
    + symmetry. apply nth_error_None. lia.
  - rewrite nth_error_firstn, nth_error_skipn.
    destruct (Nat.ltb_spec k 4); [| reflexivity].
    destruct (Nat.ltb_spec (Z.to_nat (j * 4) + k) (Z.to_nat (i * 4)));
      [reflexivity |].
    destruct (Nat.ltb_spec (Z.to_nat (j * 4) + k)
                           (Z.to_nat (i * 4) + length row)); [lia | reflexivity].
Qed.

(** ** Pixels of a canvas *)

Lemma pixel_index_bound (size x y : Z) :
  in_canvas size x y -> 0 <= y * size + x < size * size.
Proof. unfold in_canvas. nia. Qed.

Lemma pixel_index_inj (size x y x' y' : Z) :
  in_canvas size x y -> in_canvas size x' y' ->
  y * size + x = y' * size + x' -> x = x' /\ y = y'.
Proof.
  unfold in_canvas. intros H H' E.
  assert (y = y') by nia. subst. lia.
Qed.

Lemma length_set_pixel (buf : buffer) (size x y : Z) (color : list byte) :
  Z.of_nat (length buf) = size * size * 4 -> length color = 4%nat ->
  length (set_pixel buf size x y color) = length buf.
Proof.
  intros Hlen Hc. unfold set_pixel.
  destruct (Z.leb_spec 0 x), (Z.ltb_spec x size),
           (Z.leb_spec 0 y), (Z.ltb_spec y size); simpl; try reflexivity.
  assert (0 <= y * size + x < size * size)
    by (apply pixel_index_bound; unfold in_canvas; lia).
  apply length_slice_assign; lia.
Qed.

Lemma pixel_set_pixel (buf : buffer) (size x y x' y' : Z) (color : list byte) :
  Z.of_nat (length buf) = size * size * 4 -> length color = 4%nat ->
  in_canvas size x' y' ->
  pixel (set_pixel buf size x y color) size x' y'
  = if (x' =? x) && (y' =? y) then color else pixel buf size x' y'.
Proof.
  intros Hlen Hc Hin'. unfold set_pixel.
  destruct (Z.leb_spec 0 x), (Z.ltb_spec x size),
           (Z.leb_spec 0 y), (Z.ltb_spec y size); simpl;
    try (destruct (Z.eqb_spec x' x), (Z.eqb_spec y' y); simpl;
         unfold in_canvas in Hin'; try reflexivity; lia).
  assert (Hin : in_canvas size x y) by (unfold in_canvas; lia).
  unfold pixel.
  rewrite (slice_after_assign buf (size * size)); try lia;
    try (apply pixel_index_bound; assumption).
  destruct (Z.eqb_spec (y' * size + x') (y * size + x)) as [E | E].
  - apply pixel_index_inj in E; try assumption. destruct E as [-> ->].
    now rewrite !Z.eqb_refl.
  - destruct (Z.eqb_spec x' x), (Z.eqb_spec y' y); simpl; try reflexivity.
    subst. lia.
Qed.

(** ** Ranges *)

Lemma In_zseq (n : nat) (a z : Z) :
  In z (zseq a n) <-> a <= z < a + Z.of_nat n.
Proof.
  revert a. induction n as [| n IH]; intros a; simpl.
  - lia.
  - rewrite IH. lia.
Qed.

Lemma In_range (a b z : Z) : In z (range a b) <-> a <= z < b.
Proof. unfold range. rewrite In_zseq. lia. Qed.

Lemma range_empty (a b : Z) : b <= a -> range a b = [].
Proof.
  intros H. unfold range.
  replace (Z.to_nat (b - a)) with 0%nat by lia. reflexivity.
Qed.

Lemma between_spec (a b z : Z) : between a b z = true <-> a <= z < b.
Proof. unfold between. rewrite andb_true_iff, Z.leb_le, Z.ltb_lt. tauto. Qed.

(** A search over a range for the one index [z']. *)
Lemma existsb_range_at (g : Z -> bool) (a b z' : Z) :
  existsb (fun z => (z' =? z) && g z) (range a b) = between a b z' && g z'.
Proof.
  apply eq_true_iff_eq.
  rewrite existsb_exists, andb_true_iff, between_spec.
  split.
  - intros (z & Hin & H). apply andb_true_iff in H as [E H].
    apply Z.eqb_eq in E. subst z'. apply In_range in Hin. tauto.
  - intros [Hin H]. exists z'. rewrite In_range, Z.eqb_refl. tauto.
Qed.

(** ** Loops that paint *)

Lemma paints_nothing (size : Z) (color : list byte) (b : buffer) :
  canvas_ok size b -> paints size color (fun _ _ => false) b b.
Proof. intros H. split; [assumption | reflexivity]. Qed.

Lemma paints_ext (size : Z) (color : list byte) (hit hit' : Z -> Z -> bool)
    (b b' : buffer) :
  (forall x y, in_canvas size x y -> hit x y = hit' x y) ->
  paints size color hit b b' -> paints size color hit' b b'.
Proof.
  intros E [Hok H]. split; [assumption |].
  intros x y Hin. rewrite <- E by assumption. now apply H.
Qed.

Lemma paints_trans (size : Z) (color : list byte) (h1 h2 : Z -> Z -> bool)
    (b0 b1 b2 : buffer) :
  paints size color h1 b0 b1 -> paints size color h2 b1 b2 ->
  paints size color (fun x y => h1 x y || h2 x y) b0 b2.
Proof.
  intros [_ H1] [Hok H2]. split; [assumption |].
  intros x y Hin. rewrite H2, H1 by assumption.
  destruct (h1 x y), (h2 x y); reflexivity.
Qed.

Lemma for_each_paints {X : Type} (size : Z) (color : list byte)
    (hit : X -> Z -> Z -> bool) (body : X -> buffer -> buffer * outcome)
    (xs : list X) :
  (forall x b b', In x xs -> canvas_ok size b -> body x b = (b', None) ->
     paints size color (hit x) b b') ->
  forall b b', canvas_ok size b -> for_each xs body b = (b', None) ->
    paints size color (fun x' y' => existsb (fun x => hit x x' y') xs) b b'.
Proof.
  induction xs as [| x xs IH]; intros Hbody b b' Hok Hrun; simpl in *.
  - injection Hrun as <-. now apply paints_nothing.
  - destruct (body x b) as [b1 [e |]] eqn:Hx; [discriminate |].
    assert (H1 : paints size color (hit x) b b1) by (apply Hbody; auto).
    eapply paints_trans; [exact H1 |].
    apply IH; auto. apply H1.
Qed.

(** A loop keeps what each of its turns keeps, however it ends. *)
Lemma for_each_keeps {X : Type} (P : buffer -> Prop)
    (body : X -> buffer -> buffer * outcome) (xs : list X) :
  (forall x b, P b -> P (fst (body x b))) ->
  forall b, P b -> P (fst (for_each xs body b)).
Proof.
  intros Hbody. induction xs as [| x xs IH]; intros b Hb; simpl.
  - assumption.
  - specialize (Hbody x b Hb).
    destruct (body x b) as [b1 [e |]]; simpl in *; auto.
Qed.

(** A loop whose turns all complete completes. *)
Lemma for_each_completes {X : Type} (body : X -> buffer -> buffer * outcome)
    (xs : list X) :
  (forall x b, In x xs -> snd (body x b) = None) ->
  forall b, snd (for_each xs body b) = None.
Proof.
  induction xs as [| x xs IH]; intros Hbody b; simpl.
  - reflexivity.
  - pose proof (Hbody x b (or_introl eq_refl)) as Hx.
    destruct (body x b) as [b1 [e |]]; simpl in *; [discriminate |].
    apply IH. intros; apply Hbody; auto.
Qed.

(** ** The polygon fill *)

Lemma fill_polygon_scan (buf : buffer) (size : Z) (polygon : list point)
    (color : list byte) :
  fill_polygon buf size polygon color
  = match bounding_box polygon size with
    | Raise e => (buf, Some e)
    | Ok (x_start, x_end, y_start, y_end) =>
        if (x_end <=? x_start) || (y_end <=? y_start) then (buf, None)
        else
          for_each (range y_start y_end)
            (fun y => for_each (range x_start x_end)
                        (fill_polygon_pixel size polygon color y))
            buf
    end.
Proof.
  unfold fill_polygon, bounding_box, try, bind.
  destruct (py_min (map fst polygon)); [| reflexivity].
  destruct (math_floor a); [| reflexivity].
  destruct (py_max (map fst polygon)); [| reflexivity].
  destruct (math_ceil a1); [| reflexivity].
  destruct (py_min (map snd polygon)); [| reflexivity].
  destruct (math_floor a3); [| reflexivity].
  destruct (py_max (map snd polygon)); [| reflexivity].
  destruct (math_ceil a5); reflexivity.
Qed.

Lemma min_from_In (m : float) (xs : list float) : In (min_from m xs) (m :: xs).
Proof.
  revert m. induction xs as [| x xs IH]; intros m; simpl.
  - now left.
  - destruct (IH (if (x <? m)%float then x else m)) as [E | Hin].
    + destruct (x <? m)%float; rewrite <- E; auto.
    + auto.
Qed.

Lemma max_from_In (m : float) (xs : list float) : In (max_from m xs) (m :: xs).
Proof.
  revert m. induction xs as [| x xs IH]; intros m; simpl.
  - now left.
  - destruct (IH (if (m <? x)%float then x else m)) as [E | Hin].
    + destruct (m <? x)%float; rewrite <- E; auto.
    + auto.
Qed.

Lemma math_floor_finite (x : float) :
  is_finite x = true -> exists z, math_floor x = Ok z.
Proof.
  unfold is_finite, math_floor.
  destruct (Prim2SF x); try discriminate; eauto.
Qed.

Lemma math_ceil_finite (x : float) :
  is_finite x = true -> exists z, math_ceil x = Ok z.
Proof.
  unfold is_finite, math_ceil.
  destruct (Prim2SF x); try discriminate; eauto.
Qed.

Lemma py_min_finite (xs : list float) :
  xs <> [] -> forallb is_finite xs = true ->
  exists m, py_min xs = Ok m /\ is_finite m = true.
Proof.
  intros Hne Hfin. destruct xs as [| x xs]; [congruence |].
  exists (min_from x xs). split; [reflexivity |].
  rewrite forallb_forall in Hfin. apply Hfin, min_from_In.
Qed.

Lemma py_max_finite (xs : list float) :
  xs <> [] -> forallb is_finite xs = true ->
  exists m, py_max xs = Ok m /\ is_finite m = true.
Proof.
  intros Hne Hfin. destruct xs as [| x xs]; [congruence |].
  exists (max_from x xs). split; [reflexivity |].
  rewrite forallb_forall in Hfin. apply Hfin, max_from_In.
Qed.

Lemma finite_points_coords (polygon : list point) :
  finite_points polygon = true ->
  forallb is_finite (map fst polygon) = true
  /\ forallb is_finite (map snd polygon) = true.
Proof.
  unfold finite_points. induction polygon as [| p ps IH]; simpl.
  - auto.
  - rewrite !andb_true_iff. intros [[H1 H2] H]. destruct (IH H). auto.
Qed.

Lemma bounding_box_total (polygon : list point) (size : Z) :
  polygon <> [] -> finite_points polygon = true ->
  exists bb, bounding_box polygon size = Ok bb.
Proof.
  intros Hne Hfin.
  destruct (finite_points_coords _ Hfin) as [Hx Hy].
  assert (Hnx : map fst polygon <> []) by (destruct polygon; simpl; congruence).
  assert (Hny : map snd polygon <> []) by (destruct polygon; simpl; congruence).
  destruct (py_min_finite _ Hnx Hx) as (a & Ea & Fa).
  destruct (py_max_finite _ Hnx Hx) as (b & Eb & Fb).
  destruct (py_min_finite _ Hny Hy) as (c & Ec & Fc).
  destruct (py_max_finite _ Hny Hy) as (d & Ed & Fd).
  destruct (math_floor_finite _ Fa) as (fa & Ha).
  destruct (math_ceil_finite _ Fb) as (cb & Hb).
  destruct (math_floor_finite _ Fc) as (fc & Hc).
  destruct (math_ceil_finite _ Fd) as (cd & Hd).
  unfold bounding_box.
  rewrite Ea, Eb, Ec, Ed. simpl. rewrite Ha, Hb, Hc, Hd. simpl. eauto.
Qed.

Lemma edge_step_total (x y : float) (polygon : list point) (i : nat)
    (inside : bool) :
  (snd (nth ((i + 1) mod length polygon) polygon (0, 0)%float)
   - snd (nth i polygon (0, 0)%float) + eps =? 0)%float = false ->
  exists b, edge_step x y polygon i inside = Ok b.
Proof.
  intros H. unfold edge_step.
  destruct (nth i polygon (0, 0)%float) as [x1 y1].
  destruct (nth ((i + 1) mod length polygon) polygon (0, 0)%float) as [x2 y2].
  simpl in H.
  destruct (xorb (y <? y1)%float (y <? y2)%float); [| eauto].
  unfold float_div. rewrite H. simpl. eauto.
Qed.

Lemma point_in_polygon_total (x y : float) (polygon : list point) :
  slopes_ok polygon = true -> exists b, point_in_polygon x y polygon = Ok b.
Proof.
  unfold slopes_ok, point_in_polygon.
  generalize (seq 0 (length polygon)) as l, false as inside.
  induction l as [| i l IH]; intros inside H; simpl in *.
  - eauto.
  - apply andb_true_iff in H as [Hi Hl].
    apply negb_true_iff in Hi.
    destruct (edge_step_total x y polygon i inside Hi) as (b & ->).
    simpl. apply IH, Hl.
Qed.

Lemma fill_polygon_pixel_paints (size : Z) (polygon : list point)
    (color : list byte) (y x : Z) (b b' : buffer) :
  length color = 4%nat -> canvas_ok size b ->
  fill_polygon_pixel size polygon color y x b = (b', None) ->
  paints size color
         (fun x' y' => (x' =? x) && ((y' =? y) && covers polygon x y)) b b'.
Proof.
  intros Hc Hok. unfold fill_polygon_pixel, covers, center, try.
  destruct (point_in_polygon _ _ polygon) as [[|] | e]; intros E;
    inversion E; subst; clear E.
  - split.
    + unfold canvas_ok in *. rewrite length_set_pixel; assumption.
    + intros x' y' Hin. rewrite pixel_set_pixel by assumption.
      now rewrite andb_true_r.
  - split; [assumption |]. intros x' y' _.
    now rewrite !andb_false_r.
Qed.

Lemma fill_polygon_pixel_keeps (size : Z) (polygon : list point)
    (color : list byte) (y x : Z) (b : buffer) :
  length color = 4%nat -> canvas_ok size b ->
  canvas_ok size (fst (fill_polygon_pixel size polygon color y x b)).
Proof.
  intros Hc Hok. unfold fill_polygon_pixel, try.
  destruct (point_in_polygon _ _ polygon) as [[|] | e]; simpl; try assumption.
  unfold canvas_ok in *. rewrite length_set_pixel; assumption.
Qed.

(** The scan of the box [x_start, x_end) x [y_start, y_end). *)
Lemma scan_paints (size : Z) (polygon : list point) (color : list byte)
    (x_start x_end y_start y_end : Z) (b b' : buffer) :
  length color = 4%nat -> canvas_ok size b ->
  for_each (range y_start y_end)
    (fun y => for_each (range x_start x_end)
                (fill_polygon_pixel size polygon color y)) b = (b', None) ->
  paints size color
         (fun x y => between x_start x_end x && between y_start y_end y
                     && covers polygon x y) b b'.
Proof.
  intros Hc Hok Hrun.
  eapply paints_ext; cycle 1.
  - eapply (for_each_paints size color
              (fun y x' y' => (y' =? y)
                 && (between x_start x_end x' && covers polygon x' y)));
      [| exact Hok | exact Hrun].
    intros y b0 b1 _ Hok0 Hrow.
    eapply paints_ext; cycle 1.
    + eapply (for_each_paints size color
                (fun x x' y' => (x' =? x) && ((y' =? y) && covers polygon x y)));
        [| exact Hok0 | exact Hrow].
      intros x b2 b3 _ Hok2 Hpx.
      now apply fill_polygon_pixel_paints.
    + intros x' y' _. simpl.
      rewrite (existsb_range_at (fun x => (y' =? y) && covers polygon x y)).
      destruct (y' =? y), (between x_start x_end x'), (covers polygon x' y);
        reflexivity.
  - intros x y _. simpl.
    rewrite (existsb_range_at
               (fun y0 => between x_start x_end x && covers polygon x y0)).
    destruct (between x_start x_end x), (between y_start y_end y),
             (covers polygon x y); reflexivity.
Qed.

Lemma scan_completes (size : Z) (polygon : list point) (color : list byte)
    (xr yr : list Z) (b : buffer) :
  slopes_ok polygon = true ->
  snd (for_each yr
         (fun y => for_each xr (fill_polygon_pixel size polygon color y)) b)
  = None.
Proof.
  intros Hs. apply for_each_completes. intros y b0 _.
  apply for_each_completes. intros x b1 _.
  unfold fill_polygon_pixel, try.
  destruct (point_in_polygon_total (float_of_int x + 0.5) (float_of_int y + 0.5)
              polygon Hs) as (r & ->).
  destruct r; reflexivity.
Qed.

(** ** What a completed call has done *)

Lemma fill_polygon_completed (buf buf' : buffer) (size : Z)
    (polygon : list point) (color : list byte) :
  canvas_ok size buf -> length color = 4%nat ->
  fill_polygon buf size polygon color = (buf', None) ->
  exists x_start x_end y_start y_end,
    bounding_box polygon size = Ok (x_start, x_end, y_start, y_end)
    /\ paints size color
         (fun x y => between x_start x_end x && between y_start y_end y
                     && covers polygon x y) buf buf'.
Proof.
  intros Hok Hc. rewrite fill_polygon_scan.
  destruct (bounding_box polygon size) as [[[[xs xe] ys] ye] | e];
    [| discriminate].
  intros Hrun. exists xs, xe, ys, ye. split; [reflexivity |].
  destruct ((xe <=? xs) || (ye <=? ys)) eqn:Hempty.
  - injection Hrun as <-.
    eapply paints_ext; [| now apply paints_nothing].
    intros x y _. simpl. symmetry.
    replace (between xs xe x && between ys ye y) with false; [reflexivity |].
    symmetry. apply not_true_iff_false. rewrite andb_true_iff, !between_spec.
    apply orb_true_iff in Hempty as [H | H]; apply Z.leb_le in H; lia.
  - now apply scan_paints.
Qed.

Lemma fill_polygon_completes (buf : buffer) (size : Z) (polygon : list point)
    (color : list byte) :
  polygon <> [] -> finite_points polygon = true -> slopes_ok polygon = true ->
  snd (fill_polygon buf size polygon color) = None.
Proof.
  intros Hne Hfin Hs.
  destruct (bounding_box_total polygon size Hne Hfin)
    as ([[[xs xe] ys] ye] & Hbb).
  rewrite fill_polygon_scan, Hbb.
  destruct ((xe <=? xs) || (ye <=? ys)); [reflexivity |].
  now apply scan_completes.
Qed.

(** ** The rectangle fill *)

Lemma fill_rect_scan (buf : buffer) (size : Z) (r : rect) (color : list byte) :
  fill_rect buf size r color
  = match rect_box r size with
    | Raise e => (buf, Some e)
    | Ok (x_start, x_end, y_start, y_end) =>
        (fold_left (fun b y => fill_rect_row size x_start x_end color y b)
                   (range y_start y_end) buf, None)
    end.
Proof.
  destruct r as [[[x1 y1] x2] y2]. unfold fill_rect, rect_box, try, bind.
  destruct (math_floor x1); [| reflexivity].
  destruct (math_ceil x2); [| reflexivity].
  destruct (math_floor y1); [| reflexivity].
  destruct (math_ceil y2); reflexivity.
Qed.

Lemma clamp_bounds (v size : Z) :
  0 <= clamp v 0 size <= Z.max 0 size.
Proof. unfold clamp. lia. Qed.

Lemma rect_box_bounds (r : rect) (size x_start x_end y_start y_end : Z) :
  rect_box r size = Ok (x_start, x_end, y_start, y_end) ->
  0 <= x_start /\ x_end <= Z.max 0 size
  /\ 0 <= y_start /\ y_end <= Z.max 0 size.
Proof.
  destruct r as [[[x1 y1] x2] y2]. unfold rect_box, bind.
  destruct (math_floor x1) as [fx1 |]; [| discriminate].
  destruct (math_ceil x2) as [cx2 |]; [| discriminate].
  destruct (math_floor y1) as [fy1 |]; [| discriminate].
  destruct (math_ceil y2) as [cy2 |]; [| discriminate].
  intros E. inversion E; subst; clear E.
  pose proof (clamp_bounds fx1 size). pose proof (clamp_bounds cx2 size).
  pose proof (clamp_bounds fy1 size). pose proof (clamp_bounds cy2 size).
  pose proof (clamp_bounds (clamp fx1 0 size + 1) size).
  pose proof (clamp_bounds (clamp fy1 0 size + 1) size).
  destruct (clamp cx2 0 size <=? clamp fx1 0 size),
           (clamp cy2 0 size <=? clamp fy1 0 size); lia.
Qed.

Lemma set_pixel_inside (buf : buffer) (size x y : Z) (color : list byte) :
  in_canvas size x y ->
  set_pixel buf size x y color
  = slice_assign buf ((y * size + x) * 4) ((y * size + x) * 4 + 4) color.
Proof.
  intros [Hx Hy]. unfold set_pixel.
  destruct (Z.leb_spec 0 x), (Z.ltb_spec x size),
           (Z.leb_spec 0 y), (Z.ltb_spec y size); simpl; try lia.
  reflexivity.
Qed.

Lemma set_pixel_paints (buf : buffer) (size x y : Z) (color : list byte) :
  canvas_ok size buf -> length color = 4%nat ->
  paints size color (fun x' y' => (x' =? x) && (y' =? y)) buf
         (set_pixel buf size x y color).
Proof.
  intros Hok Hc. split.
  - unfold canvas_ok in *. rewrite length_set_pixel; assumption.
  - intros x' y' Hin. now apply pixel_set_pixel.
Qed.

Lemma fill_rect_row_zseq (size y : Z) (row : list byte) (n : nat) :
  length row = 4%nat -> 0 <= y < size ->
  forall (a : Z) (buf : buffer),
    canvas_ok size buf -> 0 <= a -> a + Z.of_nat n <= size ->
    paints size row
      (fun x' y' => (y' =? y) && between a (a + Z.of_nat n) x') buf
      (fst (fold_left
              (fun (st : buffer * Z) (_ : Z) =>
                 let '(b, off) := st in
                 (slice_assign b off (off + 4) row, off + 4))
              (zseq a n) (buf, (y * size + a) * 4))).
Proof.
  intros Hrow Hy. induction n as [| n IH]; intros a buf Hok Ha Hn; simpl zseq.
  - simpl. eapply paints_ext; [| now apply paints_nothing].
    intros x' y' _. simpl. symmetry. apply not_true_iff_false.
    rewrite andb_true_iff, between_spec. lia.
  - simpl fold_left.
    rewrite <- (set_pixel_inside buf size a y row) by (unfold in_canvas; lia).
    replace ((y * size + a) * 4 + 4) with ((y * size + (a + 1)) * 4) by ring.
    pose proof (set_pixel_paints buf size a y row Hok Hrow) as H1.
    eapply paints_ext; [| eapply paints_trans; [exact H1 |]].
    2: { apply IH; [apply H1 | lia | lia]. }
    intros x' y' _. simpl. apply eq_true_iff_eq.
    rewrite orb_true_iff, !andb_true_iff, !between_spec, !Z.eqb_eq. lia.
Qed.

Lemma fill_rect_row_paints (size x_start x_end y : Z) (row : list byte)
    (buf : buffer) :
  length row = 4%nat -> canvas_ok size buf ->
  0 <= y < size -> 0 <= x_start -> x_end <= size ->
  paints size row (fun x' y' => (y' =? y) && between x_start x_end x') buf
         (fill_rect_row size x_start x_end row y buf).
Proof.
  intros Hrow Hok Hy Ha Hb. unfold fill_rect_row, range.
  destruct (Z.le_gt_cases x_end x_start) as [He | He].
  - replace (Z.to_nat (x_end - x_start)) with 0%nat by lia. simpl.
    eapply paints_ext; [| now apply paints_nothing].
    intros x' y' _. simpl. symmetry. apply not_true_iff_false.
    rewrite andb_true_iff, between_spec. lia.
  - eapply paints_ext;
      [| apply (fill_rect_row_zseq size y row (Z.to_nat (x_end - x_start)));
         try assumption; lia].
    intros x' y' _. simpl. f_equal. f_equal. lia.
Qed.

Lemma fold_left_paints {X : Type} (size : Z) (color : list byte)
    (hit : X -> Z -> Z -> bool) (step : buffer -> X -> buffer) (xs : list X) :
  (forall x b, In x xs -> canvas_ok size b ->
     paints size color (hit x) b (step b x)) ->
  forall b, canvas_ok size b ->
    paints size color (fun x' y' => existsb (fun x => hit x x' y') xs) b
           (fold_left step xs b).
Proof.
  induction xs as [| x xs IH]; intros Hstep b Hok; simpl.
  - now apply paints_nothing.
  - assert (H1 : paints size color (hit x) b (step b x))
      by (apply Hstep; [now left | assumption]).
    eapply paints_trans; [exact H1 |].
    apply IH; [intros; apply Hstep; [now right | assumption] | apply H1].
Qed.

(** What a completed [fill_rect] leaves: the span painted, the rest kept. *)
Lemma fill_rect_paints (buf : buffer) (size : Z) (r : rect) (color : list byte)
    (x_start x_end y_start y_end : Z) :
  canvas_ok size buf -> length color = 4%nat ->
  rect_box r size = Ok (x_start, x_end, y_start, y_end) ->
  snd (fill_rect buf size r color) = None
  /\ paints size color
       (fun x y => between x_start x_end x && between y_start y_end y)
       buf (fst (fill_rect buf size r color)).
Proof.
  intros Hok Hc Hbox. rewrite fill_rect_scan, Hbox. simpl.
  split; [reflexivity |].
  destruct (rect_box_bounds _ _ _ _ _ _ Hbox) as (Hx0 & Hx1 & Hy0 & Hy1).
  eapply paints_ext; cycle 1.
  - apply (fold_left_paints size color
             (fun y x' y' => (y' =? y) && between x_start x_end x'));
      [| exact Hok].
    intros y b Hin Hb. apply In_range in Hin.
    apply fill_rect_row_paints; try assumption; lia.
  - intros x y _. simpl.
    rewrite (existsb_range_at (fun _ => between x_start x_end x)).
    apply andb_comm.
Qed.

Lemma fill_rect_keeps (buf : buffer) (size : Z) (r : rect) (color : list byte) :
  canvas_ok size buf -> length color = 4%nat ->
  canvas_ok size (fst (fill_rect buf size r color)).
Proof.
  intros Hok Hc.
  destruct (rect_box r size) as [[[[xs xe] ys] ye] | e] eqn:Hbox.
  - apply (fill_rect_paints buf size r color xs xe ys ye); assumption.
  - rewrite fill_rect_scan, Hbox. assumption.
Qed.

Lemma fill_polygon_keeps (buf : buffer) (size : Z) (polygon : list point)
    (color : list byte) :
  canvas_ok size buf -> length color = 4%nat ->
  canvas_ok size (fst (fill_polygon buf size polygon color)).
Proof.
  intros Hok Hc. rewrite fill_polygon_scan.
  destruct (bounding_box polygon size) as [[[[xs xe] ys] ye] | e];
    [| assumption].
  destruct ((xe <=? xs) || (ye <=? ys)); [assumption |].
  apply (for_each_keeps (canvas_ok size)); [| assumption].
  intros y b Hb.
  apply (for_each_keeps (canvas_ok size)); [| assumption].
  intros x b0 Hb0. now apply fill_polygon_pixel_keeps.
Qed.

(** C10 (as amended).  On a canvas of [size * size * 4] bytes and with a
    colour of four bytes, [set_pixel], [fill_rect] and [fill_polygon] leave
    a buffer of the same length, whether the call runs to its end or
    raises. *)
Theorem rasterizer_keeps_length
    (buf : buffer) (size : Z) (color : list byte) :
  Z.of_nat (length buf) = size * size * 4 -> length color = 4%nat ->
  (forall x y, Z.of_nat (length (set_pixel buf size x y color)) = size * size * 4)
  /\ (forall r,
        Z.of_nat (length (fst (fill_rect buf size r color))) = size * size * 4)
  /\ (forall polygon,
        Z.of_nat (length (fst (fill_polygon buf size polygon color)))
        = size * size * 4).
Proof.
  intros Hlen Hc. repeat split.
  - intros x y. rewrite length_set_pixel; assumption.
  - intros r. now apply fill_rect_keeps.
  - intros polygon. now apply fill_polygon_keeps.
Qed.

Lemma rasterizer_keeps_length_witness :
  (forall x y,
     Z.of_nat (length (set_pixel (BG ++ BG ++ BG ++ BG) 2 x y FG)) = 2 * 2 * 4)
  /\ (forall r,
        Z.of_nat (length (fst (fill_rect (BG ++ BG ++ BG ++ BG) 2 r FG)))
        = 2 * 2 * 4)
  /\ (forall polygon,
        Z.of_nat (length (fst (fill_polygon (BG ++ BG ++ BG ++ BG) 2 polygon FG)))
        = 2 * 2 * 4).
Proof.
  apply (rasterizer_keeps_length (BG ++ BG ++ BG ++ BG) 2 FG).
  - reflexivity.
  - reflexivity.
Defined.

(** C10 (as stated) fails for a colour that is not four bytes long: each
    write replaces the four bytes of a pixel by the bytes of the colour,
    however many they are.  On a canvas of 16 bytes one pixel set in a
    colour of three bytes leaves 15 bytes, a rectangle of two pixels in
    that colour 14, and a polygon of two pixels in a colour of five bytes
    18. *)
Lemma rasterizer_resizes_canvas :
  length (BG ++ BG ++ BG ++ BG) = 16%nat
  /\ length (set_pixel (BG ++ BG ++ BG ++ BG) 2 0 0 [xff; xff; xff]) = 15%nat
  /\ fill_rect (BG ++ BG ++ BG ++ BG) 2 (0, 0, 2, 1)%float [xff; xff; xff]
     = ([xff; xff; xff; x2e; xff; xff; xff; x4e; x8a; xff; x2e; x4e; x8a; xff],
        None)
  /\ length (fst (fill_rect (BG ++ BG ++ BG ++ BG) 2 (0, 0, 2, 1)%float
                             [xff; xff; xff])) = 14%nat
  /\ snd (fill_polygon (BG ++ BG ++ BG ++ BG) 2
                       [(0, 0); (2, 0); (2, 1); (0, 1)]%float
                       [xff; xff; xff; xff; xff]) = None
  /\ length (fst (fill_polygon (BG ++ BG ++ BG ++ BG) 2
                                [(0, 0); (2, 0); (2, 1); (0, 1)]%float
                                [xff; xff; xff; xff; xff])) = 18%nat.
Proof. repeat split; vm_compute; reflexivity. Qed.

(** C2: the failing input.  On a 2 x 2 canvas the rectangle
    [(-10, -10, -5, -5)] lies wholly above and left of the canvas; both of
    its clamped spans are empty at 0, the widening of an empty span turns
    them into [0, 1), and [fill_rect] paints pixel (0, 0). *)
Lemma fill_rect_off_canvas_paints_corner :
  fill_rect (BG ++ BG ++ BG ++ BG) 2 (-10, -10, -5, -5)%float FG
  = (FG ++ BG ++ BG ++ BG, None).
Proof. vm_compute. reflexivity. Qed.

(** The sibling cases leave the canvas alone: a rectangle right of or below
    the canvas, and a polygon whose clamped bounding box is empty. *)
Lemma fill_rect_right_of_canvas (buf : buffer) (size : Z) (r : rect)
    (color : list byte) (x_end y_start y_end : Z) :
  canvas_ok size buf -> length color = 4%nat -> 0 <= size ->
  rect_box r size = Ok (size, x_end, y_start, y_end) ->
  fill_rect buf size r color = (buf, None).
Proof.
  intros Hok Hc Hs Hbox.
  destruct (rect_box_bounds _ _ _ _ _ _ Hbox) as (_ & Hx & Hy0 & Hy1).
  rewrite fill_rect_scan, Hbox. f_equal.
  assert (Hrow : forall y b,
            fill_rect_row size size x_end color y b = b).
  { intros y b. unfold fill_rect_row. rewrite range_empty by lia. reflexivity. }
  induction (range y_start y_end) as [| y ys IH]; simpl.
  - reflexivity.
  - now rewrite Hrow.
Qed.

Lemma fill_rect_right_of_canvas_witness :
  fill_rect (BG ++ BG ++ BG ++ BG) 2 (5, 0, 7, 2)%float FG
  = (BG ++ BG ++ BG ++ BG, None).
Proof.
  apply (fill_rect_right_of_canvas (BG ++ BG ++ BG ++ BG) 2
           (5, 0, 7, 2)%float FG 2 0 2).
  - reflexivity.
  - reflexivity.
  - lia.
  - reflexivity.
Defined.

Lemma fill_polygon_empty_box (buf : buffer) (size : Z) (polygon : list point)
    (color : list byte) (x_start x_end y_start y_end : Z) :
  bounding_box polygon size = Ok (x_start, x_end, y_start, y_end) ->
  x_end <= x_start \/ y_end <= y_start ->
  fill_polygon buf size polygon color = (buf, None).
Proof.
  intros Hbb H. rewrite fill_polygon_scan, Hbb.
  replace ((x_end <=? x_start) || (y_end <=? y_start)) with true; [reflexivity |].
  symmetry. rewrite orb_true_iff, !Z.leb_le. exact H.
Qed.

(** C3 (as amended).  When the rounded rectangle has no width
    ([ceil(x2) <= floor(x1)]) and its column [floor(x1)] lies on the canvas,
    [fill_rect] paints a span one column wide: column [floor(x1)] over the
    rows of the rectangle takes the colour and no other pixel changes.  The
    same holds for a rectangle of no height and its row [floor(y1)].  In
    either case, when both [floor(x1)] and [floor(y1)] lie on the canvas the
    pixel there is painted. *)
Theorem fill_rect_widens_empty_span
    (buf : buffer) (size : Z) (x1 y1 x2 y2 : float) (color : list byte)
    (fx1 cx2 fy1 cy2 : Z) :
  canvas_ok size buf -> length color = 4%nat ->
  math_floor x1 = Ok fx1 -> math_ceil x2 = Ok cx2 ->
  math_floor y1 = Ok fy1 -> math_ceil y2 = Ok cy2 ->
  exists buf' x_start x_end y_start y_end,
    fill_rect buf size (x1, y1, x2, y2) color = (buf', None)
    /\ rect_box (x1, y1, x2, y2) size = Ok (x_start, x_end, y_start, y_end)
    /\ (cx2 <= fx1 -> 0 <= fx1 < size ->
        x_start = fx1 /\ x_end = fx1 + 1
        /\ (forall x y, in_canvas size x y ->
              pixel buf' size x y
              = if (x =? fx1) && between y_start y_end y
                then color else pixel buf size x y)
        /\ (0 <= fy1 < size -> pixel buf' size fx1 fy1 = color))
    /\ (cy2 <= fy1 -> 0 <= fy1 < size ->
        y_start = fy1 /\ y_end = fy1 + 1
        /\ (forall x y, in_canvas size x y ->
              pixel buf' size x y
              = if between x_start x_end x && (y =? fy1)
                then color else pixel buf size x y)
        /\ (0 <= fx1 < size -> pixel buf' size fx1 fy1 = color)).
Proof.
  intros Hok Hc Hfx Hcx Hfy Hcy.
  destruct (rect_box (x1, y1, x2, y2) size) as [[[[xs xe] ys] ye] | e] eqn:Hbox;
    [| unfold rect_box in Hbox; rewrite Hfx, Hcx, Hfy, Hcy in Hbox; discriminate].
  destruct (fill_rect_paints buf size (x1, y1, x2, y2) color xs xe ys ye
              Hok Hc Hbox) as [Hdone [Hok' Hpx]].
  exists (fst (fill_rect buf size (x1, y1, x2, y2) color)), xs, xe, ys, ye.
  split; [rewrite <- Hdone; apply surjective_pairing |].
  split; [reflexivity |].
  unfold rect_box in Hbox. rewrite Hfx, Hcx, Hfy, Hcy in Hbox. simpl in Hbox.
  injection Hbox as Exs Exe Eys Eye.
  split.
  - intros Hw Hcol.
    assert (Es : xs = fx1) by (unfold clamp in *; lia).
    assert (Ee : xe = fx1 + 1).
    { destruct (Z.leb_spec (clamp cx2 0 size) (clamp fx1 0 size));
        unfold clamp in *; lia. }
    split; [exact Es |]. split; [exact Ee |]. split.
    + intros x y Hin. rewrite Hpx by assumption.
      replace (between xs xe x) with (x =? fx1); [reflexivity |].
      apply eq_true_iff_eq. rewrite Z.eqb_eq, between_spec. lia.
    + intros Hrow. rewrite Hpx by (unfold in_canvas; lia).
      replace (between xs xe fx1 && between ys ye fy1) with true;
        [reflexivity |].
      symmetry. rewrite andb_true_iff, !between_spec.
      destruct (Z.leb_spec (clamp cy2 0 size) (clamp fy1 0 size));
        unfold clamp in *; lia.
  - intros Hh Hrow.
    assert (Es : ys = fy1) by (unfold clamp in *; lia).
    assert (Ee : ye = fy1 + 1).
    { destruct (Z.leb_spec (clamp cy2 0 size) (clamp fy1 0 size));
        unfold clamp in *; lia. }
    split; [exact Es |]. split; [exact Ee |]. split.
    + intros x y Hin. rewrite Hpx by assumption.
      replace (between ys ye y) with (y =? fy1); [reflexivity |].
      apply eq_true_iff_eq. rewrite Z.eqb_eq, between_spec. lia.
    + intros Hcol. rewrite Hpx by (unfold in_canvas; lia).
      replace (between xs xe fx1 && between ys ye fy1) with true;
        [reflexivity |].
      symmetry. rewrite andb_true_iff, !between_spec.
      destruct (Z.leb_spec (clamp cx2 0 size) (clamp fx1 0 size));
        unfold clamp in *; lia.
Qed.

Lemma fill_rect_widens_empty_span_witness :
  exists buf' x_start x_end y_start y_end,
    fill_rect (BG ++ BG ++ BG ++ BG) 2 (1, 1, 1, 1)%float FG = (buf', None)
    /\ rect_box (1, 1, 1, 1)%float 2 = Ok (x_start, x_end, y_start, y_end)
    /\ (x_start = 1 /\ x_end = 1 + 1
        /\ (forall x y, in_canvas 2 x y ->
              pixel buf' 2 x y
              = if (x =? 1) && between y_start y_end y
                then FG else pixel (BG ++ BG ++ BG ++ BG) 2 x y)
        /\ (0 <= 1 < 2 -> pixel buf' 2 1 1 = FG))
    /\ (y_start = 1 /\ y_end = 1 + 1
        /\ (forall x y, in_canvas 2 x y ->
              pixel buf' 2 x y
              = if between x_start x_end x && (y =? 1)
                then FG else pixel (BG ++ BG ++ BG ++ BG) 2 x y)
        /\ (0 <= 1 < 2 -> pixel buf' 2 1 1 = FG)).
Proof.
  destruct (fill_rect_widens_empty_span
              (BG ++ BG ++ BG ++ BG) 2 1 1 1 1 FG 1 1 1 1
              eq_refl eq_refl eq_refl eq_refl eq_refl eq_refl)
    as (buf' & xs & xe & ys & ye & Hrun & Hbox & Hwidth & Hheight).
  exists buf', xs, xe, ys, ye.
  split; [exact Hrun |]. split; [exact Hbox |]. split.
  - apply Hwidth; lia.
  - apply Hheight; lia.
Defined.

(** C3 (as stated) fails.  The rectangle [(6, 0, 6, 2)] has rounded width
    zero; on a 2 x 2 canvas its span starts at the clamped column 2, the
    widened end is clamped back to 2, and nothing is painted. *)
Lemma fill_rect_empty_span_beyond_edge :
  math_floor 6 = Ok 6 /\ math_ceil 6 = Ok 6
  /\ rect_box (6, 0, 6, 2)%float 2 = Ok (2, 2, 0, 2)
  /\ fill_rect (BG ++ BG ++ BG ++ BG) 2 (6, 0, 6, 2)%float FG
     = (BG ++ BG ++ BG ++ BG, None).
Proof. repeat split; vm_compute; reflexivity. Qed.

(** ** Bytes and [struct.pack] *)

Lemma Z_of_byte_of_Z (z : Z) : Z_of_byte (byte_of_Z z) = z mod 256.
Proof.
  unfold Z_of_byte, byte_of_Z.
  assert (H : 0 <= z mod 256 < 256) by (apply Z.mod_pos_bound; lia).
  destruct (Byte.of_N (Z.to_N (z mod 256))) as [b |] eqn:E.
  - apply Byte.to_of_N in E. rewrite E. lia.
  - apply Byte.of_N_None_iff in E. lia.
Qed.

Lemma Z_of_byte_range (b : byte) : 0 <= Z_of_byte b < 256.
Proof.
  unfold Z_of_byte. pose proof (Byte.to_N_bounded b). lia.
Qed.

Lemma byte_of_Z_of_byte (b : byte) : byte_of_Z (Z_of_byte b) = b.
Proof.
  unfold byte_of_Z. rewrite Z.mod_small by apply Z_of_byte_range.
  unfold Z_of_byte. now rewrite N2Z.id, Byte.of_to_N.
Qed.

Lemma le_bytes_4 (v : Z) : le_bytes 4 v = le32 v.
Proof.
  unfold le32. simpl.
  rewrite !Z.shiftr_shiftr by lia. simpl.
  now rewrite !Z.shiftr_div_pow2 by lia.
Qed.

Lemma le_bytes_2 (v : Z) : le_bytes 2 v = le16 v.
Proof.
  unfold le16. simpl. now rewrite !Z.shiftr_div_pow2 by lia.
Qed.

Lemma rev_le32 (v : Z) : rev (le32 v) = be32 v.
Proof. reflexivity. Qed.

Lemma unpack_be_be32 (v : Z) : 0 <= v < 2 ^ 32 -> unpack_be (be32 v) = v.
Proof.
  intros H. unfold unpack_be, be32. simpl.
  rewrite !Z_of_byte_of_Z.
  change (2 ^ 24) with 16777216. change (2 ^ 16) with 65536.
  change (2 ^ 8) with 256. change (2 ^ 32) with 4294967296 in H.
  Z.div_mod_to_equations. lia.
Qed.

Lemma unpack_le_le32 (v : Z) : 0 <= v < 2 ^ 32 -> unpack_le (le32 v) = v.
Proof.
  intros H. unfold unpack_le. rewrite rev_le32. now apply unpack_be_be32.
Qed.

Lemma pack_field_ok (o : byte_order) (f : fmt) (v : Z) :
  0 <= v < 2 ^ (8 * Z.of_nat (fmt_size f)) ->
  pack_field o f v
  = Ok (match o with
        | Little => le_bytes (fmt_size f) v
        | Big => rev (le_bytes (fmt_size f) v)
        end).
Proof.
  intros H. unfold pack_field.
  destruct (Z.leb_spec 0 v), (Z.ltb_spec v (2 ^ (8 * Z.of_nat (fmt_size f))));
    simpl; try lia.
  reflexivity.
Qed.

Lemma pack_I_big (v : Z) :
  0 <= v < 2 ^ 32 -> struct_pack Big [(fI, v)] = Ok (be32 v).
Proof.
  intros H. unfold struct_pack. rewrite pack_field_ok by (simpl; lia).
  change (fmt_size fI) with 4%nat. rewrite le_bytes_4, rev_le32.
  cbn [bind]. now rewrite app_nil_r.
Qed.

(** ** The icon container *)

Lemma pack_field_inv (o : byte_order) (f : fmt) (v : Z) (b : list byte) :
  pack_field o f v = Ok b -> 0 <= v < 2 ^ (8 * Z.of_nat (fmt_size f)).
Proof.
  unfold pack_field.
  destruct (Z.leb_spec 0 v), (Z.ltb_spec v (2 ^ (8 * Z.of_nat (fmt_size f))));
    cbn [andb]; try discriminate.
  intros _. split; assumption.
Qed.

Lemma struct_pack_inv (o : byte_order) (fields : list (fmt * Z))
    (b : list byte) :
  struct_pack o fields = Ok b ->
  Forall (fun fv => 0 <= snd fv < 2 ^ (8 * Z.of_nat (fmt_size (fst fv)))) fields.
Proof.
  revert b. induction fields as [| [f v] rest IH]; intros b; simpl.
  - constructor.
  - destruct (pack_field o f v) as [b1 |] eqn:E1; [| discriminate].
    destruct (struct_pack o rest) as [b2 |] eqn:E2; [| discriminate].
    intros _. constructor; [exact (pack_field_inv o f v b1 E1) | eauto].
Qed.

(** [write_ico] returns for exactly the sizes that are not negative and
    the images shorter than 2^32 bytes. *)
Lemma write_ico_returns (png_data : list byte) (size : Z) (file : list byte) :
  write_ico png_data size = Ok file
  <-> 0 <= size /\ Z.of_nat (length png_data) < 2 ^ 32
      /\ file = ico_header 0 1 1
                ++ ico_entry (if size <? 256 then size else 0)
                             (if size <? 256 then size else 0)
                             0 0 0 0 (Z.of_nat (length png_data)) 22
                ++ png_data.
Proof.
  set (w := if size <? 256 then size else 0).
  assert (Hfwd : 0 <= size -> Z.of_nat (length png_data) < 2 ^ 32 ->
                 write_ico png_data size
                 = Ok (ico_header 0 1 1
                       ++ ico_entry w w 0 0 0 0 (Z.of_nat (length png_data)) 22
                       ++ png_data)).
  { intros Hs Hl.
    assert (Hw : 0 <= w < 256)
      by (subst w; destruct (Z.ltb_spec size 256); lia).
    unfold write_ico, struct_pack. fold w.
    rewrite !pack_field_ok by (simpl; lia).
    cbn [bind fmt_size]. rewrite !le_bytes_4, !le_bytes_2. reflexivity. }
  split.
  - intros H.
    assert (Hr : 0 <= size /\ Z.of_nat (length png_data) < 2 ^ 32).
    { unfold write_ico in H. fold w in H.
      destruct (struct_pack Little [(fH, 0); (fH, 1); (fH, 1)]);
        [| discriminate].
      cbn [bind] in H.
      destruct (struct_pack Little
                  [(fB, w); (fB, w); (fB, 0); (fB, 0); (fH, 0); (fH, 0);
                   (fI, Z.of_nat (length png_data)); (fI, 6 + 16)])
        as [entry |] eqn:E; [| discriminate].
      apply struct_pack_inv in E.
      inversion E as [| ? ? Hw E1]; subst.
      do 5 (inversion E1 as [| ? ? _ E2]; subst; clear E1; rename E2 into E1).
      inversion E1 as [| ? ? Hl _]; subst.
      simpl in Hw, Hl. split; [| lia].
      subst w. destruct (Z.ltb_spec size 256); lia. }
    destruct Hr as [Hs Hl]. split; [assumption |]. split; [assumption |].
    rewrite (Hfwd Hs Hl) in H. now injection H as <-.
  - intros (Hs & Hl & ->). now apply Hfwd.
Qed.

(** C6.  For every image and size, a file [write_ico] writes is a 6-byte
    header (reserved 0, type 1, count 1), one 16-byte directory entry and
    the image bytes; the entry's width and height bytes are the size when
    it is below 256 and 0 otherwise, its image-size field reads back as the
    length of the image and its offset field as 22, and the image stands
    verbatim from byte 22 on.  A file is written when the size is not
    negative and the image is shorter than 2^32 bytes. *)
Theorem write_ico_layout (png_data : list byte) (size : Z) :
  let w := if size <? 256 then size else 0 in
  let header := ico_header 0 1 1 in
  let entry := ico_entry w w 0 0 0 0 (Z.of_nat (length png_data)) 22 in
  (forall file,
     write_ico png_data size = Ok file ->
     file = header ++ entry ++ png_data
     /\ header = [x00; x00; x01; x00; x01; x00]
     /\ length entry = 16%nat
     /\ Z_of_byte (nth 6 file x00) = w /\ Z_of_byte (nth 7 file x00) = w
     /\ unpack_le (slice file 14 18) = Z.of_nat (length png_data)
     /\ unpack_le (slice file 18 22) = 22
     /\ skipn 22 file = png_data)
  /\ (0 <= size -> Z.of_nat (length png_data) < 2 ^ 32 ->
      exists file, write_ico png_data size = Ok file).
Proof.
  intros w header entry. split.
  - intros file H. apply write_ico_returns in H as (Hs & Hl & ->).
    fold w. fold header. fold entry.
    assert (Hw : 0 <= w < 256)
      by (subst w; destruct (Z.ltb_spec size 256); lia).
    split; [reflexivity |]. split; [reflexivity |]. split; [reflexivity |].
    split; [| split; [| split; [| split]]].
    + change (nth 6 (header ++ entry ++ png_data) x00) with (byte_of_Z w).
      rewrite Z_of_byte_of_Z. now apply Z.mod_small.
    + change (nth 7 (header ++ entry ++ png_data) x00) with (byte_of_Z w).
      rewrite Z_of_byte_of_Z. now apply Z.mod_small.
    + rewrite slice_inside by (rewrite ?length_app; simpl; lia).
      change (firstn (Z.to_nat (18 - 14))
                (skipn (Z.to_nat 14) (header ++ entry ++ png_data)))
        with (le32 (Z.of_nat (length png_data))).
      apply unpack_le_le32. lia.
    + rewrite slice_inside by (rewrite ?length_app; simpl; lia).
      reflexivity.
    + reflexivity.
  - intros Hs Hl. eexists. apply write_ico_returns. eauto.
Qed.

Lemma write_ico_layout_witness :
  exists file,
    write_ico png_signature 32 = Ok file
    /\ file = ico_header 0 1 1
              ++ ico_entry 32 32 0 0 0 0 8 22 ++ png_signature
    /\ Z_of_byte (nth 6 file x00) = 32 /\ Z_of_byte (nth 7 file x00) = 32
    /\ unpack_le (slice file 14 18) = 8
    /\ unpack_le (slice file 18 22) = 22
    /\ skipn 22 file = png_signature.
Proof.
  destruct (write_ico_layout png_signature 32) as [Hlayout Hwrites].
  destruct Hwrites as [file Hfile]; [lia | simpl; lia |].
  exists file. split; [exact Hfile |].
  destruct (Hlayout file Hfile) as (H1 & _ & _ & H4 & H5 & H6 & H7 & H8).
  repeat split; assumption.
Defined.

(** ** Scanlines *)

Lemma slice_split (buf : buffer) (lo mid hi : Z) :
  0 <= lo <= mid -> mid <= hi -> hi <= Z.of_nat (length buf) ->
  slice buf lo hi = slice buf lo mid ++ slice buf mid hi.
Proof.
  intros H1 H2 H3. rewrite !slice_inside by lia.
  apply nth_error_ext; intros k.
  rewrite nth_error_app, !nth_error_firstn, !nth_error_skipn.
  rewrite length_firstn, length_skipn.
  replace (Init.Nat.min (Z.to_nat (mid - lo)) (length buf - Z.to_nat lo))
    with (Z.to_nat (mid - lo)) by lia.
  destruct (Nat.ltb_spec k (Z.to_nat (mid - lo))).
  - destruct (Nat.ltb_spec k (Z.to_nat (hi - lo))); try lia.
    reflexivity.
  - destruct (Nat.ltb_spec k (Z.to_nat (hi - lo))),
             (Nat.ltb_spec (k - Z.to_nat (mid - lo)) (Z.to_nat (hi - mid)));
      try lia; [| reflexivity].
    f_equal. lia.
Qed.

Lemma slice_nothing (buf : buffer) (lo : Z) :
  0 <= lo <= Z.of_nat (length buf) -> slice buf lo lo = [].
Proof.
  intros H. rewrite slice_inside by lia.
  now replace (Z.to_nat (lo - lo)) with 0%nat by lia.
Qed.

Lemma slice_all (buf : buffer) : slice buf 0 (Z.of_nat (length buf)) = buf.
Proof.
  rewrite slice_inside by lia. simpl.
  rewrite Z.sub_0_r, Nat2Z.id. apply firstn_all.
Qed.

Lemma length_slice (buf : buffer) (lo hi : Z) :
  0 <= lo <= hi -> hi <= Z.of_nat (length buf) ->
  Z.of_nat (length (slice buf lo hi)) = hi - lo.
Proof.
  intros H1 H2. rewrite slice_inside by lia.
  rewrite length_firstn, length_skipn. lia.
Qed.

(** Consecutive slices of width [w], numbered from [a + k], make up one
    slice. *)
Lemma slices_concat (buf : buffer) (w a : Z) (n : nat) :
  0 <= w -> forall k : Z,
    0 <= a + k -> (a + k + Z.of_nat n) * w <= Z.of_nat (length buf) ->
    flat_map (fun i => slice buf ((a + i) * w) ((a + i) * w + w)) (zseq k n)
    = slice buf ((a + k) * w) ((a + k + Z.of_nat n) * w).
Proof.
  intros Hw. induction n as [| n IH]; intros k Hk Hlen.
  - simpl. rewrite Z.add_0_r. symmetry. apply slice_nothing. nia.
  - simpl flat_map. rewrite IH by nia.
    replace ((a + k) * w + w) with ((a + (k + 1)) * w) by ring.
    replace (a + (k + 1) + Z.of_nat n) with (a + k + Z.of_nat (S n)) by lia.
    symmetry. apply slice_split; nia.
Qed.

Lemma row_slice (buf : buffer) (size y : Z) :
  canvas_ok size buf -> 0 <= y < size ->
  slice buf (y * (size * 4)) (y * (size * 4) + size * 4)
  = row_pixels buf size y.
Proof.
  intros Hok Hy. unfold row_pixels, pixel, range, canvas_ok in *.
  rewrite (slices_concat buf 4 (y * size)) by nia.
  f_equal; lia.
Qed.

Lemma flat_map_ext_In {A B : Type} (f g : A -> list B) (l : list A) :
  (forall a, In a l -> f a = g a) -> flat_map f l = flat_map g l.
Proof.
  induction l as [| a l IH]; intros H; simpl.
  - reflexivity.
  - rewrite (H a) by now left. f_equal. apply IH. intros; apply H; now right.
Qed.

Lemma scanlines_fold (buf : buffer) (stride : Z) (ys : list Z)
    (raw : list byte) :
  fold_left
    (fun raw y =>
       let row_start := y * stride in
       (raw ++ [x00]) ++ slice buf row_start (row_start + stride))
    ys raw
  = raw ++ flat_map (fun y => x00 :: slice buf (y * stride) (y * stride + stride))
                    ys.
Proof.
  revert raw. induction ys as [| y ys IH]; intros raw; simpl.
  - now rewrite app_nil_r.
  - rewrite IH. now rewrite <- !app_assoc.
Qed.

Lemma scanlines_rows (buf : buffer) (size : Z) :
  canvas_ok size buf -> scanlines buf size = filtered_rows buf size.
Proof.
  intros Hok. unfold scanlines, filtered_rows.
  rewrite scanlines_fold. simpl.
  apply flat_map_ext_In. intros y Hy. apply In_range in Hy.
  f_equal. now apply row_slice.
Qed.

(** ** The raster container *)

Lemma length_tuple_mul {A : Type} (t : list A) (n : Z) :
  length (tuple_mul t n) = (length t * Z.to_nat n)%nat.
Proof.
  unfold tuple_mul. induction (Z.to_nat n) as [| k IH]; simpl.
  - lia.
  - rewrite length_app, IH. lia.
Qed.

Lemma blank_canvas_ok (bg : list byte) (size : Z) :
  length bg = 4%nat -> 0 <= size ->
  canvas_ok size (tuple_mul (tuple_mul bg size) size).
Proof.
  intros Hbg Hs. unfold canvas_ok.
  rewrite !length_tuple_mul, Hbg. nia.
Qed.

(** The canvas [make_png] starts from. *)
Lemma tuple_repeat_value {A : Type} (t : list A) (n : Z) (r : list A) :
  tuple_repeat t n = Ok r -> r = tuple_mul t n.
Proof.
  unfold tuple_repeat.
  destruct ((n <? - 2 ^ 63) || (maxsize <? n)); [discriminate |].
  destruct ((n <=? 0) || (Z.of_nat (length t) =? 0)) eqn:E.
  - intros H. injection H as <-. unfold tuple_mul.
    apply orb_true_iff in E. destruct E as [E | E].
    + apply Z.leb_le in E. now replace (Z.to_nat n) with 0%nat by lia.
    + apply Z.eqb_eq in E. destruct t; [| simpl in E; lia].
      induction (Z.to_nat n) as [| k IH]; [reflexivity | exact IH].
  - destruct (maxsize / n <? Z.of_nat (length t)); [discriminate |].
    intros H. now injection H as <-.
Qed.

Lemma new_canvas_value (size : Z) (buf : buffer) :
  new_canvas size = Ok buf -> buf = tuple_mul (tuple_mul BG size) size.
Proof.
  unfold new_canvas.
  destruct (tuple_repeat BG size) as [row | e] eqn:E; [| discriminate].
  cbn [bind]. apply tuple_repeat_value in E. subst row.
  apply tuple_repeat_value.
Qed.

(** The canvas is made exactly when the size fits the index type and the
    number of its bytes does not exceed [sys.maxsize]; a size outside the
    index type gives [OverflowError], too many bytes [MemoryError]. *)
Lemma new_canvas_cases (size : Z) :
  (- 2 ^ 63 <= size /\ (size <= 0 \/ 4 * size * size <= maxsize)
   /\ new_canvas size = Ok (tuple_mul (tuple_mul BG size) size))
  \/ ((size < - 2 ^ 63 \/ maxsize < size)
      /\ new_canvas size = Raise OverflowError)
  \/ (0 < size <= maxsize /\ maxsize < 4 * size * size
      /\ new_canvas size = Raise MemoryError).
Proof.
  unfold new_canvas, tuple_repeat, maxsize.
  destruct (Z.ltb_spec size (- 2 ^ 63)); cbn [orb bind];
    [right; left; split; [lia | reflexivity] |].
  destruct (Z.ltb_spec (2 ^ 63 - 1) size); cbn [orb bind];
    [right; left; split; [lia | reflexivity] |].
  destruct (Z.leb_spec size 0); cbn [orb bind].
  - left. split; [lia |]. split; [now left |].
    unfold tuple_mul. replace (Z.to_nat size) with 0%nat by lia.
    reflexivity.
  - change (Z.of_nat (length BG)) with 4. cbn [Z.eqb].
    destruct (Z.ltb_spec ((2 ^ 63 - 1) / size) 4) as [Hd | Hd];
      cbn [bind].
    + right. right. split; [lia |]. split; [| reflexivity].
      pose proof (Z.mul_succ_div_gt (2 ^ 63 - 1) size ltac:(lia)). nia.
    + cbn [orb].
      rewrite length_tuple_mul.
      change (length BG) with 4%nat.
      replace (Z.of_nat (4 * Z.to_nat size)) with (4 * size) by lia.
      destruct (Z.eqb_spec (4 * size) 0); [lia |].
      destruct (Z.ltb_spec ((2 ^ 63 - 1) / size) (4 * size)) as [Hm | Hm].
      * right. right. split; [lia |]. split; [| reflexivity].
        pose proof (Z.mul_succ_div_gt (2 ^ 63 - 1) size ltac:(lia)). nia.
      * left. split; [lia |]. split; [| reflexivity]. right.
        assert (size * (4 * size) <= 2 ^ 63 - 1); [| lia].
        etransitivity; [| apply (Z.mul_div_le (2 ^ 63 - 1) size); lia].
        apply Z.mul_le_mono_nonneg_l; lia.
Qed.

Lemma then_keeps (P : buffer -> Prop) (c : buffer * outcome)
    (k : buffer -> buffer * outcome) :
  P (fst c) -> (forall b, P b -> P (fst (k b))) -> P (fst (then_ c k)).
Proof.
  intros Hc Hk. destruct c as [b [e |]]; simpl in *; auto.
Qed.

Section ContainerFacts.

Context {L : PyLibs}.

Lemma render_canvas_ok (size : Z) :
  0 <= size -> snd (render_canvas size) = None ->
  canvas_ok size (fst (render_canvas size)).
Proof.
  intros Hs. unfold render_canvas, try.
  destruct (new_canvas size) as [b0 | e] eqn:E; [| discriminate].
  apply new_canvas_value in E. subst b0. intros _.
  repeat (apply (then_keeps (canvas_ok size)); [| intros ? ?]);
    first [ apply fill_polygon_keeps | apply fill_rect_keeps ];
    try reflexivity; try assumption.
  now apply blank_canvas_ok.
Qed.

Lemma chunk_serialized (tag data : list byte) :
  Z.of_nat (length data) < 2 ^ 32 -> chunk tag data = Ok (serialized tag data).
Proof.
  intros H. unfold chunk.
  rewrite pack_I_big by lia. cbn [bind].
  rewrite pack_I_big; [reflexivity |].
  change 0xFFFFFFFF with (Z.ones 32). rewrite Z.land_ones by lia.
  apply Z.mod_pos_bound. lia.
Qed.

Lemma pack_header (size : Z) :
  0 <= size < 2 ^ 32 ->
  struct_pack Big
    [(fI, size); (fI, size); (fB, 8); (fB, 6); (fB, 0); (fB, 0); (fB, 0)]
  = Ok (header_payload size size).
Proof.
  intros H. unfold struct_pack.
  rewrite !pack_field_ok by (simpl; lia).
  cbn [bind fmt_size]. rewrite !le_bytes_4, !rev_le32. reflexivity.
Qed.

Lemma encode_png_layout (buf : buffer) (size : Z) :
  0 <= size < 2 ^ 32 ->
  Z.of_nat (length (zlib_compress (scanlines buf size) 9)) < 2 ^ 32 ->
  encode_png buf size
  = Ok (png_signature
        ++ serialized IHDR (header_payload size size)
        ++ serialized IDAT (zlib_compress (scanlines buf size) 9)
        ++ serialized IEND []).
Proof.
  intros Hs Hc. unfold encode_png.
  rewrite pack_header by assumption. cbn [bind].
  rewrite !chunk_serialized by (assumption || (simpl; lia)). cbn [bind].
  now rewrite <- !app_assoc.
Qed.

Lemma make_png_layout (size : Z) (buf : buffer) :
  0 <= size < 2 ^ 32 ->
  render_canvas size = (buf, None) ->
  Z.of_nat (length (zlib_compress (filtered_rows buf size) 9)) < 2 ^ 32 ->
  canvas_ok size buf
  /\ make_png size
     = Ok (png_signature
           ++ serialized IHDR (header_payload size size)
           ++ serialized IDAT (zlib_compress (filtered_rows buf size) 9)
           ++ serialized IEND []).
Proof.
  intros Hs Hrender Hc.
  assert (Hok : canvas_ok size buf).
  { pose proof (render_canvas_ok size (proj1 Hs)) as H.
    rewrite Hrender in H. exact (H eq_refl). }
  split; [assumption |].
  unfold make_png. rewrite Hrender.
  rewrite <- (scanlines_rows buf size Hok) in *.
  now apply encode_png_layout.
Qed.

End ContainerFacts.

(** ** Reading the container back *)

Lemma firstn_exact {A : Type} (n : nat) (a b : list A) :
  length a = n -> firstn n (a ++ b) = a.
Proof.
  intros <-. rewrite firstn_app, Nat.sub_diag, firstn_all. simpl.
  apply app_nil_r.
Qed.

Lemma skipn_exact {A : Type} (n : nat) (a b : list A) :
  length a = n -> skipn n (a ++ b) = b.
Proof.
  intros <-. rewrite skipn_app, Nat.sub_diag, skipn_all. reflexivity.
Qed.

Lemma bytes_eqb_refl (a : list byte) : bytes_eqb a a = true.
Proof.
  induction a as [| x a IH]; simpl; [reflexivity |].
  rewrite IH, andb_true_r. now apply Byte.byte_dec_lb.
Qed.

Lemma unfilter_rows (stride : nat) (rows : list (list byte)) :
  Forall (fun r => length r = stride) rows ->
  unfilter stride (length rows) (flat_map (fun r => x00 :: r) rows)
  = Some (concat rows).
Proof.
  induction 1 as [| r rows Hr _ IH]; simpl.
  - reflexivity.
  - rewrite length_app, Hr.
    destruct (Nat.leb_spec stride (stride + length (flat_map (fun r0 => x00 :: r0) rows)));
      [| lia].
    rewrite (firstn_exact stride), (skipn_exact stride) by assumption.
    now rewrite IH.
Qed.

Lemma length_row_pixels (buf : buffer) (size y : Z) :
  canvas_ok size buf -> 0 <= y < size ->
  length (row_pixels buf size y) = Z.to_nat (4 * size).
Proof.
  intros Hok Hy. rewrite <- row_slice by assumption.
  unfold canvas_ok in Hok.
  apply Nat2Z.inj. rewrite length_slice by nia. lia.
Qed.

Lemma rows_concat (buf : buffer) (size : Z) :
  canvas_ok size buf -> 0 <= size ->
  concat (map (row_pixels buf size) (range 0 size)) = buf.
Proof.
  intros Hok Hs. rewrite <- flat_map_concat_map.
  rewrite (flat_map_ext_In _
             (fun y => slice buf ((0 + y) * (size * 4))
                             ((0 + y) * (size * 4) + size * 4))).
  - unfold range, canvas_ok in *.
    rewrite slices_concat by nia.
    replace ((0 + 0) * (size * 4)) with 0 by lia.
    replace ((0 + 0 + Z.of_nat (Z.to_nat (size - 0))) * (size * 4))
      with (Z.of_nat (length buf)) by nia.
    apply slice_all.
  - intros y Hy. apply In_range in Hy. simpl.
    symmetry. now apply row_slice.
Qed.

Lemma filtered_rows_map (buf : buffer) (size : Z) :
  filtered_rows buf size
  = flat_map (fun r => x00 :: r) (map (row_pixels buf size) (range 0 size)).
Proof.
  unfold filtered_rows.
  induction (range 0 size) as [| y ys IHys]; cbn [flat_map map].
  - reflexivity.
  - now rewrite IHys.
Qed.

Lemma unfilter_filtered_rows (buf : buffer) (size : Z) :
  canvas_ok size buf -> 0 <= size ->
  unfilter (Z.to_nat (4 * size)) (Z.to_nat size) (filtered_rows buf size)
  = Some buf.
Proof.
  intros Hok Hs.
  pose proof (unfilter_rows (Z.to_nat (4 * size))
                (map (row_pixels buf size) (range 0 size))) as H.
  rewrite length_map in H.
  replace (length (range 0 size)) with (Z.to_nat size) in H.
  - rewrite filtered_rows_map.
    rewrite H; [now rewrite rows_concat |].
    apply Forall_forall. intros r Hr. apply in_map_iff in Hr as (y & <- & Hy).
    apply In_range in Hy. now apply length_row_pixels.
  - unfold range. generalize 0 at 1.
    replace (size - 0) with size by lia.
    induction (Z.to_nat size) as [| n IH]; intros a; simpl; [reflexivity |].
    now rewrite <- IH.
Qed.

Section DecoderFacts.

Context {L : PyLibs}.

Lemma length_be32 (v : Z) : length (be32 v) = 4%nat.
Proof. reflexivity. Qed.

Lemma read_chunk_serialized (tag data rest : list byte) :
  length tag = 4%nat -> Z.of_nat (length data) < 2 ^ 32 ->
  read_chunk (serialized tag data ++ rest) = Some (tag, data, rest).
Proof.
  intros Htag Hdata. unfold read_chunk, serialized.
  set (n := Z.of_nat (length data)).
  set (crc := Z.land (zlib_crc32 (tag ++ data)) 0xFFFFFFFF).
  assert (Hcrc : 0 <= crc < 2 ^ 32).
  { subst crc. change 0xFFFFFFFF with (Z.ones 32).
    rewrite Z.land_ones by lia. apply Z.mod_pos_bound. lia. }
  rewrite <- !app_assoc.
  rewrite (firstn_exact 4 (be32 n)) by reflexivity.
  rewrite unpack_be_be32 by lia. subst n. rewrite Nat2Z.id.
  rewrite (skipn_exact 4 (be32 _)) by reflexivity.
  rewrite (firstn_exact 4 tag) by assumption.
  replace (skipn 8 (be32 (Z.of_nat (length data)) ++ tag ++ data ++ be32 crc ++ rest))
    with (data ++ be32 crc ++ rest)
    by (rewrite (app_assoc (be32 _) tag), (skipn_exact 8);
        [reflexivity | rewrite length_app, Htag; reflexivity]).
  rewrite (firstn_exact (length data)) by reflexivity.
  replace (skipn (8 + length data)
             (be32 (Z.of_nat (length data)) ++ tag ++ data ++ be32 crc ++ rest))
    with (be32 crc ++ rest)
    by (rewrite (app_assoc tag data), (app_assoc (be32 _) (tag ++ data)),
                (skipn_exact (8 + length data));
        [reflexivity | rewrite !length_app, Htag; reflexivity]).
  rewrite (firstn_exact 4 (be32 crc)) by reflexivity.
  rewrite unpack_be_be32 by assumption.
  replace (skipn (12 + length data)
             (be32 (Z.of_nat (length data)) ++ tag ++ data ++ be32 crc ++ rest))
    with rest
    by (rewrite (app_assoc data), (app_assoc tag), (app_assoc (be32 _)),
                (skipn_exact (12 + length data));
        [reflexivity | rewrite !length_app, Htag, !length_be32; lia]).
  rewrite Z.eqb_refl, andb_true_r.
  destruct (Nat.leb_spec (12 + length data)
              (length (be32 (Z.of_nat (length data)) ++ tag ++ data
                       ++ be32 crc ++ rest))) as [_ | H];
    [reflexivity |].
  rewrite !length_app, Htag, !length_be32 in H. lia.
Qed.

(** Decoding what [make_png] lays out gives back the size and the canvas. *)
Lemma decode_png_layout (size : Z) (buf compressed : list byte) :
  0 <= size < 2 ^ 32 -> canvas_ok size buf ->
  Z.of_nat (length compressed) < 2 ^ 32 ->
  zlib_decompress compressed = Some (filtered_rows buf size) ->
  decode_png (png_signature
              ++ serialized IHDR (header_payload size size)
              ++ serialized IDAT compressed
              ++ serialized IEND [])
  = Some {| width := size; height := size; bit_depth := 8; color_type := 6;
            pixels := buf |}.
Proof.
  intros Hs Hok Hc Hz. unfold decode_png.
  rewrite (firstn_exact 8 png_signature) by reflexivity.
  rewrite bytes_eqb_refl.
  rewrite (skipn_exact 8 png_signature) by reflexivity.
  rewrite length_app. change (length png_signature) with 8%nat.
  change (8 + ?n)%nat with (S (S (S (5 + n)))).
  cbn [read_chunks].
  rewrite read_chunk_serialized by (reflexivity || (simpl; lia)).
  change (bytes_eqb IHDR IEND) with false. cbn iota.
  rewrite read_chunk_serialized by (reflexivity || assumption).
  change (bytes_eqb IDAT IEND) with false. cbn iota.
  rewrite <- (app_nil_r (serialized IEND [])).
  rewrite read_chunk_serialized by (reflexivity || (simpl; lia)).
  rewrite bytes_eqb_refl. cbn [option_map].
  rewrite bytes_eqb_refl.
  unfold header_payload.
  rewrite (firstn_exact 4 (be32 size)) by reflexivity.
  rewrite (skipn_exact 4 (be32 size)) by reflexivity.
  rewrite (firstn_exact 4 (be32 size)) by reflexivity.
  rewrite (app_assoc (be32 size)), (skipn_exact 8) by reflexivity.
  rewrite bytes_eqb_refl. cbn [andb].
  rewrite unpack_be_be32 by assumption.
  unfold idat_payload. cbn [filter fst snd map concat].
  change (bytes_eqb IDAT IDAT) with true. change (bytes_eqb IEND IDAT) with false.
  cbn [filter fst snd map concat]. rewrite app_nil_r, Hz.
  rewrite unfilter_filtered_rows by (assumption || lia).
  reflexivity.
Qed.

End DecoderFacts.

Section ReturnedContainer.

Context {L : PyLibs}.

Lemma chunk_inv (tag data c : list byte) :
  chunk tag data = Ok c -> Z.of_nat (length data) < 2 ^ 32.
Proof.
  unfold chunk.
  destruct (struct_pack Big [(fI, Z.of_nat (length data))]) as [len |] eqn:E;
    [| discriminate].
  intros _. apply struct_pack_inv in E.
  inversion E as [| ? ? H _]; subst. simpl in H. lia.
Qed.

Lemma encode_png_inv (buf : buffer) (size : Z) (png : list byte) :
  encode_png buf size = Ok png ->
  0 <= size < 2 ^ 32
  /\ Z.of_nat (length (zlib_compress (scanlines buf size) 9)) < 2 ^ 32.
Proof.
  unfold encode_png.
  destruct (struct_pack Big
              [(fI, size); (fI, size); (fB, 8); (fB, 6); (fB, 0); (fB, 0);
               (fB, 0)]) as [ihdr |] eqn:E; [| discriminate].
  cbn [bind].
  destruct (chunk IHDR ihdr) as [c1 |]; [| discriminate]. cbn [bind].
  destruct (chunk IDAT (zlib_compress (scanlines buf size) 9)) as [c2 |] eqn:E2;
    [| discriminate].
  intros _. split.
  - apply struct_pack_inv in E. inversion E as [| ? ? H _]; subst.
    simpl in H. lia.
  - exact (chunk_inv _ _ _ E2).
Qed.

(** [make_png] returns exactly when the rasterizer ran to its end, the size
    fits the header's 32-bit fields and the length of the compressed data
    fits a 32-bit field; what it returns is the signature and the three
    chunks. *)
Lemma make_png_returns (size : Z) (png : list byte) :
  make_png size = Ok png
  <-> exists buf,
        render_canvas size = (buf, None)
        /\ 0 <= size < 2 ^ 32
        /\ Z.of_nat (length (zlib_compress (filtered_rows buf size) 9)) < 2 ^ 32
        /\ png = png_signature
                 ++ serialized IHDR (header_payload size size)
                 ++ serialized IDAT (zlib_compress (filtered_rows buf size) 9)
                 ++ serialized IEND [].
Proof.
  split.
  - intros H. unfold make_png in H.
    destruct (render_canvas size) as [buf [e |]] eqn:Hrender; [discriminate |].
    exists buf. split; [reflexivity |].
    destruct (encode_png_inv buf size png H) as [Hs Hc].
    assert (Hok : canvas_ok size buf).
    { pose proof (render_canvas_ok size (proj1 Hs)) as Hr.
      rewrite Hrender in Hr. exact (Hr eq_refl). }
    rewrite (scanlines_rows buf size Hok) in Hc.
    split; [assumption |]. split; [assumption |].
    destruct (make_png_layout size buf Hs Hrender Hc) as [_ E].
    unfold make_png in E. rewrite Hrender in E. rewrite E in H.
    now injection H as <-.
  - intros (buf & Hrender & Hs & Hc & ->).
    exact (proj2 (make_png_layout size buf Hs Hrender Hc)).
Qed.


(** C9.  For every size, the bytes [make_png] returns begin with the eight
    signature bytes 0x89 'P' 'N' 'G' 0x0D 0x0A 0x1A 0x0A, and the header
    chunk follows them directly. *)
Theorem make_png_signature (size : Z) (png : list byte) :
  make_png size = Ok png ->
  firstn 8 png = [x89; x50; x4e; x47; x0d; x0a; x1a; x0a]
  /\ exists rest,
       png = png_signature ++ serialized IHDR (header_payload size size) ++ rest.
Proof.
  intros H. apply make_png_returns in H as (buf & _ & _ & _ & ->).
  split; [reflexivity |]. eexists. reflexivity.
Qed.

(** C5.  For every size, so for each of 32, 192 and 512, and a
    [zlib.decompress] that inverts [zlib.compress] at level 9, the bytes
    [make_png] returns decode to a raster of that width and height, bit
    depth 8 and colour type 6 whose pixel bytes are the canvas the
    rasterizer left. *)
Theorem make_png_round_trip (size : Z) (png : list byte) :
  (forall data, zlib_decompress (zlib_compress data 9) = Some data) ->
  make_png size = Ok png ->
  exists buf,
    render_canvas size = (buf, None)
    /\ decode_png png
       = Some {| width := size; height := size; bit_depth := 8;
                 color_type := 6; pixels := buf |}.
Proof.
  intros Hz H.
  apply make_png_returns in H as (buf & Hrender & Hs & Hc & ->).
  exists buf. split; [assumption |].
  apply decode_png_layout; try assumption; [| apply Hz].
  pose proof (render_canvas_ok size (proj1 Hs)) as Hok.
  rewrite Hrender in Hok. exact (Hok eq_refl).
Qed.

End ReturnedContainer.

Lemma reference_make_png_32 :
  exists png, @make_png reference_libs 32 = Ok png.
Proof. vm_compute. eexists. reflexivity. Qed.


Lemma make_png_signature_witness :
  exists png,
    @make_png reference_libs 32 = Ok png
    /\ firstn 8 png = [x89; x50; x4e; x47; x0d; x0a; x1a; x0a]
    /\ exists rest,
         png = png_signature
               ++ @serialized reference_libs IHDR (header_payload 32 32)
               ++ rest.
Proof.
  destruct reference_make_png_32 as [png H].
  exists png. split; [exact H |].
  exact (@make_png_signature reference_libs 32 png H).
Defined.

Lemma make_png_round_trip_witness :
  exists png buf,
    @make_png reference_libs 32 = Ok png
    /\ @render_canvas reference_libs 32 = (buf, None)
    /\ @decode_png reference_libs png
       = Some {| width := 32; height := 32; bit_depth := 8;
                 color_type := 6; pixels := buf |}.
Proof.
  destruct reference_make_png_32 as [png H].
  destruct (@make_png_round_trip reference_libs 32 png) as (buf & Hr & Hd).
  - reflexivity.
  - exact H.
  - exists png, buf. repeat split; assumption.
Defined.

Section ArcFacts.

Context {L : PyLibs}.

(** ** Arcs *)

Lemma nth_error_zseq (n : nat) (a : Z) (i : nat) :
  (i < n)%nat -> nth_error (zseq a n) i = Some (a + Z.of_nat i).
Proof.
  revert a i. induction n as [| n IH]; intros a i Hi; [lia |].
  destruct i as [| i]; simpl.
  - f_equal. lia.
  - rewrite IH by lia. f_equal. lia.
Qed.

Lemma length_zseq (n : nat) (a : Z) : length (zseq a n) = n.
Proof.
  revert a. induction n as [| n IH]; intros a; simpl; [reflexivity |].
  now rewrite IH.
Qed.

(** The point for an index at which nothing raises, and the errors of the
    others. *)
Lemma arc_point_cases (cx cy rx ry start end_ : float) (steps i : Z) :
  let t := (start + (end_ - start) * float_of_int i
                    / float_of_int steps)%float in
  if arc_defined start end_ steps i
  then arc_point cx cy rx ry start end_ steps i
       = Ok (cx + libm_cos t * rx, cy + libm_sin t * ry)%float
  else exists e, arc_point cx cy rx ry start end_ steps i = Raise e
                 /\ (e = OverflowError \/ e = ValueError).
Proof.
  intros t.
  unfold arc_defined, arc_point, int_to_float, math_cos, math_sin, math_1.
  cbv zeta. fold t.
  destruct (PrimFloat.is_infinity (float_of_int i));
    cbn [defined andb bind]; [eexists; split; [reflexivity | auto] |].
  destruct (PrimFloat.is_infinity (float_of_int steps));
    cbn [defined andb bind]; [eexists; split; [reflexivity | auto] |].
  fold t.
  destruct (PrimFloat.is_nan (libm_cos t) && negb (PrimFloat.is_nan t));
    cbn [defined andb bind]; [eexists; split; [reflexivity | auto] |].
  destruct (PrimFloat.is_infinity (libm_cos t) && PrimFloat.is_finite t);
    cbn [defined andb bind]; [eexists; split; [reflexivity | auto] |].
  destruct (PrimFloat.is_nan (libm_sin t) && negb (PrimFloat.is_nan t));
    cbn [defined andb bind]; [eexists; split; [reflexivity | auto] |].
  destruct (PrimFloat.is_infinity (libm_sin t) && PrimFloat.is_finite t);
    cbn [defined andb bind]; [eexists; split; [reflexivity | auto] |].
  reflexivity.
Qed.

(** A traversal of a generator suspended before the indices [pre ++ rest]
    gives the points of [pre] when nothing raises there, and then stops at
    the end of the indices or at the first index that raises. *)
Lemma traverse_suspended (cx cy rx ry start end_ : float) (steps : Z)
    (pre rest : list Z) (calls : nat) :
  (length (pre ++ rest) < calls)%nat ->
  forallb (arc_defined start end_ steps) pre = true ->
  match rest with
  | [] => True
  | k :: _ => arc_defined start end_ steps k = false
  end ->
  exists o,
    traverse calls (Suspended cx cy rx ry start end_ steps (pre ++ rest))
    = (Exhausted,
       (map (fun i =>
               let t := (start + (end_ - start) * float_of_int i
                                 / float_of_int steps)%float in
               (cx + libm_cos t * rx, cy + libm_sin t * ry)%float) pre,
        o))
    /\ match rest with
       | [] => o = None
       | _ :: _ => exists e, o = Some e
                             /\ (e = OverflowError \/ e = ValueError)
       end.
Proof.
  revert calls. induction pre as [| i pre IH]; intros calls Hc Hpre Hrest.
  - destruct calls as [| calls]; [simpl in Hc; lia |].
    destruct rest as [| k rest]; cbn [app traverse next arc_resume map].
    + exists None. split; reflexivity.
    + pose proof (arc_point_cases cx cy rx ry start end_ steps k) as Hk.
      cbv zeta in Hk. rewrite Hrest in Hk. destruct Hk as (e & -> & He).
      exists (Some e). split; [reflexivity |]. now exists e.
  - destruct calls as [| calls]; [simpl in Hc; lia |].
    cbn [forallb] in Hpre. apply andb_prop in Hpre. destruct Hpre as [Hi Hpre].
    pose proof (arc_point_cases cx cy rx ry start end_ steps i) as Hp.
    cbv zeta in Hp. rewrite Hi in Hp.
    cbn [app traverse next arc_resume map]. rewrite Hp.
    destruct (IH calls) as (o & E & Ho);
      [simpl in Hc; lia | assumption | assumption |].
    rewrite E. exists o. split; [reflexivity | exact Ho].
Qed.

(** Whatever raises, a traversal leaves the generator exhausted. *)
Lemma traverse_exhausts (cx cy rx ry start end_ : float) (steps : Z)
    (rest : list Z) (calls : nat) :
  (length rest < calls)%nat ->
  fst (traverse calls (Suspended cx cy rx ry start end_ steps rest))
  = Exhausted.
Proof.
  revert calls. induction rest as [| i rest IH]; intros calls Hc;
    (destruct calls as [| calls]; [simpl in Hc; lia |]);
    cbn [traverse next arc_resume].
  - reflexivity.
  - destruct (arc_point cx cy rx ry start end_ steps i); [| reflexivity].
    specialize (IH calls ltac:(simpl in Hc; lia)).
    destruct (traverse calls (Suspended cx cy rx ry start end_ steps rest))
      as [g' [ps o]].
    exact IH.
Qed.

Lemma traverse_created (cx cy rx ry start_deg end_deg : float) (steps : Z)
    (calls : nat) :
  (0 < calls)%nat ->
  traverse calls (Created cx cy rx ry start_deg end_deg steps)
  = traverse calls
      (Suspended cx cy rx ry (math_radians start_deg) (math_radians end_deg)
                 (Z.max 2 steps) (range 0 (Z.max 2 steps + 1))).
Proof.
  intros Hc. destruct calls as [| calls]; [lia |].
  cbn [traverse next].
  replace (if steps <? 2 then 2 else steps) with (Z.max 2 steps)
    by (destruct (Z.ltb_spec steps 2); lia).
  reflexivity.
Qed.

Lemma zseq_app (a : Z) (m r : nat) :
  zseq a (m + r) = zseq a m ++ zseq (a + Z.of_nat m) r.
Proof.
  revert a. induction m as [| m IH]; intros a.
  - simpl. now rewrite Z.add_0_r.
  - cbn [Nat.add zseq app]. rewrite IH. do 3 f_equal. lia.
Qed.

Lemma range_split (n k : Z) :
  0 <= k <= n -> range 0 n = range 0 k ++ range k n.
Proof.
  intros Hk. unfold range.
  replace (Z.to_nat (n - 0)) with (Z.to_nat (k - 0) + Z.to_nat (n - k))%nat
    by lia.
  rewrite zseq_app. do 2 f_equal. lia.
Qed.

(** C7 (as amended).  With [n] the step count, raised to 2 when it is
    smaller: a traversal of the generator ends and leaves it exhausted,
    and a traversal of an exhausted generator gives no point; when no
    index [i = 0 .. n] raises (the conversion of [i] and [n] to floats
    does not overflow and [math.cos] and [math.sin] are defined at [t_i]),
    the traversal gives the [n + 1] points
    [(cx + cos(t_i) * rx, cy + sin(t_i) * ry)] with
    [t_i = start + (end - start) * i / n], [start] and [end] the angles
    converted to radians and the radii independent; and when [k] is the
    first index that raises, it gives the first [k] of these points and
    then raises [OverflowError] or [ValueError]. *)
Theorem arc_points_samples
    (cx cy rx ry start_deg end_deg : float) (steps : Z) :
  let n := Z.max 2 steps in
  let start := math_radians start_deg in
  let end_ := math_radians end_deg in
  let sample i :=
    (let t := (start + (end_ - start) * float_of_int i
                       / float_of_int n)%float in
     (cx + libm_cos t * rx, cy + libm_sin t * ry)%float) in
  let g := arc_points cx cy rx ry start_deg end_deg steps in
  fst (py_list g) = Exhausted
  /\ py_list Exhausted = (Exhausted, Ok [])
  /\ ((forall i, 0 <= i <= n -> arc_defined start end_ n i = true) ->
      exists pts,
        snd (py_list g) = Ok pts
        /\ length pts = Z.to_nat (n + 1)
        /\ forall i, 0 <= i <= n ->
             nth (Z.to_nat i) pts (0, 0)%float = sample i)
  /\ (forall k,
        0 <= k <= n ->
        (forall i, 0 <= i < k -> arc_defined start end_ n i = true) ->
        arc_defined start end_ n k = false ->
        exists e,
          snd (py_list g) = Raise e
          /\ (e = OverflowError \/ e = ValueError)
          /\ length (items g) = Z.to_nat k
          /\ forall i, 0 <= i < k ->
               nth (Z.to_nat i) (items g) (0, 0)%float = sample i).
Proof.
  intros n start end_ sample g.
  assert (Hn : 0 <= n) by (subst n; lia).
  assert (Hpending : pending g = S (Z.to_nat (n + 1))).
  { unfold g, arc_points, pending.
    replace (if steps <? 2 then 2 else steps) with n
      by (subst n; destruct (Z.ltb_spec steps 2); lia).
    reflexivity. }
  assert (Hcreated : traverse (pending g) g
            = traverse (pending g)
                (Suspended cx cy rx ry start end_ n (range 0 (n + 1)))).
  { unfold g, arc_points at 2. rewrite traverse_created; [reflexivity |].
    fold (arc_points cx cy rx ry start_deg end_deg steps). fold g.
    rewrite Hpending. lia. }
  assert (Hrun : forall pre rest,
            range 0 (n + 1) = pre ++ rest ->
            forallb (arc_defined start end_ n) pre = true ->
            match rest with
            | [] => True
            | k :: _ => arc_defined start end_ n k = false
            end ->
            exists o,
              traverse (pending g) g = (Exhausted, (map sample pre, o))
              /\ match rest with
                 | [] => o = None
                 | _ :: _ => exists e, o = Some e
                                       /\ (e = OverflowError \/ e = ValueError)
                 end).
  { intros pre rest Hsplit Hpre Hrest.
    rewrite Hcreated, Hsplit.
    apply traverse_suspended; [| assumption | assumption].
    rewrite <- Hsplit, Hpending. unfold range. rewrite length_zseq. lia. }
  assert (Hnth : forall k i, 0 <= i < k ->
            nth (Z.to_nat i) (map sample (range 0 k)) (0, 0)%float = sample i).
  { intros k i Hi. apply nth_error_nth.
    rewrite nth_error_map. unfold range.
    rewrite nth_error_zseq by lia.
    rewrite Z.add_0_l, Z2Nat.id by lia. reflexivity. }
  assert (Hlen : forall k, length (map sample (range 0 k)) = Z.to_nat k).
  { intros k. rewrite length_map. unfold range. rewrite length_zseq.
    f_equal. lia. }
  split.
  { unfold py_list.
    pose proof (traverse_exhausts cx cy rx ry start end_ n (range 0 (n + 1))
                  (pending g)) as He.
    rewrite <- Hcreated in He.
    destruct (traverse (pending g) g) as [g' [ps o]].
    apply He. rewrite Hpending. unfold range. rewrite length_zseq. lia. }
  split; [reflexivity |].
  split.
  - intros Hall.
    destruct (Hrun (range 0 (n + 1)) []) as (o & E & ->).
    + now rewrite app_nil_r.
    + apply forallb_forall. intros i Hi. apply In_range in Hi.
      apply Hall. lia.
    + exact I.
    + exists (map sample (range 0 (n + 1))).
      split; [unfold py_list; now rewrite E |].
      split; [apply Hlen |].
      intros i Hi. apply Hnth. lia.
  - intros k Hk Hbefore Hat.
    destruct (Hrun (range 0 k) (range k (n + 1))) as (o & E & Ho).
    + apply range_split. lia.
    + apply forallb_forall. intros i Hi. apply In_range in Hi.
      now apply Hbefore.
    + unfold range. destruct (Z.to_nat (n + 1 - k)) eqn:En; [exact I |].
      exact Hat.
    + assert (Hne : exists e, o = Some e
                              /\ (e = OverflowError \/ e = ValueError)).
      { unfold range in Ho.
        destruct (Z.to_nat (n + 1 - k)) eqn:En; [lia | exact Ho]. }
      destruct Hne as (e & -> & He).
      exists e. split; [unfold py_list; now rewrite E |].
      split; [assumption |].
      unfold items. rewrite E. cbn [fst snd].
      split; [apply Hlen | apply Hnth].
Qed.

(** When the module has been loaded, its two lists hold the points
    [list(arc_points(...))] returned. *)
Lemma module_lists_loaded (outer hole : list point) :
  snd (py_list (arc_points 390 196 96 88 (-90) 90 48)) = Ok outer ->
  snd (py_list (arc_points 384 194 70 62 (-90) 90 40)) = Ok hole ->
  P_OUTER = [ (316, 404); (316, 116); (372, 116) ]%float ++ outer
            ++ [ (362, 284); (362, 404); (316, 404) ]%float
  /\ P_HOLE = ([ (336, 164); (372, 164) ]%float ++ hole
               ++ [ (372, 226)%float ]) ++ [ (336, 226)%float ].
Proof.
  unfold P_OUTER, P_HOLE, items, py_list.
  destruct (traverse _ (arc_points 390 196 96 88 (-90) 90 48))
    as [g1 [ps1 [e1 |]]]; cbn [fst snd]; [discriminate |].
  destruct (traverse _ (arc_points 384 194 70 62 (-90) 90 40))
    as [g2 [ps2 [e2 |]]]; cbn [fst snd]; [discriminate |].
  intros H1 H2. injection H1 as <-. injection H2 as <-. now split.
Qed.

End ArcFacts.

Lemma arc_points_samples_witness :
  exists pts,
    snd (@py_list reference_libs (arc_points 0 0 2 1 0 90 4)) = Ok pts
    /\ length pts = Z.to_nat (4 + 1)
    /\ forall i, 0 <= i <= 4 ->
         nth (Z.to_nat i) pts (0, 0)%float
         = (let t := (@math_radians reference_libs 0
                      + (@math_radians reference_libs 90
                         - @math_radians reference_libs 0)
                        * float_of_int i / float_of_int 4)%float in
            (0 + @libm_cos reference_libs t * 2,
             0 + @libm_sin reference_libs t * 1)%float).
Proof.
  destruct (@arc_points_samples reference_libs 0 0 2 1 0 90 4)
    as (_ & _ & H & _).
  apply H. intros i Hi.
  assert (Hin : In i (range 0 5)) by (apply In_range; lia).
  vm_compute in Hin.
  repeat (destruct Hin as [<- | Hin]; [vm_compute; reflexivity |]).
  destruct Hin.
Defined.

(** C7 (as stated) fails.  For a step count of 1 the generator gives three
    points, at the start, the middle and the end of the arc, and not the
    two points [i = 0 .. 1].  The generator a traversal has exhausted gives
    no point when it is traversed again.  For an end angle that is an
    infinity the generator gives one point and then raises, because
    [math.cos] is not defined at an infinite angle. *)
Lemma arc_points_one_step :
  (exists g' pts,
     @py_list reference_libs (arc_points 0 0 1 1 0 90 1) = (g', Ok pts)
     /\ length pts = 3%nat /\ 3%nat <> Z.to_nat (1 + 1)
     /\ @py_list reference_libs g' = (g', Ok []))
  /\ @py_list reference_libs (arc_points 0 0 1 1 0 infinity 2)
     = (Exhausted, Raise ValueError)
  /\ length (@items reference_libs (arc_points 0 0 1 1 0 infinity 2)) = 1%nat.
Proof.
  split; [| split; vm_compute; reflexivity].
  eexists. eexists. split; [vm_compute; reflexivity |].
  split; [reflexivity |]. split; [discriminate | reflexivity].
Qed.

(** ** Invocations on the store *)

Lemma nth_error_old (s l : store) (id : nat) (o : object) :
  nth_error s id = Some o -> nth_error (s ++ l) id = Some o.
Proof.
  intros H. rewrite nth_error_app1; [assumption |].
  apply nth_error_Some. congruence.
Qed.

Lemma nth_error_new (s l : store) (k : nat) :
  nth_error (s ++ l) (length s + k) = nth_error l k.
Proof.
  rewrite nth_error_app2 by lia. f_equal. lia.
Qed.

Lemma update_new (s l : store) (k : nat) (o : object) :
  update (length s + k) o (s ++ l) = s ++ update k o l.
Proof.
  unfold update. rewrite length_app.
  destruct (Nat.ltb_spec k (length l)) as [Hk | Hk];
    destruct (Nat.ltb_spec (length s + k) (length s + length l)); try lia;
    [| reflexivity].
  rewrite firstn_app, firstn_all2 by lia.
  replace (length s + k - length s)%nat with k by lia.
  replace (S (length s + k)) with (length s + S k)%nat by lia.
  rewrite skipn_app, skipn_all2 by lia.
  replace (length s + S k - length s)%nat with (S k) by lia.
  now rewrite <- app_assoc.
Qed.

Lemma alloc_new (s l : store) (o : object) :
  alloc o (s ++ l) = (Ok (length s + length l)%nat, s ++ (l ++ [o])).
Proof. unfold alloc. now rewrite length_app, app_assoc. Qed.

Lemma scale_points_st_new (s l : store) (id : nat) (pts : list point)
    (scale : float) :
  nth_error s id = Some (PointList pts) ->
  scale_points_st id scale (s ++ l)
  = (Ok (length s + length l)%nat,
     s ++ (l ++ [PointList (scale_points pts scale)])).
Proof.
  intros H. unfold scale_points_st, bindS, read_points.
  rewrite (nth_error_old s l id _ H). apply alloc_new.
Qed.

Lemma fill_polygon_st_new (s l : store) (kb kp : nat) (size : Z)
    (b : buffer) (p : list point) (color : list byte) :
  nth_error l kb = Some (Bytearray b) ->
  nth_error l kp = Some (PointList p) ->
  fill_polygon_st (length s + kb) size (length s + kp) color (s ++ l)
  = (raised (snd (fill_polygon b size p color)),
     s ++ update kb (Bytearray (fst (fill_polygon b size p color))) l).
Proof.
  intros Hb Hp. unfold fill_polygon_st, bindS, read_bytes, read_points, mutate.
  rewrite nth_error_new, Hb. cbn beta iota.
  rewrite nth_error_new, Hp. cbn beta iota.
  rewrite update_new. reflexivity.
Qed.

Lemma fill_rect_st_new (s l : store) (kb : nat) (size : Z)
    (b : buffer) (r : rect) (color : list byte) :
  nth_error l kb = Some (Bytearray b) ->
  fill_rect_st (length s + kb) size r color (s ++ l)
  = (raised (snd (fill_rect b size r color)),
     s ++ update kb (Bytearray (fst (fill_rect b size r color))) l).
Proof.
  intros Hb. unfold fill_rect_st, bindS, read_bytes, mutate.
  rewrite nth_error_new, Hb. cbn beta iota.
  rewrite update_new. reflexivity.
Qed.

Section InvocationFacts.

Context {L : PyLibs}.

(** An invocation returns what [make_png] returns and leaves every object
    that was in the store as it was; what it allocated comes behind. *)
Lemma make_png_st_frame (names : bindings) (size : Z) (s : store) :
  module_loaded names s ->
  exists fresh, make_png_st names size s = (make_png size, s ++ fresh).
Proof.
  intros (HAO & HAH & HPO & HPH).
  unfold make_png_st, make_png, render_canvas, try.
  set (scale := (float_of_int size / 512.0)%float).
  unfold bindS at 1.
  destruct (new_canvas size) as [b0 | e];
    [| exists []; now rewrite app_nil_r].
  unfold bindS at 1. unfold alloc at 1.
  replace (length s) with (length s + 0)%nat by lia.
  (* letter A, outline *)
  unfold bindS at 1.
  rewrite (scale_points_st_new s _ _ _ scale HAO). cbn [length app].
  unfold bindS at 1.
  erewrite (fill_polygon_st_new s) by reflexivity.
  destruct (fill_polygon b0 size (scale_points A_OUTER scale) FG)
    as [b1 [e |]]; cbn [fst snd raised then_ update length Nat.ltb Nat.leb
                        firstn skipn app];
    [eexists; reflexivity |].
  (* letter A, hole *)
  unfold bindS at 1.
  rewrite (scale_points_st_new s _ _ _ scale HAH). cbn [length app].
  unfold bindS at 1.
  erewrite (fill_polygon_st_new s) by reflexivity.
  destruct (fill_polygon b1 size (scale_points A_HOLE scale) BG)
    as [b2 [e |]]; cbn [fst snd raised then_ update length Nat.ltb Nat.leb
                        firstn skipn app];
    [eexists; reflexivity |].
  (* letter A, bar *)
  unfold bindS at 1.
  erewrite (fill_rect_st_new s) by reflexivity.
  destruct (fill_rect b2 size (scale_rect A_BAR scale) FG)
    as [b3 [e |]]; cbn [fst snd raised then_ update length Nat.ltb Nat.leb
                        firstn skipn app];
    [eexists; reflexivity |].
  (* letter P, outline *)
  unfold bindS at 1.
  rewrite (scale_points_st_new s _ _ _ scale HPO). cbn [length app].
  unfold bindS at 1.
  erewrite (fill_polygon_st_new s) by reflexivity.
  destruct (fill_polygon b3 size (scale_points P_OUTER scale) FG)
    as [b4 [e |]]; cbn [fst snd raised then_ update length Nat.ltb Nat.leb
                        firstn skipn app];
    [eexists; reflexivity |].
  (* letter P, hole *)
  unfold bindS at 1.
  rewrite (scale_points_st_new s _ _ _ scale HPH). cbn [length app].
  unfold bindS at 1.
  erewrite (fill_polygon_st_new s) by reflexivity.
  destruct (fill_polygon b4 size (scale_points P_HOLE scale) BG)
    as [b5 [e |]]; cbn [fst snd raised then_ update length Nat.ltb Nat.leb
                        firstn skipn app];
    [eexists; reflexivity |].
  (* the encoder reads the canvas *)
  unfold bindS, read_bytes. rewrite nth_error_new. cbn [nth_error].
  eexists; reflexivity.
Qed.

Lemma module_loaded_kept (names : bindings) (s fresh : store) :
  module_loaded names s -> module_loaded names (s ++ fresh).
Proof.
  intros (H1 & H2 & H3 & H4).
  repeat split; apply nth_error_old; assumption.
Qed.

Lemma invoke_all_frame (names : bindings) (sizes : list Z) (s : store) :
  module_loaded names s ->
  exists fresh,
    invoke_all names sizes s = (map make_png sizes, s ++ fresh).
Proof.
  revert s. induction sizes as [| size rest IH]; intros s Hs; simpl.
  - exists []. now rewrite app_nil_r.
  - destruct (make_png_st_frame names size s Hs) as (f1 & ->).
    destruct (IH (s ++ f1) (module_loaded_kept names s f1 Hs)) as (f2 & ->).
    exists (f1 ++ f2). now rewrite app_assoc.
Qed.

(** C8.  In a store that holds the module's lists as they were loaded,
    whatever invocations of [make_png] came before, an invocation for
    [size] returns the same result, a function of [size] alone; it leaves
    every object that was in the store unchanged and still holding the
    module's lists, so two invocations with the same size, however far
    apart, return identical byte strings. *)
Theorem make_png_deterministic
    (names : bindings) (s : store) (before1 before2 : list Z) (size : Z) :
  module_loaded names s ->
  let s1 := snd (invoke_all names before1 s) in
  let s2 := snd (invoke_all names before2 s) in
  fst (make_png_st names size s1) = fst (make_png_st names size s2)
  /\ fst (make_png_st names size s1) = make_png size
  /\ (exists fresh, snd (make_png_st names size s1) = s ++ fresh)
  /\ module_loaded names (snd (make_png_st names size s1)).
Proof.
  intros Hs s1 s2.
  destruct (invoke_all_frame names before1 s Hs) as (f1 & E1).
  destruct (invoke_all_frame names before2 s Hs) as (f2 & E2).
  subst s1 s2. rewrite E1, E2. cbn [snd].
  destruct (make_png_st_frame names size (s ++ f1)
              (module_loaded_kept names s f1 Hs)) as (g1 & ->).
  destruct (make_png_st_frame names size (s ++ f2)
              (module_loaded_kept names s f2 Hs)) as (g2 & ->).
  cbn [fst snd]. split; [reflexivity |]. split; [reflexivity |]. split.
  - exists (f1 ++ g1). now rewrite app_assoc.
  - rewrite <- app_assoc. now apply module_loaded_kept.
Qed.

End InvocationFacts.

Lemma make_png_deterministic_witness :
  let s1 := snd (@invoke_all reference_libs reference_names [2; 1]
                   reference_store) in
  let s2 := snd (@invoke_all reference_libs reference_names [] reference_store) in
  fst (@make_png_st reference_libs reference_names 2 s1)
  = fst (@make_png_st reference_libs reference_names 2 s2)
  /\ fst (@make_png_st reference_libs reference_names 2 s1)
     = @make_png reference_libs 2
  /\ (exists fresh,
        snd (@make_png_st reference_libs reference_names 2 s1)
        = reference_store ++ fresh)
  /\ @module_loaded reference_libs reference_names
       (snd (@make_png_st reference_libs reference_names 2 s1)).
Proof.
  apply (@make_png_deterministic reference_libs reference_names
           reference_store [2; 1] [] 2).
  repeat split.
Defined.

(** ** Shapes beside the canvas *)

Lemma math_ceil_nonpos (x : float) (c : Z) :
  math_ceil x = Ok c -> (x <=? 0)%float = true -> c <= 0.
Proof.
  unfold math_ceil. rewrite leb_spec.
  change (Prim2SF 0) with (S754_zero false).
  destruct (Prim2SF x) as [s | s | | s m e]; try discriminate.
  - intros E _. injection E as <-. lia.
  - intros E H. injection E as <-.
    destruct s; [| discriminate H].
    destruct (0 <=? e).
    + pose proof (Z.pow_nonneg 2 e). nia.
    + assert (0 <= Z.pos m / 2 ^ (- e))
        by (apply Z_div_nonneg_nonneg; [lia | apply Z.pow_nonneg; lia]).
      change (- Z.neg m) with (Z.pos m). lia.
Qed.

Lemma forallb_of_map {A B : Type} (f : B -> bool) (g : A -> B) (l : list A) :
  forallb f (map g l) = forallb (fun a => f (g a)) l.
Proof.
  induction l as [| a l IH]; simpl; [reflexivity | now rewrite IH].
Qed.

Lemma max_from_nonpos (m : float) (xs : list float) :
  (m <=? 0)%float = true ->
  forallb (fun x => (x <=? 0)%float) xs = true ->
  (max_from m xs <=? 0)%float = true.
Proof.
  intros Hm Hxs.
  destruct (max_from_In m xs) as [<- | Hin]; [assumption |].
  rewrite forallb_forall in Hxs. now apply Hxs.
Qed.

(** A polygon none of whose points lies right of the line [x = 0], or none
    below the line [y = 0], has an empty clamped box. *)
Lemma bounding_box_beside (polygon : list point) (size : Z)
    (x_start x_end y_start y_end : Z) :
  0 <= size ->
  bounding_box polygon size = Ok (x_start, x_end, y_start, y_end) ->
  forallb (fun p => (fst p <=? 0)%float) polygon = true
  \/ forallb (fun p => (snd p <=? 0)%float) polygon = true ->
  x_end <= x_start \/ y_end <= y_start.
Proof.
  intros Hs Hbb Hside. unfold bounding_box, bind in Hbb.
  destruct (py_min (map fst polygon)) as [a |]; [| discriminate].
  destruct (math_floor a) as [fx |]; [| discriminate].
  destruct (py_max (map fst polygon)) as [b |] eqn:Eb; [| discriminate].
  destruct (math_ceil b) as [cx |] eqn:Ecx; [| discriminate].
  destruct (py_min (map snd polygon)) as [c |]; [| discriminate].
  destruct (math_floor c) as [fy |]; [| discriminate].
  destruct (py_max (map snd polygon)) as [d |] eqn:Ed; [| discriminate].
  destruct (math_ceil d) as [cy |] eqn:Ecy; [| discriminate].
  injection Hbb as <- <- <- <-.
  destruct Hside as [H | H]; [left | right].
  - assert (cx <= 0).
    { apply (math_ceil_nonpos b); [assumption |].
      destruct polygon as [| [x y] ps]; [discriminate Eb |].
      simpl in Eb, H. injection Eb as <-.
      apply andb_true_iff in H as [H0 H1].
      apply max_from_nonpos; [assumption |]. now rewrite forallb_of_map. }
    unfold clamp. lia.
  - assert (cy <= 0).
    { apply (math_ceil_nonpos d); [assumption |].
      destruct polygon as [| [x y] ps]; [discriminate Ed |].
      simpl in Ed, H. injection Ed as <-.
      apply andb_true_iff in H as [H0 H1].
      apply max_from_nonpos; [assumption |]. now rewrite forallb_of_map. }
    unfold clamp. lia.
Qed.

(** A non-empty polygon with finite coordinates that lies left of or above
    the canvas is filled without an error and without a change. *)
Lemma fill_polygon_beside_canvas (buf : buffer) (size : Z)
    (polygon : list point) (color : list byte) :
  0 <= size -> polygon <> [] -> finite_points polygon = true ->
  forallb (fun p => (fst p <=? 0)%float) polygon = true
  \/ forallb (fun p => (snd p <=? 0)%float) polygon = true ->
  fill_polygon buf size polygon color = (buf, None).
Proof.
  intros Hs Hne Hfin Hside.
  destruct (bounding_box_total polygon size Hne Hfin)
    as ([[[xs xe] ys] ye] & Hbb).
  apply (fill_polygon_empty_box buf size polygon color xs xe ys ye Hbb).
  now apply (bounding_box_beside polygon size xs xe ys ye Hs Hbb).
Qed.

Lemma fill_polygon_beside_canvas_witness :
  fill_polygon (BG ++ BG ++ BG ++ BG) 2
               [(-5, 0); (-3, 0); (-3, 2)]%float FG
  = (BG ++ BG ++ BG ++ BG, None).
Proof.
  apply (fill_polygon_beside_canvas (BG ++ BG ++ BG ++ BG) 2
           [(-5, 0); (-3, 0); (-3, 2)]%float FG).
  - lia.
  - discriminate.
  - reflexivity.
  - left. reflexivity.
Defined.

(** What [fill_rect] does in general: when the coordinates are finite it
    runs to its end, sets every pixel of its span and keeps the others. *)
Lemma fill_rect_fills_span (buf : buffer) (size : Z) (r : rect)
    (color : list byte) (x_start x_end y_start y_end : Z) :
  canvas_ok size buf -> length color = 4%nat ->
  rect_box r size = Ok (x_start, x_end, y_start, y_end) ->
  exists buf',
    fill_rect buf size r color = (buf', None)
    /\ canvas_ok size buf'
    /\ forall x y, in_canvas size x y ->
         pixel buf' size x y
         = if between x_start x_end x && between y_start y_end y
           then color else pixel buf size x y.
Proof.
  intros Hok Hc Hbox.
  destruct (fill_rect_paints buf size r color _ _ _ _ Hok Hc Hbox)
    as [Hdone [Hok' Hpx]].
  exists (fst (fill_rect buf size r color)).
  split; [rewrite <- Hdone; apply surjective_pairing |].
  split; assumption.
Qed.

Lemma fill_rect_fills_span_witness :
  exists buf',
    fill_rect (BG ++ BG ++ BG ++ BG) 2 (0, 0, 1, 2)%float FG = (buf', None)
    /\ canvas_ok 2 buf'
    /\ forall x y, in_canvas 2 x y ->
         pixel buf' 2 x y
         = if between 0 1 x && between 0 2 y
           then FG else pixel (BG ++ BG ++ BG ++ BG) 2 x y.
Proof.
  apply (fill_rect_fills_span (BG ++ BG ++ BG ++ BG) 2 (0, 0, 1, 2)%float FG
           0 1 0 2); reflexivity.
Defined.

(** On the outline of the letter A at 32 pixels the test of the code and
    the exact rule agree at every pixel centre. *)
Example glyph_A_matches_exact_rule :
  let polygon := scale_points A_OUTER 0.0625 in
  forallb (fun y =>
             forallb (fun x =>
                        Bool.eqb (covers polygon x y)
                                 (inside_even_odd (center x) (center y) polygon))
                     (range 0 32))
          (range 0 32)
  = true.
Proof. vm_compute. reflexivity. Qed.

(** ** Writing and reading one pixel *)

(** [set_pixel] writes the pixel it is given and no other, and does nothing
    for a position off the canvas. *)
Theorem set_pixel_then_pixel
    (buf : buffer) (size x y : Z) (color : list byte) :
  canvas_ok size buf -> length color = 4%nat ->
  (in_canvas size x y -> pixel (set_pixel buf size x y color) size x y = color)
  /\ (forall x' y', in_canvas size x' y' -> (x', y') <> (x, y) ->
        pixel (set_pixel buf size x y color) size x' y' = pixel buf size x' y')
  /\ (~ in_canvas size x y -> set_pixel buf size x y color = buf).
Proof.
  intros Hok Hc. split; [| split].
  - intros Hin. rewrite pixel_set_pixel by assumption.
    now rewrite !Z.eqb_refl.
  - intros x' y' Hin Hne. rewrite pixel_set_pixel by assumption.
    destruct (Z.eqb_spec x' x), (Z.eqb_spec y' y); simpl; try reflexivity.
    subst. congruence.
  - intros Hout. unfold set_pixel, in_canvas in *.
    destruct (Z.leb_spec 0 x), (Z.ltb_spec x size),
             (Z.leb_spec 0 y), (Z.ltb_spec y size); simpl; try reflexivity.
    lia.
Qed.

Lemma set_pixel_then_pixel_witness :
  pixel (set_pixel (BG ++ BG ++ BG ++ BG) 2 1 0 FG) 2 1 0 = FG
  /\ (forall x' y', in_canvas 2 x' y' -> (x', y') <> (1, 0) ->
        pixel (set_pixel (BG ++ BG ++ BG ++ BG) 2 1 0 FG) 2 x' y'
        = pixel (BG ++ BG ++ BG ++ BG) 2 x' y')
  /\ set_pixel (BG ++ BG ++ BG ++ BG) 2 2 0 FG = BG ++ BG ++ BG ++ BG.
Proof.
  destruct (set_pixel_then_pixel (BG ++ BG ++ BG ++ BG) 2 1 0 FG
              eq_refl eq_refl) as (H1 & H2 & _).
  destruct (set_pixel_then_pixel (BG ++ BG ++ BG ++ BG) 2 2 0 FG
              eq_refl eq_refl) as (_ & _ & H3).
  split; [apply H1; unfold in_canvas; lia |].
  split; [exact H2 |].
  apply H3. unfold in_canvas. lia.
Defined.

(** A colour that is not four bytes long resizes the canvas: the four
    bytes of the pixel are replaced by however many the colour has. *)
Theorem set_pixel_resizes
    (buf : buffer) (size x y : Z) (color : list byte) :
  canvas_ok size buf -> in_canvas size x y ->
  Z.of_nat (length (set_pixel buf size x y color))
  = Z.of_nat (length buf) - 4 + Z.of_nat (length color).
Proof.
  intros Hok Hin. rewrite set_pixel_inside by assumption.
  pose proof (pixel_index_bound size x y Hin) as Hb.
  unfold canvas_ok in Hok.
  rewrite slice_assign_inside by lia.
  rewrite !length_app, length_firstn, length_skipn. lia.
Qed.

Lemma set_pixel_resizes_witness :
  Z.of_nat (length (set_pixel (BG ++ BG ++ BG ++ BG) 2 1 0 [xff; xff; xff]))
  = Z.of_nat (length (BG ++ BG ++ BG ++ BG)) - 4
    + Z.of_nat (length [xff; xff; xff]).
Proof.
  apply (set_pixel_resizes (BG ++ BG ++ BG ++ BG) 2 1 0 [xff; xff; xff]).
  - reflexivity.
  - unfold in_canvas. lia.
Defined.

(** ** The crossing test as a count over the edges *)

Lemma nth_rot1 {A : Type} (l : list A) (d : A) (i : nat) :
  (i < length l)%nat ->
  nth ((i + 1) mod length l) l d = nth i (rot1 l) d.
Proof.
  intros Hi. unfold rot1.
  destruct l as [| a r]; [simpl in Hi; lia |].
  simpl length in *. simpl tl. simpl firstn.
  destruct (Nat.eq_dec i (length r)) as [-> | Hne].
  - replace (length r + 1)%nat with (S (length r)) by lia.
    rewrite Nat.Div0.mod_same.
    rewrite app_nth2, Nat.sub_diag by lia. reflexivity.
  - rewrite Nat.mod_small by lia.
    rewrite app_nth1 by lia.
    replace (i + 1)%nat with (S i) by lia. reflexivity.
Qed.

Lemma length_rot1 {A : Type} (l : list A) : length (rot1 l) = length l.
Proof.
  unfold rot1. destruct l as [| a r]; simpl; [reflexivity |].
  rewrite length_app. simpl. lia.
Qed.

Lemma map_nth_pair {A B : Type} (p : list A) (q : list B) (da : A) (db : B) :
  length p = length q ->
  map (fun i => (nth i p da, nth i q db)) (seq 0 (length p)) = combine p q.
Proof.
  revert q. induction p as [| a p IH]; intros q Hlen; simpl.
  - reflexivity.
  - destruct q as [| b q]; [discriminate |]. simpl. f_equal.
    rewrite <- seq_shift, map_map. apply IH. simpl in Hlen. lia.
Qed.

Lemma edge_step_turn (x y : float) (polygon : list point) (i : nat)
    (inside : bool) :
  (i < length polygon)%nat ->
  edge_step x y polygon i inside
  = edge_turn x y (nth i polygon (0, 0)%float,
                   nth i (rot1 polygon) (0, 0)%float) inside.
Proof.
  intros Hi. unfold edge_step, edge_turn, degenerate, counted, straddles.
  rewrite (nth_rot1 polygon (0, 0)%float i Hi).
  destruct (nth i polygon (0, 0)%float) as [x1 y1].
  destruct (nth i (rot1 polygon) (0, 0)%float) as [x2 y2].
  cbn [fst snd].
  destruct (xorb (y <? y1)%float (y <? y2)%float); cbn [andb].
  - unfold float_div.
    destruct (y2 - y1 + eps =? 0)%float; cbn [bind]; [reflexivity |].
    destruct (x <? (x2 - x1) * (y - y1) / (y2 - y1 + eps) + x1)%float;
      destruct inside; reflexivity.
  - now destruct inside.
Qed.

Lemma foldM_ext_In {S X : Type} (f g : X -> S -> res S) (xs : list X) (s : S) :
  (forall x s', In x xs -> f x s' = g x s') ->
  foldM f xs s = foldM g xs s.
Proof.
  revert s. induction xs as [| x xs IH]; intros s H; simpl.
  - reflexivity.
  - rewrite (H x s) by now left.
    destruct (g x s); simpl; [| reflexivity].
    apply IH. intros; apply H; now right.
Qed.

Lemma foldM_map {S X Y : Type} (f : Y -> S -> res S) (h : X -> Y)
    (xs : list X) (s : S) :
  foldM f (map h xs) s = foldM (fun x => f (h x)) xs s.
Proof.
  revert s. induction xs as [| x xs IH]; intros s; simpl.
  - reflexivity.
  - destruct (f (h x) s); simpl; [apply IH | reflexivity].
Qed.

Lemma point_in_polygon_edges (x y : float) (polygon : list point) :
  point_in_polygon x y polygon = foldM (edge_turn x y) (edges polygon) false.
Proof.
  unfold point_in_polygon, edges.
  rewrite <- (map_nth_pair polygon (rot1 polygon) (0, 0)%float (0, 0)%float)
    by (symmetry; apply length_rot1).
  rewrite foldM_map. apply foldM_ext_In.
  intros i s Hi. apply in_seq in Hi. apply edge_step_turn. lia.
Qed.

Lemma foldM_edge_turn (x y : float) (es : list (point * point))
    (inside : bool) :
  foldM (edge_turn x y) es inside
  = if existsb (degenerate y) es then Raise ZeroDivisionError
    else Ok (xorb inside (Nat.odd (length (filter (counted x y) es)))).
Proof.
  revert inside. induction es as [| e es IH]; intros inside; simpl.
  - now rewrite xorb_false_r.
  - unfold edge_turn at 1.
    destruct (degenerate y e); cbn [bind orb]; [reflexivity |].
    rewrite IH. destruct (existsb (degenerate y) es); [reflexivity |].
    f_equal. destruct (counted x y e); simpl length.
    + rewrite Nat.odd_succ, <- Nat.negb_odd.
      destruct inside, (Nat.odd (length (filter (counted x y) es)));
        reflexivity.
    + now rewrite xorb_false_r.
Qed.

(** A scan that ran to its end tested every pixel of its box. *)
Lemma for_each_none {X : Type} (body : X -> buffer -> buffer * outcome)
    (ok : X -> Prop) (xs : list X) (b b' : buffer) :
  (forall x b0 b1, body x b0 = (b1, None) -> ok x) ->
  for_each xs body b = (b', None) -> forall x, In x xs -> ok x.
Proof.
  intros Hbody. revert b. induction xs as [| a xs IH]; intros b Hrun x Hin;
    [destruct Hin |].
  cbn [for_each] in Hrun.
  destruct (body a b) as [b1 [e |]] eqn:E; [discriminate |].
  destruct Hin as [<- | Hin]; [eapply Hbody; eassumption |].
  eapply IH; eassumption.
Qed.

Lemma scan_tested (size : Z) (polygon : list point) (color : list byte)
    (xr yr : list Z) (b b' : buffer) :
  for_each yr
    (fun y => for_each xr (fill_polygon_pixel size polygon color y)) b
  = (b', None) ->
  forall x y, In x xr -> In y yr ->
    exists r, point_in_polygon (center x) (center y) polygon = Ok r.
Proof.
  intros Hrun x y Hx Hy.
  refine (for_each_none _
            (fun y => forall x, In x xr ->
               exists r, point_in_polygon (center x) (center y) polygon = Ok r)
            yr b b' _ Hrun y Hy x Hx).
  clear. intros y b0 b1 Hrow x Hx.
  refine (for_each_none _
            (fun x => exists r,
               point_in_polygon (center x) (center y) polygon = Ok r)
            xr b0 b1 _ Hrow x Hx).
  clear. intros x b2 b3. unfold fill_polygon_pixel, try, center.
  destruct (point_in_polygon _ _ polygon) as [r | e]; [eauto | discriminate].
Qed.

(** C1 (as amended).  On a canvas of [size * size] pixels and with a colour
    of four bytes, for every polygon: when [fill_polygon] runs to its end,
    no edge it tested at a pixel of the polygon's integer-rounded,
    canvas-clamped bounding box had the divisor [y2 - y1 + 1e-12 = 0], and
    it has set to the colour exactly the pixels [(x, y)] of that box for
    whose centre [(x + 0.5, y + 0.5)] the number of edges with
    [(y1 > y) != (y2 > y)] and
    [x < (x2 - x1) * (y - y1) / (y2 - y1 + 1e-12) + x1], all in floating
    point, is odd; every other pixel of the canvas has kept its value.  It
    does run to its end when the polygon is not empty, its coordinates are
    finite and none of its edges has [y2 - y1 + 1e-12 = 0]. *)
Theorem fill_polygon_paints_crossing_parity
    (buf : buffer) (size : Z) (polygon : list point) (color : list byte) :
  canvas_ok size buf -> length color = 4%nat ->
  (forall buf',
     fill_polygon buf size polygon color = (buf', None) ->
     exists x_start x_end y_start y_end,
       bounding_box polygon size = Ok (x_start, x_end, y_start, y_end)
       /\ canvas_ok size buf'
       /\ (forall x y,
             between x_start x_end x && between y_start y_end y = true ->
             existsb (degenerate (center y)) (edges polygon) = false)
       /\ forall x y, in_canvas size x y ->
            pixel buf' size x y
            = if between x_start x_end x && between y_start y_end y
                 && Nat.odd (length (filter (counted (center x) (center y))
                                            (edges polygon)))
              then color else pixel buf size x y)
  /\ (polygon <> [] -> finite_points polygon = true ->
      slopes_ok polygon = true ->
      exists buf', fill_polygon buf size polygon color = (buf', None)).
Proof.
  intros Hok Hc. split.
  - intros buf' Hrun.
    destruct (fill_polygon_completed buf buf' size polygon color Hok Hc Hrun)
      as (xs & xe & ys & ye & Hbb & Hok' & Hpx).
    assert (Htested : forall x y,
              between xs xe x && between ys ye y = true ->
              existsb (degenerate (center y)) (edges polygon) = false).
    { intros x y Hb. apply andb_prop in Hb. destruct Hb as [Hx Hy].
      apply between_spec in Hx. apply between_spec in Hy.
      rewrite fill_polygon_scan, Hbb in Hrun.
      destruct ((xe <=? xs) || (ye <=? ys)) eqn:Hempty.
      - apply orb_true_iff in Hempty.
        destruct Hempty as [H | H]; apply Z.leb_le in H; lia.
      - destruct (scan_tested size polygon color (range xs xe) (range ys ye)
                    buf buf' Hrun x y) as (r & Hr);
          [apply In_range; lia | apply In_range; lia |].
        rewrite point_in_polygon_edges, foldM_edge_turn in Hr.
        destruct (existsb (degenerate (center y)) (edges polygon));
          [discriminate | reflexivity]. }
    exists xs, xe, ys, ye.
    split; [assumption |]. split; [assumption |]. split; [assumption |].
    intros x y Hin. rewrite (Hpx x y Hin).
    destruct (between xs xe x && between ys ye y) eqn:Hb; [| reflexivity].
    cbn [andb]. unfold covers.
    rewrite point_in_polygon_edges, foldM_edge_turn, (Htested x y Hb).
    rewrite xorb_false_l.
    destruct (Nat.odd _); reflexivity.
  - intros Hne Hfin Hs.
    exists (fst (fill_polygon buf size polygon color)).
    rewrite <- (fill_polygon_completes buf size polygon color Hne Hfin Hs).
    apply surjective_pairing.
Qed.

Lemma fill_polygon_paints_crossing_parity_witness :
  exists buf',
    fill_polygon (BG ++ BG ++ BG ++ BG) 2
                 [(0, 0); (1, 0); (1, 2); (0, 2)]%float FG = (buf', None)
    /\ exists x_start x_end y_start y_end,
         bounding_box [(0, 0); (1, 0); (1, 2); (0, 2)]%float 2
         = Ok (x_start, x_end, y_start, y_end)
         /\ canvas_ok 2 buf'
         /\ (forall x y,
               between x_start x_end x && between y_start y_end y = true ->
               existsb (degenerate (center y))
                       (edges [(0, 0); (1, 0); (1, 2); (0, 2)]%float) = false)
         /\ forall x y, in_canvas 2 x y ->
              pixel buf' 2 x y
              = if between x_start x_end x && between y_start y_end y
                   && Nat.odd
                        (length
                           (filter (counted (center x) (center y))
                                   (edges [(0, 0); (1, 0); (1, 2); (0, 2)]%float)))
                then FG else pixel (BG ++ BG ++ BG ++ BG) 2 x y.
Proof.
  destruct (fill_polygon_paints_crossing_parity
              (BG ++ BG ++ BG ++ BG) 2 [(0, 0); (1, 0); (1, 2); (0, 2)]%float FG
              eq_refl eq_refl) as [Hdone Hruns].
  destruct Hruns as [buf' Hrun];
    [discriminate | reflexivity | reflexivity |].
  exists buf'. split; [exact Hrun | exact (Hdone buf' Hrun)].
Defined.

(** C1 (as stated) fails.  At height 0.5 the triangle spans
    [-2^40 <= x <= 1], so the centre (0.5, 0.5) of the only pixel of a
    one-pixel canvas lies inside it, half a unit from the nearest edge; the
    code computes the crossing of the slanted edge as
    [(2^41 + 2) * 0.5 / (1 + 1e-12) - 2^40], about -0.0995, finds no
    crossing to the right of the centre and leaves the pixel as it was. *)
Lemma fill_polygon_misses_inside_pixel :
  inside_even_odd (center 0) (center 0) wide_triangle = true
  /\ bounding_box wide_triangle 1 = Ok (0, 1, 0, 1)
  /\ fill_polygon BG 1 wide_triangle FG = (BG, None)
  /\ pixel BG 1 0 0 <> FG.
Proof.
  repeat split; try (vm_compute; reflexivity).
  vm_compute. discriminate.
Qed.

(** [point_in_polygon] returns the parity of the number of edges it counts
    as crossed, whatever their order, and raises [ZeroDivisionError], and
    nothing else, exactly when an edge it tests has a zero divisor. *)
Theorem point_in_polygon_parity (x y : float) (polygon : list point) :
  point_in_polygon x y polygon
  = if existsb (degenerate y) (edges polygon) then Raise ZeroDivisionError
    else Ok (Nat.odd (length (filter (counted x y) (edges polygon)))).
Proof.
  rewrite point_in_polygon_edges, foldM_edge_turn.
  now rewrite xorb_false_l.
Qed.

Lemma combine_app_same {A B : Type} (l1 l2 : list A) (m1 m2 : list B) :
  length l1 = length m1 ->
  combine (l1 ++ l2) (m1 ++ m2) = combine l1 m1 ++ combine l2 m2.
Proof.
  revert m1. induction l1 as [| a l1 IH]; intros [| b m1] H;
    try discriminate; simpl.
  - reflexivity.
  - f_equal. apply IH. simpl in H. lia.
Qed.

Lemma edges_rot1 (polygon : list point) :
  edges (rot1 polygon) = rot1 (edges polygon).
Proof.
  destruct polygon as [| a [| b r]]; [reflexivity | reflexivity |].
  change (edges (rot1 (a :: b :: r)))
    with (combine ((b :: r) ++ [a]) ((r ++ [a]) ++ [b])).
  change (rot1 (edges (a :: b :: r)))
    with (combine (b :: r) (r ++ [a]) ++ [(a, b)]).
  rewrite combine_app_same by (rewrite length_app; simpl; lia).
  reflexivity.
Qed.

Lemma rot1_Permutation {A : Type} (l : list A) : Permutation (rot1 l) l.
Proof.
  unfold rot1. destruct l as [| a r]; simpl; [constructor |].
  symmetry. apply Permutation_cons_append.
Qed.

Lemma existsb_Permutation {A : Type} (f : A -> bool) (l l' : list A) :
  Permutation l l' -> existsb f l = existsb f l'.
Proof.
  induction 1 as [| a l l' _ IH | a b l | l l' l'' _ IH1 _ IH2]; simpl.
  - reflexivity.
  - now rewrite IH.
  - destruct (f a), (f b); reflexivity.
  - congruence.
Qed.

Lemma filter_length_Permutation {A : Type} (f : A -> bool) (l l' : list A) :
  Permutation l l' -> length (filter f l) = length (filter f l').
Proof.
  induction 1 as [| a l l' _ IH | a b l | l l' l'' _ IH1 _ IH2]; simpl.
  - reflexivity.
  - destruct (f a); simpl; now rewrite IH.
  - destruct (f a), (f b); reflexivity.
  - congruence.
Qed.

(** The result of [point_in_polygon], error included, does not depend on
    the vertex the polygon's list starts with. *)
Theorem point_in_polygon_rotation
    (x y : float) (polygon : list point) (k : nat) :
  point_in_polygon x y (Nat.iter k rot1 polygon)
  = point_in_polygon x y polygon.
Proof.
  induction k as [| k IH]; [reflexivity |].
  cbn [Nat.iter nat_rect]. rewrite <- IH.
  rewrite !point_in_polygon_edges, !foldM_edge_turn, edges_rot1.
  rewrite (existsb_Permutation _ _ _ (rot1_Permutation _)).
  now rewrite (filter_length_Permutation _ _ _ (rot1_Permutation _)).
Qed.

Lemma no_edge_tested (x y : float) (es : list (point * point)) :
  (forall e, In e es -> straddles y e = false) ->
  existsb (degenerate y) es = false /\ filter (counted x y) es = [].
Proof.
  induction es as [| e es IH]; intros Hs; [split; reflexivity |].
  destruct IH as [IH1 IH2]; [intros; apply Hs; now right |].
  pose proof (Hs e (or_introl eq_refl)) as He.
  simpl. unfold degenerate at 1. rewrite He, IH1.
  replace (counted x y e) with false; [split; [reflexivity | exact IH2] |].
  destruct e as [[x1 y1] [x2 y2]]. unfold counted. now rewrite He.
Qed.

(** A point that is level with or below every vertex, or above every
    vertex, or whose [y] is a NaN, is outside: no edge is tested, so nothing
    is divided and nothing raised.  An empty polygon contains no point. *)
Theorem point_in_polygon_beside (x y : float) (polygon : list point) (b : bool) :
  forallb (fun p => Bool.eqb (y <? snd p)%float b) polygon = true ->
  point_in_polygon x y polygon = Ok false.
Proof.
  intros H. rewrite point_in_polygon_edges, foldM_edge_turn.
  destruct (no_edge_tested x y (edges polygon)) as [-> ->]; [| reflexivity].
  intros [p q] He. unfold edges in He.
  pose proof (in_combine_l _ _ _ _ He) as Hp.
  pose proof (in_combine_r _ _ _ _ He) as Hq.
  apply (Permutation_in _ (rot1_Permutation polygon)) in Hq.
  rewrite forallb_forall in H.
  pose proof (H p Hp) as H1. pose proof (H q Hq) as H2.
  apply eqb_prop in H1. apply eqb_prop in H2.
  unfold straddles. cbn [fst snd]. rewrite H1, H2. apply xorb_nilpotent.
Qed.

Lemma point_in_polygon_beside_witness :
  point_in_polygon 1 5 [(0, 0); (2, 0); (2, 2); (0, 2)]%float = Ok false.
Proof.
  apply (point_in_polygon_beside 1 5 [(0, 0); (2, 0); (2, 2); (0, 2)]%float
           false).
  reflexivity.
Defined.

(** ** Errors of the fills *)

Lemma math_floor_raises (x : float) (e : exn) :
  math_floor x = Raise e ->
  is_finite x = false /\ (e = ValueError \/ e = OverflowError).
Proof.
  unfold math_floor, is_finite.
  destruct (Prim2SF x); intros H; inversion H; auto.
Qed.

Lemma math_ceil_raises (x : float) (e : exn) :
  math_ceil x = Raise e ->
  is_finite x = false /\ (e = ValueError \/ e = OverflowError).
Proof.
  unfold math_ceil, is_finite.
  destruct (Prim2SF x); intros H; inversion H; auto.
Qed.

Lemma math_floor_cases (x : float) :
  (exists z, math_floor x = Ok z /\ is_finite x = true)
  \/ (exists e, math_floor x = Raise e /\ is_finite x = false
                /\ (e = ValueError \/ e = OverflowError)).
Proof.
  unfold math_floor, is_finite. destruct (Prim2SF x); eauto 7.
Qed.

Lemma math_ceil_cases (x : float) :
  (exists z, math_ceil x = Ok z /\ is_finite x = true)
  \/ (exists e, math_ceil x = Raise e /\ is_finite x = false
                /\ (e = ValueError \/ e = OverflowError)).
Proof.
  unfold math_ceil, is_finite. destruct (Prim2SF x); eauto 7.
Qed.

(** [fill_rect] runs to its end exactly when the four coordinates are
    finite; otherwise it raises [ValueError] or [OverflowError], the
    errors of [math.floor] and [math.ceil] on a NaN and on an infinity,
    before it has written anything. *)
Theorem fill_rect_raises_before_writing
    (buf : buffer) (size : Z) (x1 y1 x2 y2 : float) (color : list byte) :
  (is_finite x1 && is_finite x2 && is_finite y1 && is_finite y2 = true ->
   snd (fill_rect buf size (x1, y1, x2, y2) color) = None)
  /\ (is_finite x1 && is_finite x2 && is_finite y1 && is_finite y2 = false ->
      exists e, (e = ValueError \/ e = OverflowError)
                /\ fill_rect buf size (x1, y1, x2, y2) color = (buf, Some e)).
Proof.
  rewrite fill_rect_scan. unfold rect_box, bind.
  destruct (math_floor_cases x1) as [(z1 & -> & ->) | (e & -> & -> & He)];
    [| split; [discriminate | eauto]].
  destruct (math_ceil_cases x2) as [(z2 & -> & ->) | (e & -> & -> & He)];
    [| split; [discriminate | eauto]].
  destruct (math_floor_cases y1) as [(z3 & -> & ->) | (e & -> & -> & He)];
    [| split; [discriminate | eauto]].
  destruct (math_ceil_cases y2) as [(z4 & -> & ->) | (e & -> & -> & He)];
    [| split; [discriminate | eauto]].
  split; [reflexivity | discriminate].
Qed.

Lemma fill_rect_raises_before_writing_witness :
  snd (fill_rect BG 1 (0, 0, 1, 1)%float FG) = None
  /\ exists e, (e = ValueError \/ e = OverflowError)
               /\ fill_rect BG 1 (0, 0, infinity, 1)%float FG = (BG, Some e).
Proof.
  split.
  - apply (fill_rect_raises_before_writing BG 1 0 0 1 1 FG). reflexivity.
  - apply (fill_rect_raises_before_writing BG 1 0 0 infinity 1 FG).
    reflexivity.
Defined.

Lemma bounding_box_raises (polygon : list point) (size : Z) (e : exn) :
  bounding_box polygon size = Raise e -> e = ValueError \/ e = OverflowError.
Proof.
  unfold bounding_box, bind.
  assert (Hmin : forall xs e', py_min xs = Raise e' -> e' = ValueError)
    by (intros [| ? ?] e' H; inversion H; reflexivity).
  assert (Hmax : forall xs e', py_max xs = Raise e' -> e' = ValueError)
    by (intros [| ? ?] e' H; inversion H; reflexivity).
  destruct (py_min (map fst polygon)) as [a | e0] eqn:Ea.
  2: { intros H. inversion H; subst. left. eapply Hmin; eauto. }
  destruct (math_floor a) as [fa | e0] eqn:Efa.
  2: { intros H. inversion H; subst. eapply math_floor_raises; eauto. }
  destruct (py_max (map fst polygon)) as [b | e0] eqn:Eb.
  2: { intros H. inversion H; subst. left. eapply Hmax; eauto. }
  destruct (math_ceil b) as [cb | e0] eqn:Ecb.
  2: { intros H. inversion H; subst. eapply math_ceil_raises; eauto. }
  destruct (py_min (map snd polygon)) as [c | e0] eqn:Ec.
  2: { intros H. inversion H; subst. left. eapply Hmin; eauto. }
  destruct (math_floor c) as [fc | e0] eqn:Efc.
  2: { intros H. inversion H; subst. eapply math_floor_raises; eauto. }
  destruct (py_max (map snd polygon)) as [d | e0] eqn:Ed.
  2: { intros H. inversion H; subst. left. eapply Hmax; eauto. }
  destruct (math_ceil d) as [cd | e0] eqn:Ecd.
  2: { intros H. inversion H; subst. eapply math_ceil_raises; eauto. }
  discriminate.
Qed.

Lemma for_each_raises {X : Type} (P : exn -> Prop)
    (body : X -> buffer -> buffer * outcome) (xs : list X) :
  (forall x b b' e, body x b = (b', Some e) -> P e) ->
  forall b b' e, for_each xs body b = (b', Some e) -> P e.
Proof.
  intros Hbody. induction xs as [| x xs IH]; intros b b' e; simpl.
  - discriminate.
  - destruct (body x b) as [b1 [e1 |]] eqn:E.
    + intros H. inversion H; subst. eauto.
    + apply IH.
Qed.

(** An empty polygon makes [fill_polygon] raise [ValueError].  The only
    error that can interrupt the scan is [ZeroDivisionError]: any other
    error is a [ValueError] or an [OverflowError] of the bounding box and
    leaves the canvas as it was. *)
Theorem fill_polygon_errors
    (buf : buffer) (size : Z) (polygon : list point) (color : list byte) :
  (polygon = [] ->
   fill_polygon buf size polygon color = (buf, Some ValueError))
  /\ (forall buf' e,
        fill_polygon buf size polygon color = (buf', Some e) ->
        e = ZeroDivisionError
        \/ (buf' = buf /\ (e = ValueError \/ e = OverflowError))).
Proof.
  split.
  - intros ->. reflexivity.
  - intros buf' e. rewrite fill_polygon_scan.
    destruct (bounding_box polygon size) as [[[[xs xe] ys] ye] | e0] eqn:Hbb.
    + destruct ((xe <=? xs) || (ye <=? ys)); [discriminate |].
      intros H. left. revert H.
      apply (for_each_raises (fun e => e = ZeroDivisionError)).
      intros y b b1 e1.
      apply (for_each_raises (fun e => e = ZeroDivisionError)).
      intros x b2 b3 e2. unfold fill_polygon_pixel, try.
      rewrite point_in_polygon_edges, foldM_edge_turn.
      destruct (existsb _ _); [intros H; now inversion H |].
      destruct (Nat.odd _); discriminate.
    + intros H. inversion H; subst. right.
      split; [reflexivity | exact (bounding_box_raises _ _ _ Hbb)].
Qed.

(** ** Canvases with the same pixels *)

Lemma canvas_ext (size : Z) (b1 b2 : buffer) :
  0 <= size -> canvas_ok size b1 -> canvas_ok size b2 ->
  (forall x y, in_canvas size x y -> pixel b1 size x y = pixel b2 size x y) ->
  b1 = b2.
Proof.
  intros Hs H1 H2 Hpx.
  rewrite <- (rows_concat b1 size H1 Hs), <- (rows_concat b2 size H2 Hs).
  f_equal. apply map_ext_in. intros y Hy. apply In_range in Hy.
  unfold row_pixels. apply flat_map_ext_In. intros x Hx. apply In_range in Hx.
  apply Hpx. unfold in_canvas. lia.
Qed.

Lemma paints_twice (size : Z) (color : list byte) (hit : Z -> Z -> bool)
    (b0 b1 b2 : buffer) :
  0 <= size ->
  paints size color hit b0 b1 -> paints size color hit b1 b2 -> b2 = b1.
Proof.
  intros Hs [Hok1 H1] [Hok2 H2].
  apply (canvas_ext size); try assumption.
  intros x y Hin. rewrite H2, H1 by assumption.
  now destruct (hit x y).
Qed.

Lemma for_each_outcome {X : Type} (body : X -> buffer -> buffer * outcome)
    (xs : list X) :
  (forall x b b', snd (body x b) = snd (body x b')) ->
  forall b b', snd (for_each xs body b) = snd (for_each xs body b').
Proof.
  intros Hbody. induction xs as [| x xs IH]; intros b b'; simpl.
  - reflexivity.
  - pose proof (Hbody x b b') as E.
    destruct (body x b) as [b1 [e1 |]], (body x b') as [b1' [e1' |]];
      simpl in *; try congruence.
    apply IH.
Qed.

Lemma fill_polygon_outcome (b b' : buffer) (size : Z) (polygon : list point)
    (color : list byte) :
  snd (fill_polygon b size polygon color)
  = snd (fill_polygon b' size polygon color).
Proof.
  rewrite !fill_polygon_scan.
  destruct (bounding_box polygon size) as [[[[xs xe] ys] ye] | e];
    [| reflexivity].
  destruct ((xe <=? xs) || (ye <=? ys)); [reflexivity |].
  apply for_each_outcome. intros y b0 b0'.
  apply for_each_outcome. intros x b1 b1'.
  unfold fill_polygon_pixel, try.
  destruct (point_in_polygon _ _ polygon) as [[|] | e]; reflexivity.
Qed.

(** Filling the same polygon again changes nothing: whether the call runs
    to its end does not depend on the canvas, and what it paints is already
    painted. *)
Theorem fill_polygon_idempotent
    (buf buf1 : buffer) (size : Z) (polygon : list point) (color : list byte) :
  0 <= size -> canvas_ok size buf -> length color = 4%nat ->
  fill_polygon buf size polygon color = (buf1, None) ->
  fill_polygon buf1 size polygon color = (buf1, None).
Proof.
  intros Hs Hok Hc Hrun.
  destruct (fill_polygon_completed buf buf1 size polygon color Hok Hc Hrun)
    as (xs & xe & ys & ye & Hbb & Hp1).
  pose proof (fill_polygon_outcome buf1 buf size polygon color) as Ho.
  rewrite Hrun in Ho. cbn [snd] in Ho.
  destruct (fill_polygon buf1 size polygon color) as [buf2 o] eqn:Hrun2.
  cbn [snd] in Ho. subst o.
  destruct (fill_polygon_completed buf1 buf2 size polygon color
              (proj1 Hp1) Hc Hrun2) as (xs' & xe' & ys' & ye' & Hbb' & Hp2).
  rewrite Hbb in Hbb'. injection Hbb' as <- <- <- <-.
  now rewrite (paints_twice size color _ buf buf1 buf2 Hs Hp1 Hp2).
Qed.

Lemma fill_polygon_idempotent_witness :
  fill_polygon (FG ++ BG ++ FG ++ BG) 2
               [(0, 0); (1, 0); (1, 2); (0, 2)]%float FG
  = (FG ++ BG ++ FG ++ BG, None).
Proof.
  apply (fill_polygon_idempotent (BG ++ BG ++ BG ++ BG) (FG ++ BG ++ FG ++ BG)
           2 [(0, 0); (1, 0); (1, 2); (0, 2)]%float FG).
  - lia.
  - reflexivity.
  - reflexivity.
  - vm_compute. reflexivity.
Defined.

(** The same for a rectangle. *)
Theorem fill_rect_idempotent
    (buf : buffer) (size : Z) (r : rect) (color : list byte) :
  0 <= size -> canvas_ok size buf -> length color = 4%nat ->
  fill_rect (fst (fill_rect buf size r color)) size r color
  = fill_rect buf size r color.
Proof.
  intros Hs Hok Hc.
  destruct (rect_box r size) as [[[[xs xe] ys] ye] | e] eqn:Hbox.
  - destruct (fill_rect_paints buf size r color xs xe ys ye Hok Hc Hbox)
      as [Hdone Hp1].
    destruct (fill_rect_paints (fst (fill_rect buf size r color)) size r color
                xs xe ys ye (proj1 Hp1) Hc Hbox) as [Hdone2 Hp2].
    rewrite (surjective_pairing (fill_rect (fst _) size r color)).
    rewrite (surjective_pairing (fill_rect buf size r color)) at 3.
    rewrite Hdone, Hdone2. f_equal.
    exact (paints_twice size color _ buf _ _ Hs Hp1 Hp2).
  - rewrite !fill_rect_scan, Hbox. reflexivity.
Qed.

Lemma fill_rect_idempotent_witness :
  fill_rect (fst (fill_rect (BG ++ BG ++ BG ++ BG) 2 (0, 0, 1, 2)%float FG))
            2 (0, 0, 1, 2)%float FG
  = fill_rect (BG ++ BG ++ BG ++ BG) 2 (0, 0, 1, 2)%float FG.
Proof.
  apply (fill_rect_idempotent (BG ++ BG ++ BG ++ BG) 2 (0, 0, 1, 2)%float FG).
  - lia.
  - reflexivity.
  - reflexivity.
Defined.

(** ** The layers of the image *)

Lemma fill_polygon_hits (buf buf' : buffer) (size : Z) (polygon : list point)
    (color : list byte) :
  canvas_ok size buf -> length color = 4%nat ->
  fill_polygon buf size polygon color = (buf', None) ->
  paints size color (polygon_hits polygon size) buf buf'.
Proof.
  intros Hok Hc Hrun.
  destruct (fill_polygon_completed buf buf' size polygon color Hok Hc Hrun)
    as (xs & xe & ys & ye & Hbb & Hp).
  unfold polygon_hits. now rewrite Hbb.
Qed.

Lemma fill_rect_hits (buf buf' : buffer) (size : Z) (r : rect)
    (color : list byte) :
  canvas_ok size buf -> length color = 4%nat ->
  fill_rect buf size r color = (buf', None) ->
  paints size color (rect_hits r size) buf buf'.
Proof.
  intros Hok Hc Hrun. unfold rect_hits.
  destruct (rect_box r size) as [[[[xs xe] ys] ye] | e] eqn:Hbox.
  - destruct (fill_rect_paints buf size r color xs xe ys ye Hok Hc Hbox)
      as [_ Hp].
    now rewrite Hrun in Hp.
  - rewrite fill_rect_scan, Hbox in Hrun. discriminate.
Qed.

Lemma slice_skip (a b : list byte) (lo hi : Z) :
  Z.of_nat (length a) <= lo -> lo <= hi ->
  hi <= Z.of_nat (length (a ++ b)) ->
  slice (a ++ b) lo hi
  = slice b (lo - Z.of_nat (length a)) (hi - Z.of_nat (length a)).
Proof.
  intros H1 H2 H3. rewrite length_app in H3.
  rewrite !slice_inside by (rewrite ?length_app; lia).
  rewrite skipn_app, skipn_all2 by lia. simpl.
  f_equal; [lia |]. f_equal. lia.
Qed.

Lemma pixel_of_repeat (t : list byte) (k : nat) (i : Z) :
  length t = 4%nat -> 0 <= i < Z.of_nat k ->
  slice (concat (repeat t k)) (i * 4) (i * 4 + 4) = t.
Proof.
  intros Ht. revert i. induction k as [| k IH]; intros i Hi; [lia |].
  assert (Hlen : Z.of_nat (length (concat (repeat t k))) = Z.of_nat k * 4).
  { clear IH Hi. induction k as [| k IHk]; simpl; [reflexivity |].
    rewrite length_app. lia. }
  simpl concat.
  destruct (Z.eq_dec i 0) as [-> | Hne].
  - rewrite slice_inside by (rewrite ?length_app; lia).
    change (Z.to_nat (0 * 4 + 4 - 0 * 4)) with 4%nat.
    change (Z.to_nat (0 * 4)) with 0%nat.
    cbn [skipn]. now apply firstn_exact.
  - rewrite slice_skip by (rewrite ?length_app; lia).
    rewrite Ht.
    replace (i * 4 - Z.of_nat 4) with ((i - 1) * 4) by lia.
    replace (i * 4 + 4 - Z.of_nat 4) with ((i - 1) * 4 + 4) by lia.
    apply IH. lia.
Qed.

Lemma concat_repeat_twice {A : Type} (t : list A) (n m : nat) :
  concat (repeat (concat (repeat t n)) m) = concat (repeat t (m * n)).
Proof.
  induction m as [| m IH]; simpl; [reflexivity |].
  now rewrite IH, repeat_app, concat_app.
Qed.

(** Every pixel of the canvas [make_png] starts from is the background. *)
Lemma blank_canvas_pixel (bg : list byte) (size x y : Z) :
  length bg = 4%nat -> in_canvas size x y ->
  pixel (tuple_mul (tuple_mul bg size) size) size x y = bg.
Proof.
  intros Hbg Hin. unfold pixel, tuple_mul.
  rewrite concat_repeat_twice.
  apply pixel_of_repeat; [assumption |].
  pose proof (pixel_index_bound size x y Hin). unfold in_canvas in Hin. nia.
Qed.

Section LayerFacts.

Context {L : PyLibs}.

(** When the rasterizer has run to its end, a pixel has the colour of the
    last shape that paints it, in the order hole of the P, outline of the
    P, bar of the A, hole of the A, outline of the A, and the background
    colour when none does; so every pixel is one of the two colours. *)
Theorem render_canvas_layers (size : Z) (buf : buffer) :
  0 <= size -> render_canvas size = (buf, None) ->
  canvas_ok size buf
  /\ forall x y, in_canvas size x y ->
       let scale := (float_of_int size / 512.0)%float in
       pixel buf size x y
       = (if polygon_hits (scale_points P_HOLE scale) size x y then BG
          else if polygon_hits (scale_points P_OUTER scale) size x y then FG
          else if rect_hits (scale_rect A_BAR scale) size x y then FG
          else if polygon_hits (scale_points A_HOLE scale) size x y then BG
          else if polygon_hits (scale_points A_OUTER scale) size x y then FG
          else BG)
       /\ (pixel buf size x y = BG \/ pixel buf size x y = FG).
Proof.
  intros Hs. unfold render_canvas, try.
  destruct (new_canvas size) as [b0 | e0] eqn:E0; [| discriminate].
  apply new_canvas_value in E0.
  set (scale := (float_of_int size / 512.0)%float).
  assert (Hok0 : canvas_ok size b0) by (subst b0; now apply blank_canvas_ok).
  destruct (fill_polygon b0 size (scale_points A_OUTER scale) FG)
    as [b1 [e |]] eqn:E1; cbn [then_]; [discriminate |].
  destruct (fill_polygon_hits _ _ _ _ FG Hok0 eq_refl E1) as [Hok1 H1].
  destruct (fill_polygon b1 size (scale_points A_HOLE scale) BG)
    as [b2 [e |]] eqn:E2; cbn [then_]; [discriminate |].
  destruct (fill_polygon_hits _ _ _ _ BG Hok1 eq_refl E2) as [Hok2 H2].
  destruct (fill_rect b2 size (scale_rect A_BAR scale) FG)
    as [b3 [e |]] eqn:E3; cbn [then_]; [discriminate |].
  destruct (fill_rect_hits _ _ _ _ FG Hok2 eq_refl E3) as [Hok3 H3].
  destruct (fill_polygon b3 size (scale_points P_OUTER scale) FG)
    as [b4 [e |]] eqn:E4; cbn [then_]; [discriminate |].
  destruct (fill_polygon_hits _ _ _ _ FG Hok3 eq_refl E4) as [Hok4 H4].
  intros E5.
  destruct (fill_polygon_hits _ _ _ _ BG Hok4 eq_refl E5) as [Hok5 H5].
  split; [assumption |].
  intros x y Hin. cbv zeta. fold scale.
  rewrite H5, H4, H3, H2, H1 by assumption.
  subst b0. rewrite blank_canvas_pixel by (reflexivity || assumption).
  split; [reflexivity |].
  destruct (polygon_hits (scale_points P_HOLE scale) size x y),
           (polygon_hits (scale_points P_OUTER scale) size x y),
           (rect_hits (scale_rect A_BAR scale) size x y),
           (polygon_hits (scale_points A_HOLE scale) size x y),
           (polygon_hits (scale_points A_OUTER scale) size x y); auto.
Qed.

(** ** The encoder on any canvas *)

Lemma length_filtered_rows (buf : buffer) (size : Z) :
  canvas_ok size buf -> 0 <= size ->
  Z.of_nat (length (filtered_rows buf size)) = size * (4 * size + 1).
Proof.
  intros Hok Hs. unfold filtered_rows.
  assert (H : forall ys : list Z,
            (forall y, In y ys -> 0 <= y < size) ->
            Z.of_nat (length (flat_map (fun y => x00 :: row_pixels buf size y) ys))
            = Z.of_nat (length ys) * (4 * size + 1)).
  { induction ys as [| y ys IH]; intros Hys; [reflexivity |].
    cbn [flat_map]. rewrite length_app. cbn [length].
    rewrite length_row_pixels by (auto; apply Hys; now left).
    rewrite Nat2Z.inj_add, IH by (intros; apply Hys; now right). lia. }
  rewrite H by (intros y Hy; now apply In_range in Hy).
  unfold range. rewrite length_zseq. lia.
Qed.

Lemma length_serialized (tag payload : list byte) :
  length (serialized tag payload)
  = (8 + length tag + length payload)%nat.
Proof.
  unfold serialized. rewrite !length_app, !length_be32. lia.
Qed.

(** Whatever the canvas holds, the encoder's output decodes to it, when
    the size and the compressed length fit their fields and
    [zlib.decompress] inverts the compression of its rows; the output is
    57 bytes longer than the compressed data, and the data that is
    compressed has [size * (4 * size + 1)] bytes. *)
Theorem encode_png_round_trip (buf : buffer) (size : Z) :
  canvas_ok size buf -> 0 <= size < 2 ^ 32 ->
  Z.of_nat (length (zlib_compress (scanlines buf size) 9)) < 2 ^ 32 ->
  zlib_decompress (zlib_compress (scanlines buf size) 9)
  = Some (scanlines buf size) ->
  exists png,
    encode_png buf size = Ok png
    /\ decode_png png
       = Some {| width := size; height := size; bit_depth := 8;
                 color_type := 6; pixels := buf |}
    /\ Z.of_nat (length png)
       = 57 + Z.of_nat (length (zlib_compress (scanlines buf size) 9))
    /\ Z.of_nat (length (scanlines buf size)) = size * (4 * size + 1).
Proof.
  intros Hok Hs Hc Hz.
  rewrite (encode_png_layout buf size Hs Hc).
  eexists. split; [reflexivity |].
  rewrite (scanlines_rows buf size Hok) in *.
  split; [now apply decode_png_layout |].
  split.
  - rewrite !length_app, !length_serialized. simpl length. lia.
  - apply length_filtered_rows; [assumption | lia].
Qed.

(** [make_png] does not return for a negative size or one of 2^32 or more.
    A size outside the index type, below -2^63 or from 2^63, raises
    [OverflowError] and one from 2^32 [MemoryError], both where the canvas
    is made; a negative size inside the index type gives an empty canvas
    and raises the error of the rasterizer when that stopped, and
    [struct.error] from packing the header otherwise. *)
Theorem make_png_size_out_of_range (size : Z) :
  size < 0 \/ 2 ^ 32 <= size ->
  exists e,
    make_png size = Raise e
    /\ (((size < - 2 ^ 63 \/ 2 ^ 63 <= size) /\ e = OverflowError)
        \/ (2 ^ 32 <= size < 2 ^ 63 /\ e = MemoryError)
        \/ (- 2 ^ 63 <= size < 0
            /\ new_canvas size = Ok []
            /\ (snd (render_canvas size) = Some e
                \/ (snd (render_canvas size) = None /\ e = StructError)))).
Proof.
  intros Hsize. unfold make_png.
  destruct (new_canvas_cases size)
    as [(H1 & H2 & E) | [(H1 & E) | (H1 & H2 & E)]].
  - assert (Hneg : size < 0) by (unfold maxsize in H2; nia).
    assert (Hempty : tuple_mul (tuple_mul BG size) size = []).
    { unfold tuple_mul. now replace (Z.to_nat size) with 0%nat by lia. }
    rewrite Hempty in E.
    destruct (render_canvas size) as [buf [e |]].
    + exists e. split; [reflexivity |]. right. right.
      split; [lia |]. split; [assumption | now left].
    + exists StructError. split.
      * unfold encode_png, struct_pack, pack_field.
        replace ((0 <=? size) && (size <? 2 ^ (8 * Z.of_nat (fmt_size fI))))
          with false; [reflexivity |].
        symmetry. apply not_true_iff_false.
        rewrite andb_true_iff, Z.leb_le, Z.ltb_lt. lia.
      * right. right. split; [lia |]. split; [assumption |]. right.
        now split.
  - unfold render_canvas, try. rewrite E.
    exists OverflowError. split; [reflexivity |]. left.
    unfold maxsize in H1. split; [lia | reflexivity].
  - unfold render_canvas, try. rewrite E.
    exists MemoryError. split; [reflexivity |]. right. left.
    unfold maxsize in *. split; [nia | reflexivity].
Qed.

End LayerFacts.

Lemma render_canvas_layers_witness :
  let buf := fst (@render_canvas reference_libs 32) in
  canvas_ok 32 buf
  /\ forall x y, in_canvas 32 x y ->
       let scale := (float_of_int 32 / 512.0)%float in
       pixel buf 32 x y
       = (if polygon_hits (scale_points (@P_HOLE reference_libs) scale) 32 x y
          then BG
          else if polygon_hits (scale_points (@P_OUTER reference_libs) scale)
                               32 x y then FG
          else if rect_hits (scale_rect A_BAR scale) 32 x y then FG
          else if polygon_hits (scale_points A_HOLE scale) 32 x y then BG
          else if polygon_hits (scale_points A_OUTER scale) 32 x y then FG
          else BG)
       /\ (pixel buf 32 x y = BG \/ pixel buf 32 x y = FG).
Proof.
  apply (@render_canvas_layers reference_libs 32
           (fst (@render_canvas reference_libs 32))).
  - lia.
  - vm_compute. reflexivity.
Defined.

Lemma encode_png_round_trip_witness :
  exists png,
    @encode_png reference_libs (FG ++ BG ++ BG ++ FG) 2 = Ok png
    /\ @decode_png reference_libs png
       = Some {| width := 2; height := 2; bit_depth := 8;
                 color_type := 6; pixels := FG ++ BG ++ BG ++ FG |}
    /\ Z.of_nat (length png)
       = 57 + Z.of_nat (length (@zlib_compress reference_libs
                                  (scanlines (FG ++ BG ++ BG ++ FG) 2) 9))
    /\ Z.of_nat (length (scanlines (FG ++ BG ++ BG ++ FG) 2)) = 2 * (4 * 2 + 1).
Proof.
  apply (@encode_png_round_trip reference_libs (FG ++ BG ++ BG ++ FG) 2).
  - reflexivity.
  - lia.
  - vm_compute. reflexivity.
  - reflexivity.
Defined.

Lemma make_png_size_out_of_range_witness :
  exists e,
    @make_png reference_libs (2 ^ 32) = Raise e
    /\ (((2 ^ 32 < - 2 ^ 63 \/ 2 ^ 63 <= 2 ^ 32) /\ e = OverflowError)
        \/ (2 ^ 32 <= 2 ^ 32 < 2 ^ 63 /\ e = MemoryError)
        \/ (- 2 ^ 63 <= 2 ^ 32 < 0
            /\ new_canvas (2 ^ 32) = Ok []
            /\ (snd (@render_canvas reference_libs (2 ^ 32)) = Some e
                \/ (snd (@render_canvas reference_libs (2 ^ 32)) = None
                    /\ e = StructError)))).
Proof.
  apply (@make_png_size_out_of_range reference_libs (2 ^ 32)).
  right. lia.
Defined.

(** ** When the generator returns *)

Section CompletionFacts.

Context {L : PyLibs}.

Lemma scale_points_nonempty (points : list point) (scale : float) :
  points <> [] -> scale_points points scale <> [].
Proof. destruct points; [congruence | discriminate]. Qed.

Lemma fill_rect_finite (buf : buffer) (size : Z) (r : rect)
    (color : list byte) :
  finite_rect r = true -> snd (fill_rect buf size r color) = None.
Proof.
  destruct r as [[[x1 y1] x2] y2]. unfold finite_rect.
  intros H.
  apply andb_prop in H. destruct H as [H H4].
  apply andb_prop in H. destruct H as [H H3].
  apply andb_prop in H. destruct H as [H1 H2].
  rewrite fill_rect_scan. unfold rect_box, bind.
  destruct (math_floor_cases x1) as [(z1 & -> & _) | (e & _ & Hf & _)];
    [| congruence].
  destruct (math_ceil_cases x2) as [(z2 & -> & _) | (e & _ & Hf & _)];
    [| congruence].
  destruct (math_floor_cases y1) as [(z3 & -> & _) | (e & _ & Hf & _)];
    [| congruence].
  destruct (math_ceil_cases y2) as [(z4 & -> & _) | (e & _ & Hf & _)];
    [| congruence].
  reflexivity.
Qed.

Lemma render_canvas_completes (size : Z) :
  let scale := (float_of_int size / 512.0)%float in
  0 <= size -> 4 * size * size <= maxsize ->
  forallb (fun shape => finite_points (scale_points shape scale)
                        && slopes_ok (scale_points shape scale))
          [A_OUTER; A_HOLE; P_OUTER; P_HOLE] = true ->
  finite_rect (scale_rect A_BAR scale) = true ->
  snd (render_canvas size) = None.
Proof.
  intros scale Hsize Hfits Hshapes Hrect.
  assert (Hcanvas : new_canvas size
                    = Ok (tuple_mul (tuple_mul BG size) size)).
  { destruct (new_canvas_cases size)
      as [(_ & _ & E) | [(H1 & _) | (_ & H2 & _)]];
      [exact E | unfold maxsize in *; nia | lia]. }
  cbn [forallb] in Hshapes.
  rewrite !andb_true_iff in Hshapes.
  destruct Hshapes as ([F1 S1] & [F2 S2] & [F3 S3] & [F4 S4] & _).
  assert (C : forall buf shape color,
            shape <> [] ->
            finite_points (scale_points shape scale) = true ->
            slopes_ok (scale_points shape scale) = true ->
            exists buf', fill_polygon buf size (scale_points shape scale) color
                         = (buf', None)).
  { intros buf shape color Hne HF HS.
    pose proof (fill_polygon_completes buf size _ color
                  (scale_points_nonempty shape scale Hne) HF HS) as H.
    destruct (fill_polygon buf size (scale_points shape scale) color)
      as [buf' o]. exists buf'. simpl in H. now rewrite H. }
  unfold render_canvas, try. rewrite Hcanvas. fold scale.
  destruct (C (tuple_mul (tuple_mul BG size) size) A_OUTER FG) as [b1 ->];
    [discriminate | assumption | assumption |]. cbn [then_].
  destruct (C b1 A_HOLE BG) as [b2 ->];
    [discriminate | assumption | assumption |]. cbn [then_].
  assert (R : exists b3, fill_rect b2 size (scale_rect A_BAR scale) FG
                         = (b3, None)).
  { pose proof (fill_rect_finite b2 size (scale_rect A_BAR scale) FG Hrect)
      as H.
    destruct (fill_rect b2 size (scale_rect A_BAR scale) FG) as [b3 o].
    exists b3. simpl in H. now rewrite H. }
  destruct R as [b3 ->]. cbn [then_].
  destruct (C b3 P_OUTER FG) as [b4 ->];
    [unfold P_OUTER; discriminate | assumption | assumption |]. cbn [then_].
  destruct (C b4 P_HOLE BG) as [b5 ->];
    [unfold P_HOLE; cbn [app]; discriminate | assumption | assumption |].
  reflexivity.
Qed.


End CompletionFacts.


(** ** The file system *)

Lemma path_eqb_eq (p q : path) : path_eqb p q = true <-> p = q.
Proof.
  unfold path_eqb. destruct (list_eq_dec String.string_dec p q); split;
    congruence.
Qed.

Lemma path_eqb_neq (p q : path) : p <> q -> path_eqb p q = false.
Proof.
  intros H. destruct (path_eqb p q) eqn:E; [| reflexivity].
  now apply path_eqb_eq in E.
Qed.

Lemma nodes_put_same (w : world) (p : path) (n : node) :
  nodes (put w p n) p = Some n.
Proof.
  cbn [nodes put]. now rewrite (proj2 (path_eqb_eq p p) eq_refl).
Qed.

Lemma nodes_put_other (w : world) (p q : path) (n : node) :
  q <> p -> nodes (put w p n) q = nodes w q.
Proof. intros H. cbn [nodes put]. now rewrite path_eqb_neq. Qed.

Lemma is_dir_put_file (w : world) (p q : path) (data : list byte) :
  q <> p -> is_dir (put w p (File data)) q = is_dir w q.
Proof. intros H. unfold is_dir. now rewrite nodes_put_other. Qed.

Lemma app_nonempty_neq {A : Type} (p x : list A) : x <> [] -> p ++ x <> p.
Proof.
  intros Hx H. apply Hx.
  apply (app_inv_head p). now rewrite app_nil_r.
Qed.

Lemma existsb_seq_S (f : nat -> bool) (a n : nat) :
  existsb f (seq (S a) n) = existsb (fun k => f (S k)) (seq a n).
Proof.
  revert a. induction n as [| n IH]; intros a; [reflexivity |].
  cbn [seq existsb]. now rewrite IH.
Qed.

Lemma existsb_pointwise {A : Type} (f g : A -> bool) (l : list A) :
  (forall a, f a = g a) -> existsb f l = existsb g l.
Proof.
  intros H. induction l as [| a l IH]; [reflexivity |].
  cbn [existsb]. now rewrite H, IH.
Qed.

Lemma is_file_put_dir (w : world) (p q : path) :
  nodes w p = None -> is_file (put w p Directory) q = is_file w q.
Proof.
  intros E. unfold is_file. cbn [nodes put].
  destruct (path_eqb q p) eqn:Eq; [| reflexivity].
  apply path_eqb_eq in Eq. now rewrite Eq, E.
Qed.

(** [mkdir] raises exactly when a component of the path is a file. *)
Lemma mkdir_from_outcome (done todo : path) (w : world) :
  snd (mkdir_from done todo w)
  = if existsb (fun k => is_file w (done ++ firstn (S k) todo))
               (seq 0 (length todo))
    then inr OSError else inl tt.
Proof.
  revert done w. induction todo as [| name rest IH]; intros done w;
    [reflexivity |].
  cbn [mkdir_from length seq existsb].
  rewrite existsb_seq_S.
  change (firstn 1 (name :: rest)) with [name].
  unfold is_file at 1.
  destruct (nodes w (done ++ [name])) as [[| d] |] eqn:E.
  - cbn [orb]. rewrite IH. erewrite existsb_pointwise; [reflexivity |].
    intros k. rewrite <- app_assoc. reflexivity.
  - reflexivity.
  - cbn [orb]. rewrite IH. erewrite existsb_pointwise; [reflexivity |].
    intros k. rewrite is_file_put_dir by assumption.
    rewrite <- app_assoc. reflexivity.
Qed.

(** [mkdir] prints nothing and keeps every node; what it adds are
    directories at the path and above it. *)
Lemma mkdir_from_frame (done todo : path) (w : world) (q : path) :
  stdout (fst (mkdir_from done todo w)) = stdout w
  /\ (nodes (fst (mkdir_from done todo w)) q = nodes w q
      \/ (nodes w q = None
          /\ nodes (fst (mkdir_from done todo w)) q = Some Directory
          /\ exists k, q = done ++ firstn (S k) todo)).
Proof.
  revert done w. induction todo as [| name rest IH]; intros done w.
  - split; [reflexivity | now left].
  - cbn [mkdir_from].
    destruct (nodes w (done ++ [name])) as [[| d] |] eqn:E.
    + destruct (IH (done ++ [name]) w) as [Hout [H | (H1 & H2 & k & H3)]].
      * split; [assumption | now left].
      * split; [assumption | right].
        split; [assumption |]. split; [assumption |].
        exists (S k). cbn [firstn]. now rewrite <- app_assoc in H3.
    + split; [reflexivity | now left].
    + destruct (IH (done ++ [name]) (put w (done ++ [name]) Directory))
        as [Hout [H | (H1 & H2 & k & H3)]].
      * split; [assumption |].
        destruct (list_eq_dec String.string_dec q (done ++ [name]))
          as [-> | Hne].
        -- right. split; [assumption |].
           rewrite nodes_put_same in H. split; [assumption |].
           exists 0%nat. reflexivity.
        -- left. now rewrite nodes_put_other in H.
      * split; [assumption | right].
        destruct (list_eq_dec String.string_dec q (done ++ [name]))
          as [-> | Hne].
        -- rewrite nodes_put_same in H1. discriminate.
        -- rewrite nodes_put_other in H1 by assumption.
           split; [assumption |]. split; [assumption |].
           exists (S k). cbn [firstn]. now rewrite <- app_assoc in H3.
Qed.

(** When [mkdir] returns, the path is a directory. *)
Lemma mkdir_from_makes (done todo : path) (w : world) :
  snd (mkdir_from done todo w) = inl tt -> todo <> [] ->
  nodes (fst (mkdir_from done todo w)) (done ++ todo) = Some Directory.
Proof.
  revert done w. induction todo as [| name rest IH]; intros done w Hr Hne;
    [congruence |].
  cbn [mkdir_from] in *.
  replace (done ++ name :: rest) with ((done ++ [name]) ++ rest)
    by (now rewrite <- app_assoc).
  destruct (nodes w (done ++ [name])) as [[| d] |] eqn:E.
  - destruct rest as [| r rest].
    + cbn [mkdir_from fst]. now rewrite app_nil_r.
    + apply IH; [assumption | discriminate].
  - discriminate.
  - destruct rest as [| r rest].
    + cbn [mkdir_from fst]. rewrite app_nil_r. apply nodes_put_same.
    + apply IH; [assumption | discriminate].
Qed.

Lemma write_bytes_in (dir : path) (name : String.string) (data : list byte)
    (w : world) :
  dir <> [] -> nodes w dir = Some Directory ->
  write_bytes (dir ++ [name]) data w
  = if is_dir w (dir ++ [name]) then (w, inr OSError)
    else (put w (dir ++ [name]) (File data), inl (length data)).
Proof.
  intros Hne Hdir. unfold write_bytes.
  assert (H : node_at w (removelast (dir ++ [name])) = Some Directory).
  { rewrite removelast_last. destruct dir; [congruence | exact Hdir]. }
  rewrite H. unfold is_dir.
  destruct (dir ++ [name]) eqn:E.
  - now destruct dir.
  - destruct (nodes w (s :: l)) as [[| d] |]; reflexivity.
Qed.

Lemma write_ico_raises (png_data : list byte) (size : Z) (e : exn) :
  write_ico png_data size = Raise e -> e = StructError.
Proof.
  unfold write_ico. cbn [struct_pack].
  unfold pack_field.
  repeat match goal with
         | |- context [if ?c then _ else _] => destruct c
         end; cbn [bind]; congruence.
Qed.

(** ** The run of [main] *)

Lemma out_dir_nonempty (file : path) : out_dir file <> [].
Proof.
  unfold out_dir. intros H. apply app_eq_nil in H. destruct H as [_ H].
  discriminate.
Qed.

Lemma mkdir_outcome (p : path) (w : world) :
  snd (mkdir p w) = if blocked w p then inr OSError else inl tt.
Proof. unfold mkdir, blocked. now rewrite mkdir_from_outcome. Qed.

Lemma mkdir_stdout (p : path) (w : world) :
  stdout (fst (mkdir p w)) = stdout w.
Proof. exact (proj1 (mkdir_from_frame [] p w [])). Qed.

Lemma mkdir_below (p : path) (name : String.string) (w : world) :
  nodes (fst (mkdir p w)) (p ++ [name]) = nodes w (p ++ [name]).
Proof.
  destruct (mkdir_from_frame [] p w (p ++ [name]))
    as [_ [H | (_ & _ & k & H)]]; [exact H |].
  exfalso. change ([] ++ firstn (S k) p) with (firstn (S k) p) in H.
  apply (f_equal (@length _)) in H. rewrite length_app in H.
  cbn [length] in H. rewrite length_firstn in H. lia.
Qed.

Lemma name_neq (p : path) (a b : String.string) :
  a <> b -> p ++ [a] <> p ++ [b].
Proof. intros Hab H. apply app_inv_head in H. congruence. Qed.

Lemma below_neq (p : path) (a : String.string) : p <> p ++ [a].
Proof. intros H. symmetry in H. revert H. now apply app_nonempty_neq. Qed.

#[local] Ltac distinct :=
  first [ assumption
        | apply name_neq; discriminate
        | apply below_neq
        | apply not_eq_sym; assumption ].

#[local] Ltac lookup :=
  repeat first [ rewrite nodes_put_same
               | rewrite nodes_put_other by distinct
               | rewrite is_dir_put_file by distinct ].

Section MainRun.

Context {L : PyLibs}.

Variables (file : path) (w : world).

Let out : path := out_dir file.
Let w1 : world := fst (mkdir out w).
Let p32 : path := out ++ ["favicon-32x32.png"%string].
Let p192 : path := out ++ ["favicon-192x192.png"%string].
Let p512 : path := out ++ ["favicon-512x512.png"%string].
Let pico : path := out ++ ["favicon.ico"%string].

Let report (size : Z) (data : list byte) : String.string :=
  String.concat String.EmptyString
    [ "  "; str size; "x"; str size; " -> ";
      str (Z.of_nat (length data)); " bytes" ]%string.

Let result : Type := (world * (unit + script_exn))%type.

(** The run of [main], case by case.  The result type is written at each
    test to keep the statement quick to check. *)
Lemma main_eq :
  main file w
  = if (1 <? length file)%nat return result then
      if blocked w out return result then (w1, inr OSError) else
      match make_png 32 return result with
      | Raise e => (w1, inr (Computed e))
      | Ok png32 =>
      if is_dir w p32 return result then (w1, inr OSError) else
      match make_png 192 return result with
      | Raise e => (put w1 p32 (File png32), inr (Computed e))
      | Ok png192 =>
      if is_dir w p192 return result
      then (put w1 p32 (File png32), inr OSError) else
      match make_png 512 return result with
      | Raise e =>
          (put (put w1 p32 (File png32)) p192 (File png192),
           inr (Computed e))
      | Ok png512 =>
      if is_dir w p512 return result
      then (put (put w1 p32 (File png32)) p192 (File png192), inr OSError)
      else
      match write_ico png32 32 return result with
      | Raise e =>
          (put (put (put w1 p32 (File png32)) p192 (File png192))
               p512 (File png512),
           inr (Computed e))
      | Ok ico =>
      if is_dir w pico return result
      then (put (put (put w1 p32 (File png32)) p192 (File png192))
                p512 (File png512),
            inr OSError)
      else
        ({| nodes :=
              nodes (put (put (put (put w1 p32 (File png32))
                                   p192 (File png192))
                              p512 (File png512))
                         pico (File ico));
            stdout :=
              stdout w
              ++ [ "Generated favicon assets:"%string; report 32 png32;
                   report 192 png192; report 512 png512 ] |},
         inl tt)
      end end end end
    else (w, inr IndexError).
Proof.
  unfold main, parents, io_bind at 1.
  destruct (1 <? length file)%nat eqn:Hlen; [| reflexivity].
  unfold io_ret at 1.
  change (join (firstn (length file - 2) file) "images"%string) with out.
  unfold io_bind at 1.
  assert (Em : mkdir out w = (w1, snd (mkdir out w)))
    by apply surjective_pairing.
  rewrite Em, mkdir_outcome.
  destruct (blocked w out) eqn:Hb; [reflexivity |].
  assert (Hd : nodes w1 out = Some Directory).
  { apply (mkdir_from_makes [] out w).
    - fold (mkdir out w). now rewrite mkdir_outcome, Hb.
    - apply out_dir_nonempty. }
  assert (Hne : out <> []) by apply out_dir_nonempty.
  assert (Hw1 : forall name, is_dir w1 (out ++ [name]) = is_dir w (out ++ [name])).
  { intros name. unfold is_dir, w1. now rewrite mkdir_below. }
  unfold join, write_png, write_ico_at, computed.
  fold p32 p192 p512 pico.
  unfold io_bind at 1. unfold io_bind at 1.
  destruct (make_png 32) as [png32 | e]; [| reflexivity].
  unfold io_ret at 1. unfold io_bind at 1.
  unfold p32 at 1. rewrite write_bytes_in by assumption. fold p32.
  unfold p32 at 1. rewrite Hw1. fold p32.
  destruct (is_dir w p32) eqn:H32; [reflexivity |].
  unfold io_ret at 1.
  unfold io_bind at 1. unfold io_bind at 1.
  destruct (make_png 192) as [png192 | e]; [| reflexivity].
  unfold io_ret at 1. unfold io_bind at 1.
  unfold p192 at 1. rewrite write_bytes_in by (lookup; assumption).
  fold p192. subst p32 p192 p512 pico. lookup. rewrite Hw1.
  destruct (is_dir w (out ++ ["favicon-192x192.png"%string])) eqn:H192;
    [reflexivity |].
  unfold io_ret at 1.
  unfold io_bind at 1. unfold io_bind at 1.
  destruct (make_png 512) as [png512 | e]; [| reflexivity].
  unfold io_ret at 1. unfold io_bind at 1.
  rewrite write_bytes_in by (lookup; assumption).
  lookup. rewrite Hw1.
  destruct (is_dir w (out ++ ["favicon-512x512.png"%string])) eqn:H512;
    [reflexivity |].
  unfold io_ret at 1.
  unfold io_bind at 1. unfold io_bind at 1.
  destruct (write_ico png32 32) as [ico | e]; [| reflexivity].
  unfold io_ret at 1.
  rewrite write_bytes_in by (lookup; assumption).
  lookup. rewrite Hw1.
  destruct (is_dir w (out ++ ["favicon.ico"%string])) eqn:Hico;
    [reflexivity |].
  unfold for_io. unfold io_bind, print, io_ret. cbn [nodes stdout put].
  unfold w1. rewrite mkdir_stdout, <- !app_assoc. reflexivity.
Qed.

End MainRun.

Lemma mkdir_kept (p : path) (w : world) (q : path) :
  (forall n, nodes w q = Some n -> nodes (fst (mkdir p w)) q = Some n)
  /\ (nodes w q = None ->
      nodes (fst (mkdir p w)) q = None
      \/ (nodes (fst (mkdir p w)) q = Some Directory
          /\ exists k, q = firstn (S k) p)).
Proof.
  destruct (mkdir_from_frame [] p w q) as [_ [H | (H1 & H2 & k & H3)]];
    fold (mkdir p w) in *.
  - rewrite H. split; [auto | now left].
  - split; [intros n Hn; congruence |].
    intros _. right. split; [assumption |]. now exists k.
Qed.

#[local] Ltac run_case :=
  match goal with
  | |- context [if (1 <? length ?f)%nat then _ else _] =>
      destruct (1 <? length f)%nat eqn:?
  | |- context [if blocked ?w ?p then _ else _] =>
      destruct (blocked w p) eqn:?
  | |- context [match make_png ?s with _ => _ end] =>
      destruct (make_png s) eqn:?
  | |- context [if is_dir ?w ?p then _ else _] =>
      destruct (is_dir w p) eqn:?
  | |- context [match write_ico ?d ?s with _ => _ end] =>
      destruct (write_ico d s) eqn:?
  end.

#[local] Ltac run_main file w :=
  let E := fresh "E" in
  pose proof (main_eq file w) as E; cbv zeta in E; rewrite E; clear E.

#[local] Opaque make_png write_ico.

Section ScriptFacts.

Context {L : PyLibs}.

Lemma outputs_free (file : path) (w : world) :
  forallb (fun p => negb (is_dir w p)) (outputs file) = true
  <-> is_dir w (out_dir file ++ ["favicon-32x32.png"%string]) = false
      /\ is_dir w (out_dir file ++ ["favicon-192x192.png"%string]) = false
      /\ is_dir w (out_dir file ++ ["favicon-512x512.png"%string]) = false
      /\ is_dir w (out_dir file ++ ["favicon.ico"%string]) = false.
Proof.
  unfold outputs. cbn [map forallb].
  destruct (is_dir w (out_dir file ++ ["favicon-32x32.png"%string])),
           (is_dir w (out_dir file ++ ["favicon-192x192.png"%string])),
           (is_dir w (out_dir file ++ ["favicon-512x512.png"%string])),
           (is_dir w (out_dir file ++ ["favicon.ico"%string]));
    cbn [negb andb]; split; intros H; try discriminate H;
    repeat split; try reflexivity;
    destruct H as (H1 & H2 & H3 & H4); discriminate.
Qed.

Lemma main_completes_when (file : path) (w : world) :
  main_can_return file w -> snd (main file w) = inl tt.
Proof.
  intros (Hlen & Hb & Hout
          & (png32 & E32 & Hl) & (png192 & E192) & (png512 & E512)).
  apply outputs_free in Hout. destruct Hout as (H32 & H192 & H512 & Hico).
  run_main file w.
  apply Nat.ltb_lt in Hlen.
  rewrite Hlen, Hb, E32, H32, E192, H192, E512, H512.
  destruct (write_ico png32 32) as [ico | e] eqn:Ei.
  - rewrite Hico. reflexivity.
  - exfalso.
    assert (H : write_ico png32 32 = Ok (ico_header 0 1 1
                ++ ico_entry 32 32 0 0 0 0 (Z.of_nat (length png32)) 22
                ++ png32)).
    { apply write_ico_returns. repeat split; [lia | assumption]. }
    congruence.
Qed.

(** [main] runs to its end exactly when the script is at least two levels
    below the root, the output directory and the directories above it are
    not files, none of the four output paths is a directory, [make_png]
    returns for 32, 192 and 512, and the 32-pixel image is shorter than
    2^32 bytes. *)
Theorem main_returns (file : path) (w : world) :
  snd (main file w) = inl tt <-> main_can_return file w.
Proof.
  split; [| apply main_completes_when].
  run_main file w.
  repeat run_case; cbn [snd]; intros H; try discriminate H. clear H.
  match goal with
  | H : write_ico _ _ = Ok _ |- _ =>
      apply write_ico_returns in H; destruct H as (_ & Hl & _)
  end.
  match goal with
  | H : (1 <? length file)%nat = true |- _ => apply Nat.ltb_lt in H
  end.
  unfold main_can_return.
  split; [lia |]. split; [assumption |].
  split; [apply outputs_free; repeat split; assumption |].
  split.
  { match goal with
    | H : make_png 32 = Ok ?d |- _ => exists d; split; [exact H | exact Hl]
    end. }
  split.
  - match goal with
    | H : make_png 192 = Ok ?d |- _ => exists d; exact H
    end.
  - match goal with
    | H : make_png 512 = Ok ?d |- _ => exists d; exact H
    end.
Qed.

(** When [main] has run to its end, the output directory exists, the three
    image files hold what [make_png] returns for 32, 192 and 512, the icon
    file holds the six-byte header, a 16-byte entry with width and height
    32, the length of the 32-pixel image and the offset 22, and then that
    image; and one heading and a line for each image with its length have
    been printed. *)
Theorem main_writes_assets (file : path) (w w' : world) :
  main file w = (w', inl tt) ->
  exists png32 png192 png512,
    make_png 32 = Ok png32 /\ make_png 192 = Ok png192
    /\ make_png 512 = Ok png512
    /\ nodes w' (out_dir file) = Some Directory
    /\ nodes w' (out_dir file ++ ["favicon-32x32.png"%string])
       = Some (File png32)
    /\ nodes w' (out_dir file ++ ["favicon-192x192.png"%string])
       = Some (File png192)
    /\ nodes w' (out_dir file ++ ["favicon-512x512.png"%string])
       = Some (File png512)
    /\ nodes w' (out_dir file ++ ["favicon.ico"%string])
       = Some (File (ico_header 0 1 1
                     ++ ico_entry 32 32 0 0 0 0
                          (Z.of_nat (length png32)) 22
                     ++ png32))
    /\ stdout w'
       = stdout w
         ++ [ "Generated favicon assets:"%string;
              String.concat String.EmptyString
                [ "  32x32 -> "; str (Z.of_nat (length png32)); " bytes" ]%string;
              String.concat String.EmptyString
                [ "  192x192 -> "; str (Z.of_nat (length png192)); " bytes" ]%string;
              String.concat String.EmptyString
                [ "  512x512 -> "; str (Z.of_nat (length png512)); " bytes" ]%string ].
Proof.
  run_main file w.
  repeat run_case; intros H; try discriminate H.
  apply pair_equal_spec in H. destruct H as [<- _].
  match goal with
  | H : write_ico _ _ = Ok _ |- _ =>
      apply write_ico_returns in H; destruct H as (_ & _ & ->)
  end.
  do 3 eexists.
  split; [reflexivity |]. split; [reflexivity |]. split; [reflexivity |].
  cbn [nodes stdout].
  split.
  { lookup. apply (mkdir_from_makes [] (out_dir file) w).
    - fold (mkdir (out_dir file) w).
      rewrite mkdir_outcome.
      match goal with H : blocked _ _ = false |- _ => now rewrite H end.
    - apply out_dir_nonempty. }
  split; [now lookup |]. split; [now lookup |]. split; [now lookup |].
  split; [now lookup |].
  reflexivity.
Qed.

(** When [main] raises, nothing has been printed and the icon file is as
    it was; the error is [IndexError] for a script less than two levels
    below the root, [OSError] for a file in the place of a directory or a
    directory in the place of an output file, and otherwise the error of
    [make_png], or [struct.error] for a 32-pixel image of 2^32 bytes or
    more. *)
Theorem main_failure (file : path) (w w' : world) (e : script_exn) :
  main file w = (w', inr e) ->
  stdout w' = stdout w
  /\ nodes w' (out_dir file ++ ["favicon.ico"%string])
     = nodes w (out_dir file ++ ["favicon.ico"%string])
  /\ ((e = IndexError /\ (length file < 2)%nat)
      \/ (e = OSError
          /\ (blocked w (out_dir file) = true
              \/ existsb (is_dir w) (outputs file) = true))
      \/ (exists e',
            e = Computed e'
            /\ (make_png 32 = Raise e' \/ make_png 192 = Raise e'
                \/ make_png 512 = Raise e'
                \/ (e' = StructError
                    /\ exists png32,
                         make_png 32 = Ok png32
                         /\ 2 ^ 32 <= Z.of_nat (length png32))))).
Proof.
  run_main file w.
  repeat run_case; intros H; try discriminate H;
    apply pair_equal_spec in H; destruct H as [<- H]; injection H as <-;
    (split; [cbn [stdout put]; rewrite ?mkdir_stdout; reflexivity |]);
    (split; [lookup; try apply mkdir_below; reflexivity |]);
    match goal with
    | |- (IndexError = IndexError /\ _) \/ _ =>
        left; split; [reflexivity |];
        match goal with
        | Hl : (1 <? length file)%nat = false |- _ =>
            apply Nat.ltb_ge in Hl; lia
        end
    | |- (OSError = IndexError /\ _) \/ _ =>
        right; left; split; [reflexivity |];
        first
          [ left; reflexivity
          | right; unfold outputs; cbn [map existsb];
            repeat match goal with
                   | Hd : is_dir _ _ = _ |- _ => rewrite Hd; clear Hd
                   end;
            reflexivity ]
    | |- (Computed ?e = IndexError /\ _) \/ _ =>
        right; right; exists e; split; [reflexivity |];
        match goal with
        | Hr : make_png 32 = Raise _ |- _ => left; reflexivity
        | Hr : make_png 192 = Raise _ |- _ => right; left; reflexivity
        | Hr : make_png 512 = Raise _ |- _ => right; right; left; reflexivity
        | Hr : write_ico ?d _ = Raise _, Hm : make_png 32 = Ok ?d |- _ =>
            right; right; right;
            pose proof (write_ico_raises _ _ _ Hr) as He;
            split; [exact He |]; exists d; split; [reflexivity |];
            destruct (Z.lt_ge_cases (Z.of_nat (length d)) (2 ^ 32))
              as [Hl | Hl]; [| exact Hl];
            assert (Hok : write_ico d 32
                          = Ok (ico_header 0 1 1
                                ++ ico_entry 32 32 0 0 0 0
                                     (Z.of_nat (length d)) 22 ++ d))
              by (apply write_ico_returns; repeat split; [lia | exact Hl]);
            congruence
        end
    end.
Qed.

(** Whether it returns or raises, [main] leaves every file and directory
    other than its four output files as it was, and the only nodes it adds
    besides them are the output directory and directories above it. *)
Theorem main_keeps_other_nodes (file : path) (w : world) (p : path) :
  ~ In p (outputs file) ->
  (forall n, nodes w p = Some n -> nodes (fst (main file w)) p = Some n)
  /\ (nodes w p = None ->
      nodes (fst (main file w)) p = None
      \/ (nodes (fst (main file w)) p = Some Directory
          /\ exists k, p = firstn (S k) (out_dir file))).
Proof.
  intros Hp.
  assert (H32 : p <> out_dir file ++ ["favicon-32x32.png"%string])
    by (intros ->; apply Hp; unfold outputs; cbn [map In]; tauto).
  assert (H192 : p <> out_dir file ++ ["favicon-192x192.png"%string])
    by (intros ->; apply Hp; unfold outputs; cbn [map In]; tauto).
  assert (H512 : p <> out_dir file ++ ["favicon-512x512.png"%string])
    by (intros ->; apply Hp; unfold outputs; cbn [map In]; tauto).
  assert (Hico : p <> out_dir file ++ ["favicon.ico"%string])
    by (intros ->; apply Hp; unfold outputs; cbn [map In]; tauto).
  run_main file w.
  repeat run_case; cbn [fst nodes]; lookup;
    first [ apply mkdir_kept | split; [auto | now left] ].
Qed.

End ScriptFacts.

#[local] Transparent make_png write_ico.

(** ** A run of the script with the reference runtime *)

Lemma reference_make_png (size : Z) :
  let scale := (float_of_int size / 512.0)%float in
  0 <= size <= 512 ->
  forallb (fun shape => finite_points (scale_points shape scale)
                        && slopes_ok (scale_points shape scale))
          [A_OUTER; A_HOLE; @P_OUTER reference_libs; @P_HOLE reference_libs]
  = true ->
  finite_rect (scale_rect A_BAR scale) = true ->
  exists png,
    @make_png reference_libs size = Ok png
    /\ Z.of_nat (length png) < 2 ^ 32.
Proof.
  intros scale Hs Hshapes Hrect.
  assert (Hfits : 4 * size * size <= maxsize) by (unfold maxsize; nia).
  pose proof (@render_canvas_completes reference_libs size (proj1 Hs) Hfits
                Hshapes Hrect) as Hr.
  pose proof (@render_canvas_ok reference_libs size (proj1 Hs) Hr) as Hok.
  destruct (@render_canvas reference_libs size) as [buf o] eqn:E.
  cbn [fst snd] in Hr, Hok. subst o.
  assert (Hlen : Z.of_nat (length (filtered_rows buf size))
                 = size * (4 * size + 1))
    by (apply length_filtered_rows; [assumption | lia]).
  assert (Hc : Z.of_nat (length (@zlib_compress reference_libs
                                   (filtered_rows buf size) 9)) < 2 ^ 32).
  { change (Z.of_nat (length (filtered_rows buf size)) < 2 ^ 32).
    rewrite Hlen. nia. }
  eexists. split.
  - apply (@make_png_returns reference_libs). exists buf.
    split; [exact E |]. split; [lia |]. split; [exact Hc | reflexivity].
  - change (@zlib_compress reference_libs (filtered_rows buf size) 9)
      with (filtered_rows buf size).
    rewrite !length_app, !length_serialized.
    set (n := length (filtered_rows buf size)) in *.
    simpl length. nia.
Qed.

Lemma reference_main_can_return :
  @main_can_return reference_libs reference_file empty_world.
Proof.
  unfold main_can_return.
  split; [simpl; lia |].
  split; [vm_compute; reflexivity |].
  split; [vm_compute; reflexivity |].
  split; [| split].
  - apply (reference_make_png 32); [lia | |]; vm_compute; reflexivity.
  - destruct (reference_make_png 192) as (png & H & _);
      [lia | vm_compute; reflexivity | vm_compute; reflexivity |].
    exists png. exact H.
  - destruct (reference_make_png 512) as (png & H & _);
      [lia | vm_compute; reflexivity | vm_compute; reflexivity |].
    exists png. exact H.
Qed.

Lemma main_writes_assets_witness :
  exists w',
    @main reference_libs reference_file empty_world = (w', inl tt)
    /\ exists png32 png192 png512,
         @make_png reference_libs 32 = Ok png32
         /\ @make_png reference_libs 192 = Ok png192
         /\ @make_png reference_libs 512 = Ok png512
         /\ nodes w' (out_dir reference_file) = Some Directory
         /\ nodes w' (out_dir reference_file ++ ["favicon-32x32.png"%string])
            = Some (File png32)
         /\ nodes w' (out_dir reference_file ++ ["favicon-192x192.png"%string])
            = Some (File png192)
         /\ nodes w' (out_dir reference_file ++ ["favicon-512x512.png"%string])
            = Some (File png512)
         /\ nodes w' (out_dir reference_file ++ ["favicon.ico"%string])
            = Some (File (ico_header 0 1 1
                          ++ ico_entry 32 32 0 0 0 0
                               (Z.of_nat (length png32)) 22
                          ++ png32))
         /\ stdout w'
            = stdout empty_world
              ++ [ "Generated favicon assets:"%string;
                   String.concat String.EmptyString
                     [ "  32x32 -> "; str (Z.of_nat (length png32));
                       " bytes" ]%string;
                   String.concat String.EmptyString
                     [ "  192x192 -> "; str (Z.of_nat (length png192));
                       " bytes" ]%string;
                   String.concat String.EmptyString
                     [ "  512x512 -> "; str (Z.of_nat (length png512));
                       " bytes" ]%string ].
Proof.
  pose proof (@main_completes_when reference_libs reference_file empty_world
                reference_main_can_return) as Hs.
  destruct (@main reference_libs reference_file empty_world) as [w' r] eqn:E.
  cbn [snd] in Hs. subst r.
  exists w'. split; [reflexivity |].
  exact (@main_writes_assets reference_libs reference_file empty_world w' E).
Defined.

Lemma main_failure_witness :
  stdout blocked_world = stdout blocked_world
  /\ nodes blocked_world (out_dir reference_file ++ ["favicon.ico"%string])
     = nodes blocked_world (out_dir reference_file ++ ["favicon.ico"%string])
  /\ ((OSError = IndexError /\ (length reference_file < 2)%nat)
      \/ (OSError = OSError
          /\ (blocked blocked_world (out_dir reference_file) = true
              \/ existsb (is_dir blocked_world) (outputs reference_file)
                 = true))
      \/ (exists e',
            OSError = Computed e'
            /\ (@make_png reference_libs 32 = Raise e'
                \/ @make_png reference_libs 192 = Raise e'
                \/ @make_png reference_libs 512 = Raise e'
                \/ (e' = StructError
                    /\ exists png32,
                         @make_png reference_libs 32 = Ok png32
                         /\ 2 ^ 32 <= Z.of_nat (length png32))))).
Proof.
  apply (@main_failure reference_libs reference_file blocked_world
           blocked_world OSError).
  reflexivity.
Defined.

Lemma main_keeps_other_nodes_witness :
  (forall n,
     nodes blocked_world ["repo"%string] = Some n ->
     nodes (fst (@main reference_libs reference_file blocked_world))
           ["repo"%string] = Some n)
  /\ (nodes blocked_world ["repo"%string] = None ->
      nodes (fst (@main reference_libs reference_file blocked_world))
            ["repo"%string] = None
      \/ (nodes (fst (@main reference_libs reference_file blocked_world))
                ["repo"%string] = Some Directory
          /\ exists k, ["repo"%string]
                       = firstn (S k) (out_dir reference_file))).
Proof.
  apply (@main_keeps_other_nodes reference_libs reference_file blocked_world
           ["repo"%string]).
  unfold outputs. cbn [map In].
  intros [H | [H | [H | [H | []]]]]; discriminate H.
Defined.
